(** * MCP client of gemini-cli-mini: discovery, filtering and status tracking

    A shallow embedding of [src/core/mcp/mcp-client.js] together with the
    tool registry it registers into ([src/core/client.js],
    [src/tools/mcp-integration.js]).

    Conventions of the embedding.
    - A JavaScript field that may be [undefined] is an [option]; for strings
      the code tests truthiness, so [Some ""] behaves as [None] wherever the
      source writes [if (x)] or [!x], and differs from it wherever the source
      writes [x ?? d].
    - An object used as a dictionary whose iteration order is observable
      (the server map handed to [Object.entries]) is the list of its entries;
      maps that are only looked up ([Map], [process.env], header and
      environment objects) are [gmap]s.
    - Mutable module state and the console are fields of one [World] record
      threaded through the code; every observable action is also appended to
      a trace, oldest first.
    - [async] functions are cut at their [await]s into segments; a pending
      pipeline is resumed by a scheduler label, so every interleaving of the
      per-server pipelines is a run of the model.  Every awaited operation
      settles: a handshake or request that hangs is ended by its timeout and
      settles with an error.
    - Status listeners are observers: a call of a listener is an event of
      the trace, it returns normally and does not touch the listener array.
    - Time is not modelled; of a timeout only the value handed to the
      protocol runtime is. *)

From Stdlib Require Import ZArith String Ascii List Bool.
From stdpp Require Import base option list strings gmap.

Local Open Scope string_scope.
Local Open Scope Z_scope.

(** ** Constants and enumerations (lines 19-44) *)

Definition MCP_DEFAULT_TIMEOUT_MSEC : Z := 10 * 60 * 1000.

Inductive MCPServerStatus :=
| DISCONNECTED
| CONNECTING
| CONNECTED.

Inductive MCPDiscoveryState :=
| NOT_STARTED
| IN_PROGRESS
| COMPLETED.

Definition MCPServerStatus_value (s : MCPServerStatus) : string :=
  match s with
  | DISCONNECTED => "disconnected"
  | CONNECTING => "connecting"
  | CONNECTED => "connected"
  end.

Definition MCPDiscoveryState_value (s : MCPDiscoveryState) : string :=
  match s with
  | NOT_STARTED => "not_started"
  | IN_PROGRESS => "in_progress"
  | COMPLETED => "completed"
  end.

#[global] Instance MCPServerStatus_eq_dec : EqDecision MCPServerStatus.
Proof. solve_decision. Defined.

#[global] Instance MCPDiscoveryState_eq_dec : EqDecision MCPDiscoveryState.
Proof. solve_decision. Defined.

(** ** JavaScript values used by the client *)

(** [Error] objects: the class that made them and their message.  An
    object of a class of the protocol runtime, such as [McpError], has that
    class's [name]. *)
Inductive ErrorCtor :=
| CtorError
| CtorTypeError
| CtorClass (name : string).

Record JsError := MkError { err_ctor : ErrorCtor; message : string }.

#[global] Instance ErrorCtor_eq_dec : EqDecision ErrorCtor.
Proof. solve_decision. Defined.

#[global] Instance JsError_eq_dec : EqDecision JsError.
Proof. solve_decision. Defined.

Definition new_Error (msg : string) : JsError := MkError CtorError msg.
Definition new_TypeError (msg : string) : JsError := MkError CtorTypeError msg.

(** [Error.prototype.toString], which [`${error}`] and [String(error)]
    call: the message alone when the name is empty, the name alone when the
    message is empty. *)
Definition Error_name (e : JsError) : string :=
  match err_ctor e with
  | CtorError => "Error"
  | CtorTypeError => "TypeError"
  | CtorClass name => name
  end.

Definition Error_toString (e : JsError) : string :=
  if String.eqb (Error_name e) "" then message e
  else if String.eqb (message e) "" then Error_name e
  else Error_name e +:+ ": " +:+ message e.

(** [error.message || String(error)] and [error.message || error] inside
    a template. *)
Definition message_or_string (e : JsError) : string :=
  if String.eqb (message e) "" then Error_toString e else message e.

(** Truthiness of a possibly undefined string: [undefined] and [""] are
    falsy. *)
Definition truthy (v : option string) : bool :=
  match v with
  | None => false
  | Some s => negb (String.eqb s "")
  end.

(** [Array.prototype.includes] and [Array.prototype.some]. *)
Definition Array_includes (l : list string) (x : string) : bool :=
  existsb (String.eqb x) l.

Definition Array_some {A} (p : A → bool) (l : list A) : bool :=
  existsb p l.

(** [String.prototype.startsWith] and [String.prototype.includes]. *)
Definition startsWith (s p : string) : bool := String.prefix p s.

Definition String_includes (s sub : string) : bool :=
  match String.index 0 sub s with
  | Some _ => true
  | None => false
  end.

(** Console output. *)
Inductive ConsoleLine :=
| ConsoleWarn (text : string)
| ConsoleError (text : string).

(** ** Server descriptors ([MCPServerConfig], mcp-config.js typedef) *)

Record MCPServerConfig := {
  command : option string;
  args : option (list string);
  env : option (gmap string string);
  cwd : option string;
  url : option string;
  httpUrl : option string;
  headers : option (gmap string string);
  timeout : option Z;
  includeTools : option (list string);
  excludeTools : option (list string);
}.

(** The server map [Record<string, MCPServerConfig>], as the list that
    [Object.entries] returns.  Keys of an object are unique. *)
Definition Servers := list (string * MCPServerConfig).

Fixpoint obj_get (k : string) (o : Servers) : option MCPServerConfig :=
  match o with
  | [] => None
  | (k', v) :: o' => if String.eqb k k' then Some v else obj_get k o'
  end.

(** [o[k] = v]: an existing key keeps its place, a new key goes last. *)
Fixpoint obj_set (k : string) (v : MCPServerConfig) (o : Servers) : Servers :=
  match o with
  | [] => [(k, v)]
  | (k', v') :: o' =>
      if String.eqb k k' then (k, v) :: o' else (k', v') :: obj_set k v o'
  end.

Fixpoint keys_unique (ks : list string) : bool :=
  match ks with
  | [] => true
  | k :: ks' => negb (Array_includes ks' k) && keys_unique ks'
  end.

Definition well_formed (o : Servers) : bool := keys_unique (map fst o).

(** ** Function declarations and proxy tools *)

(** A parameter schema: the JSON the server sent, or the literal
    [{ type: 'object', properties: {} }] the client substitutes. *)
Inductive JsonSchema :=
| SchemaOf (json : string)
| SchemaEmptyObject.

Record FunctionDeclaration := {
  fd_name : option string;
  fd_description : option string;
  fd_parametersJsonSchema : option JsonSchema;
}.

(** [DiscoveredMCPTool] (lines 447-472).  [mcpCallableTool] is a reference
    to the callable wrapper of one client; the client is named by its
    server. *)
Record DiscoveredMCPTool := {
  tool_mcpCallableTool : string;
  tool_serverName : string;
  tool_name : string;
  tool_description : string;
  tool_schema : JsonSchema;
  tool_timeout : Z;
}.

(** ** isEnabled (lines 383-407) *)

Definition isEnabled (funcDecl : FunctionDeclaration) (mcpServerName : string)
    (mcpServerConfig : MCPServerConfig) : list ConsoleLine * bool :=
  match fd_name funcDecl with
  | None | Some EmptyString =>
      ([ConsoleWarn ("Discovered a function declaration without a name from MCP server '"
                     +:+ mcpServerName +:+ "'. Skipping.")], false)
  | Some name =>
      if match excludeTools mcpServerConfig with
         | Some ex => Array_includes ex name
         | None => false
         end
      then ([], false)
      else
        ([], match includeTools mcpServerConfig with
             | None => true
             | Some inc =>
                 Array_some
                   (λ tool, String.eqb tool name || startsWith tool (name +:+ "("))
                   inc
             end)
  end.

(** Whether [isEnabled] accepts a declaration, without its console
    output. *)
Definition keeps (mcpServerName : string) (mcpServerConfig : MCPServerConfig)
    (funcDecl : FunctionDeclaration) : bool :=
  (isEnabled funcDecl mcpServerName mcpServerConfig).2.

(** ** Tool discovery (lines 226-263, 412-427) *)

(** One element of [listResult.tools] as it arrives from the server. *)
Record WireTool := {
  wt_name : option string;
  wt_description : option string;
  wt_inputSchema : option JsonSchema;
}.

(** The [tools] field of a [tools/list] result: missing, [null], a value
    that is no array (and has no [map]), or an array. *)
Inductive ToolsField :=
| ToolsUndefined
| ToolsNull
| ToolsNotArray
| ToolsArray (tools : list WireTool).

(** The [functionDeclarations] field of what [mcpCallableTool.tool()]
    resolves to. *)
Inductive Declarations :=
| DeclNotArray
| DeclArray (decls : list FunctionDeclaration).

(** The callback of [listResult.tools.map] (lines 421-425). *)
Definition functionDeclaration_of (tool : WireTool) : FunctionDeclaration :=
  {| fd_name := wt_name tool;
     fd_description := wt_description tool;
     fd_parametersJsonSchema := wt_inputSchema tool |}.

(** [mcpToTool(mcpClient).tool()] after the request has settled:
    [listResult.tools.map(...)] throws a [TypeError] when [tools] is missing
    or [null], and another when it has no [map]. *)
Definition mcpToTool_tool (listResult : JsError + ToolsField)
    : JsError + Declarations :=
  match listResult with
  | inl e => inl e
  | inr ToolsUndefined =>
      inl (new_TypeError "Cannot read properties of undefined (reading 'map')")
  | inr ToolsNull =>
      inl (new_TypeError "Cannot read properties of null (reading 'map')")
  | inr ToolsNotArray => inl (new_TypeError "listResult.tools.map is not a function")
  | inr (ToolsArray tools) =>
      inr (DeclArray (map functionDeclaration_of tools))
  end.

(** [new DiscoveredMCPTool(mcpCallableTool, mcpServerName, funcDecl.name,
    funcDecl.description ?? '', funcDecl.parametersJsonSchema ?? {...},
    mcpServerConfig.timeout ?? MCP_DEFAULT_TIMEOUT_MSEC)].  The name passed
    is a non-empty string whenever [isEnabled] accepted the declaration. *)
Definition new_DiscoveredMCPTool (mcpServerName : string)
    (mcpServerConfig : MCPServerConfig) (funcDecl : FunctionDeclaration)
    : DiscoveredMCPTool :=
  {| tool_mcpCallableTool := mcpServerName;
     tool_serverName := mcpServerName;
     tool_name := default "" (fd_name funcDecl);
     tool_description := default "" (fd_description funcDecl);
     tool_schema := default SchemaEmptyObject (fd_parametersJsonSchema funcDecl);
     tool_timeout := default MCP_DEFAULT_TIMEOUT_MSEC (timeout mcpServerConfig) |}.

(** One iteration of the [for (const funcDecl of ...)] loop: the console
    so far and [discoveredTools] so far. *)
Definition discoverTools_iter (mcpServerName : string)
    (mcpServerConfig : MCPServerConfig)
    (acc : list ConsoleLine * list DiscoveredMCPTool)
    (funcDecl : FunctionDeclaration)
    : list ConsoleLine * list DiscoveredMCPTool :=
  let '(out, enabled) := isEnabled funcDecl mcpServerName mcpServerConfig in
  if negb enabled then (app acc.1 out, acc.2)
  else (app acc.1 out,
        app acc.2 [new_DiscoveredMCPTool mcpServerName mcpServerConfig funcDecl]).

(** [discoverTools] from the point where [await mcpCallableTool.tool()]
    has settled with [tool]. *)
Definition discoverTools_of (mcpServerName : string)
    (mcpServerConfig : MCPServerConfig) (tool : JsError + Declarations)
    : list ConsoleLine * (JsError + list DiscoveredMCPTool) :=
  let wrap (error : JsError) :=
    new_Error ("Error discovering tools: " +:+ Error_toString error) in
  match tool with
  | inl error => ([], inl (wrap error))
  | inr DeclNotArray =>
      ([], inl (wrap (new_Error "Server did not return valid function declarations.")))
  | inr (DeclArray decls) =>
      let '(out, discoveredTools) :=
        fold_left (discoverTools_iter mcpServerName mcpServerConfig) decls ([], []) in
      if (length discoveredTools =? 0)%nat
      then (out, inl (wrap (new_Error "No enabled tools found")))
      else (out, inr discoveredTools)
  end.

(** [discoverTools(mcpServerName, mcpServerConfig, mcpClient)] once the
    client's [tools/list] request has settled with [listResult]. *)
Definition discoverTools (mcpServerName : string)
    (mcpServerConfig : MCPServerConfig) (listResult : JsError + ToolsField)
    : list ConsoleLine * (JsError + list DiscoveredMCPTool) :=
  discoverTools_of mcpServerName mcpServerConfig (mcpToTool_tool listResult).

(** ** Transports (lines 330-380) *)

Record URL := { href : string }.

Record RequestInit := { ri_headers : gmap string string }.

Record TransportOptions := { requestInit : option RequestInit }.

Record StdioServerParameters := {
  sp_command : string;
  sp_args : list string;
  sp_env : gmap string string;
  sp_cwd : option string;
}.

Inductive Transport :=
| StreamableHTTPClientTransport (u : URL) (opts : TransportOptions)
| SSEClientTransport (u : URL) (opts : TransportOptions)
| StdioClientTransport (params : StdioServerParameters).

Inductive TransportKind := StreamableHTTP | SSE | Stdio.

Definition transport_kind (t : Transport) : TransportKind :=
  match t with
  | StreamableHTTPClientTransport _ _ => StreamableHTTP
  | SSEClientTransport _ _ => SSE
  | StdioClientTransport _ => Stdio
  end.

Definition missing_selector_error : JsError :=
  new_Error "Invalid configuration: missing httpUrl (for Streamable HTTP), url (for SSE), and command (for stdio).".

(** ** The ad-hoc command (lines 146-163) *)

(** An entry of the array shell-quote's [parse] returns: a string, or an
    object for an operator, a glob or a comment. *)
Inductive ParseEntry :=
| PString (s : string)
| POp (op : string)
| PGlob (pattern : string)
| PComment (text : string).

Definition is_string (a : ParseEntry) : bool :=
  match a with
  | PString _ => true
  | _ => false
  end.

Definition entry_strings (l : list ParseEntry) : list string :=
  omap (λ a, match a with PString s => Some s | _ => None end) l.

(** A small tokenizer to run the model on concrete commands: it cuts at
    blanks and reports a lone [|] as an operator.  It stands in for
    shell-quote in examples only. *)
Fixpoint blank_split (cur : string) (s : string) : list string :=
  match s with
  | EmptyString => if String.eqb cur "" then [] else [cur]
  | String c s' =>
      if Ascii.eqb c " "%char
      then app (if String.eqb cur "" then [] else [cur]) (blank_split "" s')
      else blank_split (cur +:+ String c EmptyString) s'
  end.

Definition example_parse (cmd : string) (_ : gmap string string)
    : list ParseEntry :=
  map (λ w, if String.eqb w "|" then POp "|" else PString w) (blank_split "" cmd).

(** A URL constructor for examples: accepts what starts with [http]. *)
Definition example_URL (s : string) : option URL :=
  if startsWith s "http" then Some {| href := s |} else None.

Definition example_env : gmap string string :=
  {[ "PATH" := "/usr/bin"; "HOME" := "/root" ]}.

Section Platform.

(** What the client takes from its platform: shell-quote's [parse], the
    WHATWG [URL] constructor ([None] when it throws), and [process.env]. *)
Variable parse : string → gmap string string → list ParseEntry.
Variable new_URL : string → option URL.
Variable process_env : gmap string string.

Definition populateMcpServerCommand (mcpServers : Servers)
    (mcpServerCommand : option string) : JsError + Servers :=
  if truthy mcpServerCommand then
    let cmd := default "" mcpServerCommand in
    let parsed := parse cmd process_env in
    if Array_some (λ arg, negb (is_string arg)) parsed
    then inl (new_Error ("failed to parse mcpServerCommand: " +:+ cmd))
    else
      let strs := entry_strings parsed in
      inr (obj_set "mcp"
             {| command := head strs;
                args := Some (tail strs);
                env := None; cwd := None; url := None; httpUrl := None;
                headers := None; timeout := None;
                includeTools := None; excludeTools := None |}
             mcpServers)
  else inr mcpServers.

(** The [transportOptions] object both HTTP branches build. *)
Definition transportOptions_of (mcpServerConfig : MCPServerConfig)
    : TransportOptions :=
  {| requestInit :=
       match headers mcpServerConfig with
       | Some h => Some {| ri_headers := h |}
       | None => None
       end |}.

Definition invalid_URL_error : JsError := new_TypeError "Invalid URL".

(** [createTransport]: an [async] function without [await]; its promise is
    settled with the value returned here.  Object spread lets the later
    source win, so the descriptor's [env] is the left operand of the
    left-biased union. *)
Definition createTransport (mcpServerName : string)
    (mcpServerConfig : MCPServerConfig) : JsError + Transport :=
  if truthy (httpUrl mcpServerConfig) then
    match new_URL (default "" (httpUrl mcpServerConfig)) with
    | Some u => inr (StreamableHTTPClientTransport u (transportOptions_of mcpServerConfig))
    | None => inl invalid_URL_error
    end
  else if truthy (url mcpServerConfig) then
    match new_URL (default "" (url mcpServerConfig)) with
    | Some u => inr (SSEClientTransport u (transportOptions_of mcpServerConfig))
    | None => inl invalid_URL_error
    end
  else if truthy (command mcpServerConfig) then
    inr (StdioClientTransport
           {| sp_command := default "" (command mcpServerConfig);
              sp_args := default [] (args mcpServerConfig);
              sp_env := default ∅ (env mcpServerConfig) ∪ process_env;
              sp_cwd := cwd mcpServerConfig |})
  else inl missing_selector_error.

End Platform.

(** ** Module state, registry and trace (lines 46-110) *)

(** A listener is a function reference; [indexOf] compares references. *)
Definition Listener := nat.

Record RequestOptions := {
  opt_timeout : option Z;
  opt_rest : gmap string string;
}.

Record Request := {
  req_method : string;
  req_name : option string;
  req_arguments : option string;
}.

Inductive Event :=
| EvDiscoveryState (s : MCPDiscoveryState)
| EvStatus (serverName : string) (status : MCPServerStatus)
| EvNotify (listener : Listener) (serverName : string) (status : MCPServerStatus)
| EvConsole (line : ConsoleLine)
| EvConnect (serverName : string) (transport : Transport) (timeout_ms : Z)
| EvTransportClose (serverName : string)
| EvRequest (serverName : string) (request : Request) (options : option RequestOptions)
| EvCallTool (serverName : string) (request : Request) (options : option RequestOptions)
| EvClientClose (serverName : string)
| EvRegister (tool : DiscoveredMCPTool).

(** [mcpServerStatusesInternal], [mcpDiscoveryState] and
    [statusChangeListeners] of the module; the [tools] map of the registry
    handed to [discoverMcpTools]; the servers whose client has an [onerror]
    handler installed; the trace. *)
Record World := {
  mcpServerStatusesInternal : gmap string MCPServerStatus;
  mcpDiscoveryState : MCPDiscoveryState;
  statusChangeListeners : list Listener;
  toolRegistry_tools : gmap string DiscoveredMCPTool;
  onerror_installed : gset string;
  trace : list Event;
}.

Definition initial_world : World :=
  {| mcpServerStatusesInternal := ∅;
     mcpDiscoveryState := NOT_STARTED;
     statusChangeListeners := [];
     toolRegistry_tools := ∅;
     onerror_installed := ∅;
     trace := [] |}.

Definition emit (e : Event) (w : World) : World :=
  {| mcpServerStatusesInternal := mcpServerStatusesInternal w;
     mcpDiscoveryState := mcpDiscoveryState w;
     statusChangeListeners := statusChangeListeners w;
     toolRegistry_tools := toolRegistry_tools w;
     onerror_installed := onerror_installed w;
     trace := app (trace w) [e] |}.

Definition addMCPStatusChangeListener (listener : Listener) (w : World) : World :=
  {| mcpServerStatusesInternal := mcpServerStatusesInternal w;
     mcpDiscoveryState := mcpDiscoveryState w;
     statusChangeListeners := app (statusChangeListeners w) [listener];
     toolRegistry_tools := toolRegistry_tools w;
     onerror_installed := onerror_installed w;
     trace := trace w |}.

(** [indexOf] then [splice(index, 1)]: the first occurrence goes. *)
Fixpoint remove_first (listener : Listener) (l : list Listener) : list Listener :=
  match l with
  | [] => []
  | x :: l' => if Nat.eqb x listener then l' else x :: remove_first listener l'
  end.

Definition removeMCPStatusChangeListener (listener : Listener) (w : World) : World :=
  {| mcpServerStatusesInternal := mcpServerStatusesInternal w;
     mcpDiscoveryState := mcpDiscoveryState w;
     statusChangeListeners := remove_first listener (statusChangeListeners w);
     toolRegistry_tools := toolRegistry_tools w;
     onerror_installed := onerror_installed w;
     trace := trace w |}.

(** [updateMCPServerStatus]: the [Map.set], then the [for ... of] loop over
    the listeners, for listeners that only observe: calling one is the
    event [EvNotify]; it returns normally and leaves the listener array
    alone.  [Live.updateMCPServerStatus] below is the function for
    listeners that unsubscribe or throw while they are called; for
    listeners that do neither the two agree ([update_quiet],
    [quiet_run]). *)
Definition updateMCPServerStatus (serverName : string) (status : MCPServerStatus)
    (w : World) : World :=
  let w1 :=
    emit (EvStatus serverName status)
      {| mcpServerStatusesInternal := <[serverName := status]> (mcpServerStatusesInternal w);
         mcpDiscoveryState := mcpDiscoveryState w;
         statusChangeListeners := statusChangeListeners w;
         toolRegistry_tools := toolRegistry_tools w;
         onerror_installed := onerror_installed w;
         trace := trace w |} in
  fold_left (λ w' listener, emit (EvNotify listener serverName status) w')
            (statusChangeListeners w1) w1.

Definition getMCPServerStatus (serverName : string) (w : World) : MCPServerStatus :=
  default DISCONNECTED (mcpServerStatusesInternal w !! serverName).

Definition getAllMCPServerStatuses (w : World) : gmap string MCPServerStatus :=
  mcpServerStatusesInternal w.

Definition getMCPDiscoveryState (w : World) : MCPDiscoveryState :=
  mcpDiscoveryState w.

(** The assignment [mcpDiscoveryState = s]. *)
Definition set_mcpDiscoveryState (s : MCPDiscoveryState) (w : World) : World :=
  emit (EvDiscoveryState s)
    {| mcpServerStatusesInternal := mcpServerStatusesInternal w;
       mcpDiscoveryState := s;
       statusChangeListeners := statusChangeListeners w;
       toolRegistry_tools := toolRegistry_tools w;
       onerror_installed := onerror_installed w;
       trace := trace w |}.

(** [toolRegistry.registerTool(tool)] of the registry the client builds
    (mcp-integration.js, lines 66-74; client.js, lines 78-84):
    [baseRegistry.register(tool)], that is [this.tools.set(tool.name, tool)].
    Its [console.log] line is not part of the trace. *)
Definition registerTool (tool : DiscoveredMCPTool) (w : World) : World :=
  emit (EvRegister tool)
    {| mcpServerStatusesInternal := mcpServerStatusesInternal w;
       mcpDiscoveryState := mcpDiscoveryState w;
       statusChangeListeners := statusChangeListeners w;
       toolRegistry_tools := <[tool_name tool := tool]> (toolRegistry_tools w);
       onerror_installed := onerror_installed w;
       trace := trace w |}.

(** [mcpClient.onerror = ...] for the client of [serverName]. *)
Definition install_onerror (serverName : string) (w : World) : World :=
  {| mcpServerStatusesInternal := mcpServerStatusesInternal w;
     mcpDiscoveryState := mcpDiscoveryState w;
     statusChangeListeners := statusChangeListeners w;
     toolRegistry_tools := toolRegistry_tools w;
     onerror_installed := {[serverName]} ∪ onerror_installed w;
     trace := trace w |}.

(** Operations of the registry's interface, to run sequences of them. *)
Inductive RegistryOp :=
| OpSubscribe (listener : Listener)
| OpUnsubscribe (listener : Listener)
| OpSet (serverName : string) (status : MCPServerStatus).

Definition apply_op (w : World) (op : RegistryOp) : World :=
  match op with
  | OpSubscribe l => addMCPStatusChangeListener l w
  | OpUnsubscribe l => removeMCPStatusChangeListener l w
  | OpSet n s => updateMCPServerStatus n s w
  end.

Definition apply_ops (ops : list RegistryOp) (w : World) : World :=
  fold_left apply_op ops w.

(** The notifications delivered to one listener, in trace order. *)
Definition delivered (listener : Listener) (tr : list Event)
    : list (string * MCPServerStatus) :=
  omap (λ e, match e with
             | EvNotify l n s => if Nat.eqb l listener then Some (n, s) else None
             | _ => None
             end) tr.

(** The status most recently published for a server in a trace. *)
Definition last_status (serverName : string) (tr : list Event)
    : option MCPServerStatus :=
  fold_left (λ acc e, match e with
                      | EvStatus n s => if String.eqb n serverName then Some s else acc
                      | _ => acc
                      end) tr None.

(** ** A state-and-exception monad for the bodies of the async functions *)

Definition M (A : Type) : Type := World → World * (JsError + A).

Definition ret {A} (a : A) : M A := λ w, (w, inr a).

Definition bind {A B} (m : M A) (k : A → M B) : M B :=
  λ w, match m w with
       | (w', inl e) => (w', inl e)
       | (w', inr a) => k a w'
       end.

Definition throw {A} (e : JsError) : M A := λ w, (w, inl e).

(** [try { m } catch (error) { handler error }]. *)
Definition try_catch {A} (m : M A) (handler : JsError → M A) : M A :=
  λ w, match m w with
       | (w', inl e) => handler e w'
       | (w', inr a) => (w', inr a)
       end.

(** A statement that cannot throw. *)
Definition act (f : World → World) : M unit := λ w, (f w, inr tt).

(** Settle with an already known outcome. *)
Definition settled {A} (r : JsError + A) : M A := λ w, (w, r).

Declare Scope js_scope.
Delimit Scope js_scope with js.
Notation "'do' x <- m ; k" := (bind m (λ x, k))
  (at level 10, x name, m at level 100, k at level 200) : js_scope.
Notation "'exec' m ; k" := (bind m (λ _, k))
  (at level 10, m at level 100, k at level 200) : js_scope.

Fixpoint for_of {A} (l : list A) (body : A → M unit) : M unit :=
  match l with
  | [] => ret tt
  | x :: l' => bind (body x) (λ _, for_of l' body)
  end.

(** ** The patched [callTool] and the proxy tool's [execute]
    (lines 284-294, 429-441, 464-471) *)

(** [{ ...options, timeout: t }]. *)
Definition spread_timeout (options : option RequestOptions) (t : Z)
    : RequestOptions :=
  {| opt_timeout := Some t;
     opt_rest := match options with Some o => opt_rest o | None => ∅ end |}.

(** [mcpClient.callTool] after the patch of [connectToMcpServer]: the
    runtime's original [callTool] is entered with the options built here
    ([EvCallTool]). *)
Definition callTool (mcpServerConfig : MCPServerConfig) (mcpServerName : string)
    (params : Request) (options : option RequestOptions) : World → World :=
  emit (EvCallTool mcpServerName params
          (Some (spread_timeout options
                   (default MCP_DEFAULT_TIMEOUT_MSEC (timeout mcpServerConfig))))).

(** [mcpToTool(mcpClient).execute(toolName, args)]: a single-argument
    [mcpClient.request(...)]; [result] is how the awaited request settles. *)
Definition mcpToTool_execute (mcpServerName toolName arguments : string)
    (result : JsError + string) : M string :=
  (exec act (emit (EvRequest mcpServerName
                     {| req_method := "tools/call";
                        req_name := Some toolName;
                        req_arguments := Some arguments |}
                     None));
   settled result)%js.

(** [DiscoveredMCPTool.prototype.execute(params)]. *)
Definition DiscoveredMCPTool_execute (tool : DiscoveredMCPTool) (params : string)
    (result : JsError + string) : M string :=
  try_catch
    (mcpToTool_execute (tool_mcpCallableTool tool) (tool_name tool) params result)
    (λ error, throw (new_Error ("MCP tool execution failed: " +:+ message error))).

(** The timeout the protocol runtime applies to a request: the one in its
    options, else the runtime's own default. *)
Definition request_timeout (runtime_default : Z) (options : option RequestOptions) : Z :=
  default runtime_default (options ≫= opt_timeout).

(** The options of the last tool call that reached the runtime. *)
Definition last_call_options (tr : list Event) : option (option RequestOptions) :=
  fold_left (λ acc e, match e with
                      | EvCallTool _ _ o => Some o
                      | EvRequest _ r o =>
                          if String.eqb (req_method r) "tools/call" then Some o else acc
                      | _ => acc
                      end) tr None.

(** ** Pipelines: [connectAndDiscover] cut at its awaits (lines 175-213,
    275-327) *)

(** Where a pipeline is suspended: at [await createTransport(...)] (line
    297, the promise already settled with [r]), at [await
    mcpClient.connect(...)] (line 302), at [await transport.close()] (line
    307, holding the connect error), or at the [tools/list] request (line
    416, reached through lines 195 and 233). *)
Inductive Suspended :=
| AwaitTransport (r : JsError + Transport)
| AwaitConnect (transport : Transport)
| AwaitTransportClose (error : JsError)
| AwaitList.

Inductive Control :=
| Suspend (point : Suspended)
| Return.

Inductive PromiseState :=
| Pending (point : Suspended)
| Fulfilled
| Rejected (e : JsError).

Definition settle_of (r : JsError + Control) : PromiseState :=
  match r with
  | inl e => Rejected e
  | inr (Suspend s) => Pending s
  | inr Return => Fulfilled
  end.

(** How the outside world answers one server: the handshake, the closing
    of its transport after a failed handshake, and the [tools/list]
    request.  A step that times out settles with an error. *)
Record ServerBehaviour := {
  connect_result : JsError + unit;
  transport_close_result : JsError + unit;
  list_result : JsError + ToolsField;
}.

Record Pipeline := {
  p_name : string;
  p_config : MCPServerConfig;
  p_state : PromiseState;
}.

Inductive CallState :=
| CallPending
| CallResolved
| CallRejected (e : JsError).

(** The run of one [discoverMcpTools] call: the world, the array
    [discoveryPromises], and the promise of the call itself. *)
Record System := {
  world : World;
  discoveryPromises : list Pipeline;
  call : CallState;
}.

(** What the scheduler may do next: resume the pipeline at an index of
    [discoveryPromises], deliver an asynchronous fault to a client's
    [onerror] handler, or run the continuation of [await Promise.all]. *)
Inductive Label :=
| Resume (i : nat)
| Fault (serverName : string) (error : JsError)
| Settle.

Definition is_fault (l : Label) : bool :=
  match l with
  | Fault _ _ => true
  | _ => false
  end.

(** Resumptions a pipeline still has before it settles, at most. *)
Definition remaining (p : Pipeline) : nat :=
  match p_state p with
  | Pending (AwaitTransport _) => 3
  | Pending (AwaitConnect _) => 2
  | Pending (AwaitTransportClose _) => 1
  | Pending AwaitList => 1
  | Fulfilled | Rejected _ => 0
  end.

Definition work (sys : System) : nat :=
  (match call sys with CallPending => 1 | _ => 0 end
   + sum_list_with remaining (discoveryPromises sys))%nat.

Definition is_pending (p : Pipeline) : bool :=
  match p_state p with
  | Pending _ => true
  | _ => false
  end.

Definition is_fulfilled (p : Pipeline) : bool :=
  match p_state p with
  | Fulfilled => true
  | _ => false
  end.

Definition rejection (p : Pipeline) : option JsError :=
  match p_state p with
  | Rejected e => Some e
  | _ => None
  end.

Section Orchestrator.

Variable parse : string → gmap string string → list ParseEntry.
Variable new_URL : string → option URL.
Variable process_env : gmap string string.
Variable behaviour : string → ServerBehaviour.

(** The [catch] of [connectToMcpServer] (lines 310-326). *)
Definition connection_error (mcpServerName : string) (error : JsError) : JsError :=
  let errorMessage := message_or_string error in
  let isNetworkError :=
    String_includes errorMessage "ENOTFOUND"
    || String_includes errorMessage "ECONNREFUSED" in
  new_Error
    (if isNetworkError
     then "Cannot connect to '" +:+ mcpServerName
          +:+ "' - server may be down or URL incorrect"
     else "Connection failed for '" +:+ mcpServerName +:+ "': " +:+ errorMessage).

Definition try_connectToMcpServer {A} (mcpServerName : string) (body : M A) : M A :=
  try_catch body (λ error, throw (connection_error mcpServerName error)).

(** The inner [catch] of [connectAndDiscover] (lines 203-206). *)
Definition try_discover {A} (mcpServerName : string) (body : M A) : M A :=
  try_catch body
    (λ error, exec act (emit (EvClientClose mcpServerName)); throw error)%js.

(** The outer [catch] of [connectAndDiscover] (lines 207-212). *)
Definition try_connectAndDiscover (mcpServerName : string) (body : M Control)
    : M Control :=
  try_catch body
    (λ error,
       exec act (emit (EvConsole (ConsoleError
                   ("Error connecting to MCP server '" +:+ mcpServerName
                    +:+ "': " +:+ message_or_string error))));
       exec act (updateMCPServerStatus mcpServerName DISCONNECTED);
       ret Return)%js.

(** The handler assigned to [mcpClient.onerror] (lines 190-193). *)
Definition onerror_handler (mcpServerName : string) (error : JsError)
    (w : World) : World :=
  updateMCPServerStatus mcpServerName DISCONNECTED
    (emit (EvConsole (ConsoleError
             ("MCP ERROR (" +:+ mcpServerName +:+ "): " +:+ Error_toString error))) w).

Definition discoverTools_m (mcpServerName : string)
    (mcpServerConfig : MCPServerConfig) (listResult : JsError + ToolsField)
    : M (list DiscoveredMCPTool) :=
  (exec for_of (discoverTools mcpServerName mcpServerConfig listResult).1
          (λ line, act (emit (EvConsole line)));
   settled (discoverTools mcpServerName mcpServerConfig listResult).2)%js.

(** From the call of [connectAndDiscover] to its first await. *)
Definition connectAndDiscover_start (mcpServerName : string)
    (mcpServerConfig : MCPServerConfig) : M Control :=
  (exec act (updateMCPServerStatus mcpServerName CONNECTING);
   try_connectAndDiscover mcpServerName
     (try_connectToMcpServer mcpServerName
        (ret (Suspend (AwaitTransport
                (createTransport new_URL process_env mcpServerName mcpServerConfig))))))%js.

(** From one await to the next, or to the end. *)
Definition resume_segment (mcpServerName : string)
    (mcpServerConfig : MCPServerConfig) (point : Suspended) : M Control :=
  match point with
  | AwaitTransport r =>
      try_connectAndDiscover mcpServerName
        (try_connectToMcpServer mcpServerName
           (do transport <- settled r;
            exec act (emit (EvConnect mcpServerName transport
                         (default MCP_DEFAULT_TIMEOUT_MSEC (timeout mcpServerConfig))));
            ret (Suspend (AwaitConnect transport))))%js
  | AwaitConnect transport =>
      try_connectAndDiscover mcpServerName
        match connect_result (behaviour mcpServerName) with
        | inl error =>
            try_connectToMcpServer mcpServerName
              (exec act (emit (EvTransportClose mcpServerName));
               ret (Suspend (AwaitTransportClose error)))%js
        | inr _ =>
            try_discover mcpServerName
              (exec act (updateMCPServerStatus mcpServerName CONNECTED);
               exec act (install_onerror mcpServerName);
               exec act (emit (EvRequest mcpServerName
                            {| req_method := "tools/list";
                               req_name := None; req_arguments := None |}
                            None));
               ret (Suspend AwaitList))%js
        end
  | AwaitTransportClose error =>
      try_connectAndDiscover mcpServerName
        (try_connectToMcpServer mcpServerName
           (exec settled (transport_close_result (behaviour mcpServerName));
            throw error))%js
  | AwaitList =>
      try_connectAndDiscover mcpServerName
        (try_discover mcpServerName
           (do tools <- discoverTools_m mcpServerName mcpServerConfig
                          (list_result (behaviour mcpServerName));
            exec for_of tools (λ tool, act (registerTool tool));
            ret Return))%js
  end.

Definition connectAndDiscover (mcpServerName : string)
    (mcpServerConfig : MCPServerConfig) (w : World) : World * Pipeline :=
  let r := connectAndDiscover_start mcpServerName mcpServerConfig w in
  (r.1, {| p_name := mcpServerName; p_config := mcpServerConfig;
           p_state := settle_of r.2 |}).

(** [Object.entries(mcpServers).map(([name, config]) =>
    connectAndDiscover(name, config, toolRegistry))]. *)
Fixpoint launch (entries : Servers) (w : World) : World * list Pipeline :=
  match entries with
  | [] => (w, [])
  | (mcpServerName, mcpServerConfig) :: rest =>
      let r := connectAndDiscover mcpServerName mcpServerConfig w in
      let rs := launch rest r.1 in
      (rs.1, r.2 :: rs.2)
  end.

(** [discoverMcpTools] up to [await Promise.all(discoveryPromises)]; when
    [populateMcpServerCommand] throws, the [finally] block runs and the
    call is rejected at once. *)
Definition discoverMcpTools (mcpServers : Servers)
    (mcpServerCommand : option string) (w : World) : System :=
  let w1 := set_mcpDiscoveryState IN_PROGRESS w in
  match populateMcpServerCommand parse process_env mcpServers mcpServerCommand with
  | inl e =>
      {| world := set_mcpDiscoveryState COMPLETED w1;
         discoveryPromises := [];
         call := CallRejected e |}
  | inr mcpServers' =>
      let r := launch mcpServers' w1 in
      {| world := r.1; discoveryPromises := r.2; call := CallPending |}
  end.

(** [Promise.all]: rejected as soon as one promise is, fulfilled when all
    are. *)
Definition promise_all (ps : list Pipeline) : option (JsError + unit) :=
  match omap rejection ps with
  | e :: _ => Some (inl e)
  | [] => if forallb is_fulfilled ps then Some (inr tt) else None
  end.

Definition step (l : Label) (sys : System) : option System :=
  match l with
  | Resume i =>
      match discoveryPromises sys !! i with
      | Some p =>
          match p_state p with
          | Pending point =>
              let r := resume_segment (p_name p) (p_config p) point (world sys) in
              Some {| world := r.1;
                      discoveryPromises :=
                        <[i := {| p_name := p_name p; p_config := p_config p;
                                  p_state := settle_of r.2 |}]> (discoveryPromises sys);
                      call := call sys |}
          | _ => None
          end
      | None => None
      end
  | Fault serverName error =>
      if decide (serverName ∈ onerror_installed (world sys)) then
        Some {| world := onerror_handler serverName error (world sys);
                discoveryPromises := discoveryPromises sys;
                call := call sys |}
      else None
  | Settle =>
      match call sys, promise_all (discoveryPromises sys) with
      | CallPending, Some r =>
          Some {| world := set_mcpDiscoveryState COMPLETED (world sys);
                  discoveryPromises := discoveryPromises sys;
                  call := match r with
                          | inl e => CallRejected e
                          | inr _ => CallResolved
                          end |}
      | _, _ => None
      end
  end.

Fixpoint run (ls : list Label) (sys : System) : option System :=
  match ls with
  | [] => Some sys
  | l :: ls' =>
      match step l sys with
      | Some sys' => run ls' sys'
      | None => None
      end
  end.

(** What one server is expected to contribute, read off its descriptor and
    the answers of the outside world: the error its pipeline ends with, or
    the tools it hands to the registry. *)
Definition expected (mcpServerName : string) (mcpServerConfig : MCPServerConfig)
    : JsError + list DiscoveredMCPTool :=
  match createTransport new_URL process_env mcpServerName mcpServerConfig with
  | inl e => inl (connection_error mcpServerName e)
  | inr _ =>
      match connect_result (behaviour mcpServerName) with
      | inl e =>
          inl (connection_error mcpServerName
                 match transport_close_result (behaviour mcpServerName) with
                 | inl e' => e'
                 | inr _ => e
                 end)
      | inr _ =>
          (discoverTools mcpServerName mcpServerConfig
             (list_result (behaviour mcpServerName))).2
      end
  end.

End Orchestrator.

(** Events that reach out to a server. *)
Definition reaches_server (e : Event) : bool :=
  match e with
  | EvConnect _ _ _ | EvRequest _ _ _ | EvCallTool _ _ _ => true
  | _ => false
  end.

(** ** Worlds the segments end in *)

(** The world after the outer [catch] of [connectAndDiscover] has run on
    [error]. *)
Definition caught (mcpServerName : string) (error : JsError) (w : World) : World :=
  updateMCPServerStatus mcpServerName DISCONNECTED
    (emit (EvConsole (ConsoleError
             ("Error connecting to MCP server '" +:+ mcpServerName
              +:+ "': " +:+ message_or_string error))) w).

(** The world after the console lines of a discovery have been written. *)
Definition log_lines (out : list ConsoleLine) (w : World) : World :=
  fold_left (λ w' line, emit (EvConsole line) w') out w.

(** The world after the [for (const tool of tools)] loop. *)
Definition register_all (tools : list DiscoveredMCPTool) (w : World) : World :=
  fold_left (λ w' tool, registerTool tool w') tools w.

(** Labels that are not faults. *)
Definition progress_steps (ls : list Label) : nat :=
  length (List.filter (λ l, negb (is_fault l)) ls).

(** ** What holds of a run *)

Section Invariants.

Variable new_URL : string → option URL.
Variable process_env : gmap string string.
Variable behaviour : string → ServerBehaviour.

(** A step of the run taken for one server, or for none: the trace grows,
    statuses are published under that server's name only, the other
    servers' statuses stay, and the registry loses no name. *)
Definition extends (who : option string) (w w' : World) : Prop :=
  (∃ evs, trace w' = app (trace w) evs
          ∧ Forall (λ e, ∀ m s, e = EvStatus m s → Some m = who) evs)
  ∧ (∀ m, Some m ≠ who →
       mcpServerStatusesInternal w' !! m = mcpServerStatusesInternal w !! m)
  ∧ (∀ k, is_Some (toolRegistry_tools w !! k) → is_Some (toolRegistry_tools w' !! k)).

(** The pipeline of a server ended in its [catch]: the status published
    last is ['disconnected'], the error was logged, and when the failure
    came after a successful connect the client was closed before that
    status. *)
Definition failure_settled (mcpServerName : string)
    (mcpServerConfig : MCPServerConfig) (w : World) : Prop :=
  mcpServerStatusesInternal w !! mcpServerName = Some DISCONNECTED
  ∧ last_status mcpServerName (trace w) = Some DISCONNECTED
  ∧ (∃ detail,
       EvConsole (ConsoleError ("Error connecting to MCP server '" +:+ mcpServerName
                                +:+ "': " +:+ detail)) ∈ trace w)
  ∧ ((∃ t, createTransport new_URL process_env mcpServerName mcpServerConfig = inr t) →
     (∃ u, connect_result (behaviour mcpServerName) = inr u) →
     ∃ pre post,
       trace w = app pre (EvClientClose mcpServerName :: post)
       ∧ last_status mcpServerName post = Some DISCONNECTED).

(** Every tool of the list went through [registerTool] and its name is in
    the registry. *)
Definition registered (tools : list DiscoveredMCPTool) (w : World) : Prop :=
  ∀ t, t ∈ tools →
       EvRegister t ∈ trace w ∧ is_Some (toolRegistry_tools w !! tool_name t).

Definition pipeline_ok (w : World) (p : Pipeline) : Prop :=
  match p_state p with
  | Rejected _ => False
  | Pending (AwaitTransport r) =>
      r = createTransport new_URL process_env (p_name p) (p_config p)
  | Pending (AwaitConnect t) =>
      createTransport new_URL process_env (p_name p) (p_config p) = inr t
  | Pending (AwaitTransportClose e) =>
      (∃ t, createTransport new_URL process_env (p_name p) (p_config p) = inr t)
      ∧ connect_result (behaviour (p_name p)) = inl e
  | Pending AwaitList =>
      (∃ t, createTransport new_URL process_env (p_name p) (p_config p) = inr t)
      ∧ ∃ u, connect_result (behaviour (p_name p)) = inr u
  | Fulfilled =>
      match expected new_URL process_env behaviour (p_name p) (p_config p) with
      | inl _ => failure_settled (p_name p) (p_config p) w
      | inr tools => registered tools w
      end
  end.

Definition system_ok (entries : Servers) (sys : System) : Prop :=
  map (λ p, (p_name p, p_config p)) (discoveryPromises sys) = entries
  ∧ Forall (pipeline_ok (world sys)) (discoveryPromises sys)
  ∧ match call sys with
    | CallPending => True
    | CallResolved =>
        mcpDiscoveryState (world sys) = COMPLETED
        ∧ Forall (λ p, p_state p = Fulfilled) (discoveryPromises sys)
    | CallRejected _ => False
    end.

End Invariants.

(** ** Sample data *)

Definition no_config : MCPServerConfig :=
  {| command := None; args := None; env := None; cwd := None; url := None;
     httpUrl := None; headers := None; timeout := None;
     includeTools := None; excludeTools := None |}.

Definition files_config : MCPServerConfig :=
  {| command := Some "node"; args := Some ["files.js"];
     env := Some {[ "HOME" := "/srv/files" ]}; cwd := None; url := None;
     httpUrl := None; headers := None; timeout := Some 5000;
     includeTools := Some ["read"; "write(tmp)"];
     excludeTools := Some ["write"] |}.

Definition search_config : MCPServerConfig :=
  {| command := Some "search-server"; args := None; env := None; cwd := None;
     url := Some "http://localhost:8080/sse"; httpUrl := Some "";
     headers := None; timeout := None;
     includeTools := None; excludeTools := None |}.

Definition wire (n : option string) : WireTool :=
  {| wt_name := n; wt_description := None; wt_inputSchema := None |}.

Definition files_tools : list WireTool :=
  [wire (Some "read"); wire None; wire (Some "write"); wire (Some "stat")].

Definition alpha_config : MCPServerConfig :=
  {| command := Some "alpha-server"; args := None; env := None; cwd := None;
     url := None; httpUrl := None; headers := None; timeout := Some 2000;
     includeTools := None; excludeTools := None |}.

Definition empty_config : MCPServerConfig :=
  {| command := None; args := None; env := None; cwd := None;
     url := None; httpUrl := Some "https://tools.example/mcp";
     headers := Some {[ "Authorization" := "Bearer t" ]}; timeout := None;
     includeTools := None; excludeTools := None |}.

Definition example_servers : Servers :=
  [("alpha", alpha_config); ("files", files_config);
   ("search", search_config); ("empty", empty_config)].

(** [alpha] never answers the handshake and the connect times out; [files]
    and [search] answer normally; [empty] connects and lists no tool. *)
Definition example_behaviour (mcpServerName : string) : ServerBehaviour :=
  if String.eqb mcpServerName "alpha" then
    {| connect_result := inl (new_Error "Request timed out");
       transport_close_result := inr tt;
       list_result := inl (new_Error "Not connected") |}
  else if String.eqb mcpServerName "files" then
    {| connect_result := inr tt; transport_close_result := inr tt;
       list_result := inr (ToolsArray files_tools) |}
  else if String.eqb mcpServerName "search" then
    {| connect_result := inr tt; transport_close_result := inr tt;
       list_result := inr (ToolsArray [wire (Some "query")]) |}
  else
    {| connect_result := inr tt; transport_close_result := inr tt;
       list_result := inr (ToolsArray []) |}.

Definition example_schedule : list Label :=
  [Resume 2; Resume 0; Resume 1; Resume 3; Resume 1; Resume 0; Resume 3;
   Resume 2; Resume 3; Fault "files" (new_Error "read ECONNRESET");
   Resume 0; Resume 2; Resume 1; Settle].


(** ** Further observations on traces and runs *)

(** How many times a listener is in the listener array. *)
Definition subscriptions (listener : Listener) (w : World) : nat :=
  length (List.filter (Nat.eqb listener) (statusChangeListeners w)).

(** The statuses published for one server, oldest first. *)
Definition statuses_of (serverName : string) (tr : list Event)
    : list MCPServerStatus :=
  omap (λ e, match e with
             | EvStatus n s => if String.eqb n serverName then Some s else None
             | _ => None
             end) tr.

(** Every status published in a trace, with its server, oldest first. *)
Definition publications (tr : list Event) : list (string * MCPServerStatus) :=
  omap (λ e, match e with EvStatus n s => Some (n, s) | _ => None end) tr.

(** The tools handed to [registerTool], oldest first. *)
Definition registrations (tr : list Event) : list DiscoveredMCPTool :=
  omap (λ e, match e with EvRegister t => Some t | _ => None end) tr.

(** The values assigned to [mcpDiscoveryState], oldest first. *)
Definition phases_of (tr : list Event) : list MCPDiscoveryState :=
  omap (λ e, match e with EvDiscoveryState s => Some s | _ => None end) tr.

(** [Map.set] for each tool of a list, in order. *)
Definition replay (tools : list DiscoveredMCPTool)
    (m : gmap string DiscoveredMCPTool) : gmap string DiscoveredMCPTool :=
  fold_left (λ m t, <[tool_name t := t]> m) tools m.

(** A world reached from [w0]: the trace has grown by some events, the
    status map is [w0]'s overwritten by the statuses published since, the
    registry is [w0]'s with the tools registered since set in order, and the
    listener array is the same. *)
Definition evolved (w0 w : World) : Prop :=
  ∃ evs,
    trace w = app (trace w0) evs
    ∧ (∀ n, mcpServerStatusesInternal w !! n =
            match last_status n evs with
            | Some s => Some s
            | None => mcpServerStatusesInternal w0 !! n
            end)
    ∧ toolRegistry_tools w = replay (registrations evs) (toolRegistry_tools w0)
    ∧ statusChangeListeners w = statusChangeListeners w0.

(** The status of the most recent [set] for a name in a sequence of
    registry operations. *)
Definition last_set (serverName : string) (ops : list RegistryOp)
    : option MCPServerStatus :=
  fold_left (λ acc op, match op with
                       | OpSet n s => if String.eqb n serverName then Some s else acc
                       | _ => acc
                       end) ops None.

(** How many faults the scheduler delivered to the client of a server. *)
Definition faults (serverName : string) (ls : list Label) : nat :=
  length (List.filter (λ l, match l with
                            | Fault n _ => String.eqb n serverName
                            | _ => false
                            end) ls).

(** The events of a trace that act on one server's transport, client or
    tools. *)
Definition io_of (serverName : string) (tr : list Event) : list Event :=
  List.filter (λ e, match e with
                    | EvConnect n _ _ | EvTransportClose n | EvRequest n _ _
                    | EvCallTool n _ _ | EvClientClose n => String.eqb n serverName
                    | EvRegister t => String.eqb (tool_serverName t) serverName
                    | _ => false
                    end) tr.

(** The shape the statuses of one server may take: nothing, or
    ['connecting'], then at most one ['connected'], then only
    ['disconnected']. *)
Definition lifecycle (l : list MCPServerStatus) : bool :=
  match l with
  | [] => true
  | CONNECTING :: CONNECTED :: rest
  | CONNECTING :: rest => forallb (λ s, bool_decide (s = DISCONNECTED)) rest
  | _ => false
  end.

(** What [updateMCPServerStatus] appends to the trace. *)
Definition published (serverName : string) (status : MCPServerStatus)
    (listeners : list Listener) : list Event :=
  EvStatus serverName status :: map (λ l, EvNotify l serverName status) listeners.

(** The console line of the outer [catch] of [connectAndDiscover]. *)
Definition failure_line (mcpServerName : string) (error : JsError) : Event :=
  EvConsole (ConsoleError ("Error connecting to MCP server '" +:+ mcpServerName
                           +:+ "': " +:+ message_or_string error)).

Definition connect_event (mcpServerName : string) (mcpServerConfig : MCPServerConfig)
    (transport : Transport) : Event :=
  EvConnect mcpServerName transport
    (default MCP_DEFAULT_TIMEOUT_MSEC (timeout mcpServerConfig)).

Definition list_request (mcpServerName : string) : Event :=
  EvRequest mcpServerName
    {| req_method := "tools/list"; req_name := None; req_arguments := None |} None.

(** The values of [mcpDiscoveryState] a call of [discoverMcpTools] that
    started when the trace was [tr0] has gone through. *)
Definition phased (tr0 : list Event) (sys : System) : Prop :=
  ∃ evs,
    trace (world sys) = app tr0 evs
    ∧ phases_of evs
      = IN_PROGRESS :: match call sys with CallPending => [] | _ => [COMPLETED] end
    ∧ mcpDiscoveryState (world sys)
      = match call sys with CallPending => IN_PROGRESS | _ => COMPLETED end.

Section Scripts.

Variable new_URL : string → option URL.
Variable process_env : gmap string string.
Variable behaviour : string → ServerBehaviour.

(** What one resumption of a pipeline appends to the trace. *)
Definition resume_delta (mcpServerName : string) (mcpServerConfig : MCPServerConfig)
    (point : Suspended) (listeners : list Listener) : list Event :=
  match point with
  | AwaitTransport (inl e) =>
      failure_line mcpServerName (connection_error mcpServerName e)
      :: published mcpServerName DISCONNECTED listeners
  | AwaitTransport (inr t) => [connect_event mcpServerName mcpServerConfig t]
  | AwaitConnect _ =>
      match connect_result (behaviour mcpServerName) with
      | inl _ => [EvTransportClose mcpServerName]
      | inr _ => app (published mcpServerName CONNECTED listeners)
                     [list_request mcpServerName]
      end
  | AwaitTransportClose e =>
      failure_line mcpServerName
        (connection_error mcpServerName
           match transport_close_result (behaviour mcpServerName) with
           | inl e' => e'
           | inr _ => e
           end)
      :: published mcpServerName DISCONNECTED listeners
  | AwaitList =>
      let d := discoverTools mcpServerName mcpServerConfig
                 (list_result (behaviour mcpServerName)) in
      app (map EvConsole d.1)
          match d.2 with
          | inl e => EvClientClose mcpServerName
                     :: failure_line mcpServerName e
                     :: published mcpServerName DISCONNECTED listeners
          | inr tools => map EvRegister tools
          end
  end.

(** Whether the handshake of a pipeline has succeeded. *)
Definition was_connected (mcpServerName : string) (mcpServerConfig : MCPServerConfig)
    (st : PromiseState) : bool :=
  match st with
  | Pending AwaitList => true
  | Fulfilled =>
      match createTransport new_URL process_env mcpServerName mcpServerConfig,
            connect_result (behaviour mcpServerName) with
      | inr _, inr _ => true
      | _, _ => false
      end
  | _ => false
  end.

(** The statuses a pipeline in state [st] has published for its server
    when [k] faults were delivered to its client. *)
Definition status_script (mcpServerName : string) (mcpServerConfig : MCPServerConfig)
    (st : PromiseState) (k : nat) : list MCPServerStatus :=
  match st with
  | Rejected _ => []
  | Pending AwaitList => CONNECTING :: CONNECTED :: replicate k DISCONNECTED
  | Pending _ => [CONNECTING]
  | Fulfilled =>
      if was_connected mcpServerName mcpServerConfig Fulfilled then
        CONNECTING :: CONNECTED
        :: replicate (k + match (discoverTools mcpServerName mcpServerConfig
                                   (list_result (behaviour mcpServerName))).2 with
                          | inl _ => 1
                          | inr _ => 0
                          end)%nat DISCONNECTED
      else [CONNECTING; DISCONNECTED]
  end.

(** The transport, client and registry events a pipeline in state [st] has
    caused. *)
Definition io_script (mcpServerName : string) (mcpServerConfig : MCPServerConfig)
    (st : PromiseState) : list Event :=
  match createTransport new_URL process_env mcpServerName mcpServerConfig with
  | inl _ => []
  | inr t =>
      let connect := connect_event mcpServerName mcpServerConfig t in
      match st with
      | Rejected _ | Pending (AwaitTransport _) => []
      | Pending (AwaitConnect _) => [connect]
      | Pending (AwaitTransportClose _) => [connect; EvTransportClose mcpServerName]
      | Pending AwaitList => [connect; list_request mcpServerName]
      | Fulfilled =>
          match connect_result (behaviour mcpServerName) with
          | inl _ => [connect; EvTransportClose mcpServerName]
          | inr _ =>
              connect :: list_request mcpServerName
              :: match (discoverTools mcpServerName mcpServerConfig
                          (list_result (behaviour mcpServerName))).2 with
                 | inl _ => [EvClientClose mcpServerName]
                 | inr tools => map EvRegister tools
                 end
          end
      end
  end.

(** What the events of a run say about each pipeline, each other name, and
    the discovery state, [ls] being the labels the run has taken. *)
Definition scripted (evs : list Event) (ls : list Label) (sys : System) : Prop :=
  (∀ i p, discoveryPromises sys !! i = Some p →
     statuses_of (p_name p) evs
     = status_script (p_name p) (p_config p) (p_state p) (faults (p_name p) ls)
     ∧ io_of (p_name p) evs = io_script (p_name p) (p_config p) (p_state p)
     ∧ (was_connected (p_name p) (p_config p) (p_state p) = false →
        faults (p_name p) ls = 0%nat
        ∧ p_name p ∉ onerror_installed (world sys))
     ∧ (p_state p = Fulfilled →
        ∀ e, expected new_URL process_env behaviour (p_name p) (p_config p) = inl e →
             failure_line (p_name p) e ∈ evs))
  ∧ (∀ n, n ∉ map p_name (discoveryPromises sys) →
       statuses_of n evs = [] ∧ io_of n evs = []
       ∧ n ∉ onerror_installed (world sys))
  ∧ phases_of evs
    = IN_PROGRESS :: match call sys with CallPending => [] | _ => [COMPLETED] end
  ∧ mcpDiscoveryState (world sys)
    = match call sys with CallPending => IN_PROGRESS | _ => COMPLETED end.

(** The same of a system whose call started when the trace was [tr0]. *)
Definition scripted_since (tr0 : list Event) (ls : list Label) (sys : System) : Prop :=
  ∃ evs, trace (world sys) = app tr0 evs ∧ scripted evs ls sys.

End Scripts.

(** ** Calling a tool through the registry (mcp-integration.js, lines
    82-99) *)

(** [executeTool(name, params)] of the registry the client builds:
    [baseRegistry.getTool(name)] is [this.tools.get(name)], and [result] is
    how the request sent by the tool's [execute] settles. *)
Definition executeTool (name params : string) (result : JsError + string)
    : M string :=
  λ w,
    match toolRegistry_tools w !! name with
    | None => throw (new_Error ("Tool not found: " +:+ name)) w
    | Some tool =>
        try_catch (DiscoveredMCPTool_execute tool params result)
          (λ error,
             if truthy (Some (tool_serverName tool)) then
               throw (new_Error ("MCP tool '" +:+ name +:+ "' from server '"
                                 +:+ tool_serverName tool +:+ "' failed: "
                                 +:+ message error))
             else throw error) w
    end.

(** ** Loading the server map (mcp-config.js) *)

(** What reading one configuration file gives: no file at the path; an
    error thrown by [readFileSync], by [JSON.parse] or on reading [servers]
    off the parsed value; or the [servers] field of the parsed file, absent
    when the field is missing or falsy. *)
Inductive ConfigFile :=
| FileMissing
| FileBroken (error : JsError)
| FileParsed (servers : option Servers).

(** The value of a decimal digit. *)
Definition digit_of (c : ascii) : option N :=
  let n := N_of_ascii c in
  if ((48 <=? n) && (n <=? 57))%N then Some (n - 48)%N else None.

Fixpoint digits_value (s : string) (acc : N) : option N :=
  match s with
  | EmptyString => Some acc
  | String c s' =>
      match digit_of c with
      | Some d => digits_value s' (10 * acc + d)%N
      | None => None
      end
  end.

(** An array index: the canonical decimal string of an integer below
    [2^32 - 1].  Own keys that are array indices come first, in ascending
    order, in the key order of an object. *)
Definition array_index (k : string) : option N :=
  match k with
  | EmptyString => None
  | String c rest =>
      if Ascii.eqb c "0"%char && negb (String.eqb rest "") then None
      else match digits_value k 0 with
           | Some n => if (n <? 4294967295)%N then Some n else None
           | None => None
           end
  end.

(** A new key that is the array index [n] goes before the first key that
    is no array index or a greater one. *)
Fixpoint obj_insert_index (n : N) (k : string) (v : MCPServerConfig) (o : Servers)
    : Servers :=
  match o with
  | [] => [(k, v)]
  | (k', v') :: o' =>
      match array_index k' with
      | Some n' =>
          if (n' <? n)%N then (k', v') :: obj_insert_index n k v o'
          else (k, v) :: o
      | None => (k, v) :: o
      end
  end.

(** [o[k] = v] on a plain object for any key but [__proto__]: an existing
    key keeps its place; a new array index goes among the array indices, a
    new key of another form goes last. *)
Definition obj_put (k : string) (v : MCPServerConfig) (o : Servers) : Servers :=
  match obj_get k o, array_index k with
  | None, Some n => obj_insert_index n k v o
  | _, _ => obj_set k v o
  end.

(** [Object.assign(target, source)] on server maps: an assignment for each
    entry of the source, in its order.  The assignment to [__proto__]
    reaches the setter of [Object.prototype], which makes the descriptor the
    prototype of the target and adds no entry. *)
Definition Object_assign (target source : Servers) : Servers :=
  fold_left (λ o kv, if String.eqb kv.1 "__proto__" then o else obj_put kv.1 kv.2 o)
            source target.


(** The order of the own keys of an object: the array indices from [lo] on,
    ascending, then the other keys. *)
Fixpoint key_order (lo : N) (ks : list string) : bool :=
  match ks with
  | [] => true
  | k :: ks' =>
      match array_index k with
      | Some n => (lo <=? n)%N && key_order n ks'
      | None => forallb (λ k', bool_decide (array_index k' = None)) ks'
      end
  end.


(** [loadFromHomeConfig] and [loadFromLocalConfig], which differ in the
    path only: the console output and the configurations afterwards. *)
Definition loadFromConfig (configPath : string) (file : ConfigFile)
    (configs : Servers) : list ConsoleLine * Servers :=
  match file with
  | FileMissing => ([], configs)
  | FileBroken error =>
      ([ConsoleWarn ("Failed to load MCP config from " +:+ configPath +:+ ": "
                     +:+ message error)], configs)
  | FileParsed None => ([], configs)
  | FileParsed (Some servers) => ([], Object_assign configs servers)
  end.

(** [loadMcpConfigurations]: [serverConfigs] is the object
    [loadFromEnvironment] has grouped out of [process.env] when it merges it
    into [configs]; the two files are what the file system holds at the two
    paths. *)
Definition loadMcpConfigurations (serverConfigs : Servers)
    (homePath localPath : string) (home local : ConfigFile)
    : list ConsoleLine * Servers :=
  let configs := Object_assign [] serverConfigs in
  let r2 := loadFromConfig homePath home configs in
  let r3 := loadFromConfig localPath local r2.2 in
  (app r2.1 r3.1, r3.2).

(** The servers a file contributes. *)
Definition servers_of (file : ConfigFile) : Servers :=
  match file with
  | FileParsed (Some servers) => servers
  | _ => []
  end.

(** ** Listeners that act (lines 64-87) *)

(** What a listener does when it is called: the listeners it unsubscribes
    through [removeMCPStatusChangeListener], in order, and the error it
    then throws, if any.  These are the two ways in which a listener can
    cut the loop of [updateMCPServerStatus] short.  A listener that
    subscribes further listeners, or that starts a discovery of its own,
    while it is called is not described. *)
Record Reaction := {
  removes : list Listener;
  thrown : option JsError;
}.

Definition returns_quietly : Reaction := {| removes := []; thrown := None |}.

Definition Conduct := Listener → string → MCPServerStatus → Reaction.

Definition is_notify (e : Event) : bool :=
  match e with
  | EvNotify _ _ _ => true
  | _ => false
  end.

(** The world as it is for the code that does not look at listeners: no
    listener array and no notification in the trace. *)
Definition unobserved (w : World) : World :=
  {| mcpServerStatusesInternal := mcpServerStatusesInternal w;
     mcpDiscoveryState := mcpDiscoveryState w;
     statusChangeListeners := [];
     toolRegistry_tools := toolRegistry_tools w;
     onerror_installed := onerror_installed w;
     trace := List.filter (λ e, negb (is_notify e)) (trace w) |}.

Definition unobserved_system (sys : System) : System :=
  {| world := unobserved (world sys);
     discoveryPromises := discoveryPromises sys;
     call := call sys |}.

(** No listener throws. *)
Definition never_throws (conduct : Conduct) : Prop :=
  ∀ l n s, thrown (conduct l n s) = None.

(** The listeners of [ls] return and leave the listener array alone. *)
Definition quiet (conduct : Conduct) (ls : list Listener) : Prop :=
  ∀ l n s, l ∈ ls → conduct l n s = returns_quietly.

Module Live.

Section Listeners.

Variable conduct : Conduct.

(** The loop [for (const listener of statusChangeListeners)] from index [i]
    on.  The iterator reads the live array: after a listener has spliced
    entries out, the next index may skip an entry or lie past the end.  A
    listener that throws ends the loop.  The array never grows here, so
    [fuel] at the length of the array when the loop starts is enough. *)
Fixpoint notify (fuel i : nat) (serverName : string) (status : MCPServerStatus)
    (w : World) : World * (JsError + unit) :=
  match fuel with
  | O => (w, inr tt)
  | S fuel' =>
      match statusChangeListeners w !! i with
      | None => (w, inr tt)
      | Some listener =>
          let r := conduct listener serverName status in
          let w1 :=
            fold_left (λ w' l', removeMCPStatusChangeListener l' w') (removes r)
                      (emit (EvNotify listener serverName status) w) in
          match thrown r with
          | Some e => (w1, inl e)
          | None => notify fuel' (S i) serverName status w1
          end
      end
  end.

(** [updateMCPServerStatus]: the [Map.set], then the loop over the
    listeners. *)
Definition updateMCPServerStatus (serverName : string) (status : MCPServerStatus)
    : M unit :=
  λ w,
    let w1 :=
      emit (EvStatus serverName status)
        {| mcpServerStatusesInternal := <[serverName := status]> (mcpServerStatusesInternal w);
           mcpDiscoveryState := mcpDiscoveryState w;
           statusChangeListeners := statusChangeListeners w;
           toolRegistry_tools := toolRegistry_tools w;
           onerror_installed := onerror_installed w;
           trace := trace w |} in
    notify (length (statusChangeListeners w1)) 0 serverName status w1.

(** The world a call of the registry's interface leaves, also when the call
    ends with an error. *)
Definition apply_op (w : World) (op : RegistryOp) : World :=
  match op with
  | OpSubscribe l => addMCPStatusChangeListener l w
  | OpUnsubscribe l => removeMCPStatusChangeListener l w
  | OpSet n s => (updateMCPServerStatus n s w).1
  end.

Definition apply_ops (ops : list RegistryOp) (w : World) : World :=
  fold_left apply_op ops w.

Variable parse : string → gmap string string → list ParseEntry.
Variable new_URL : string → option URL.
Variable process_env : gmap string string.
Variable behaviour : string → ServerBehaviour.

(** The outer [catch] of [connectAndDiscover] (lines 207-212). *)
Definition try_connectAndDiscover (mcpServerName : string) (body : M Control)
    : M Control :=
  try_catch body
    (λ error,
       exec act (emit (EvConsole (ConsoleError
                   ("Error connecting to MCP server '" +:+ mcpServerName
                    +:+ "': " +:+ message_or_string error))));
       exec updateMCPServerStatus mcpServerName DISCONNECTED;
       ret Return)%js.

(** The handler assigned to [mcpClient.onerror] (lines 190-193). *)
Definition onerror_handler (mcpServerName : string) (error : JsError) : M unit :=
  (exec act (emit (EvConsole (ConsoleError
               ("MCP ERROR (" +:+ mcpServerName +:+ "): " +:+ Error_toString error))));
   updateMCPServerStatus mcpServerName DISCONNECTED)%js.

(** From the call of [connectAndDiscover] to its first await; the first
    status is published before the [try]. *)
Definition connectAndDiscover_start (mcpServerName : string)
    (mcpServerConfig : MCPServerConfig) : M Control :=
  (exec updateMCPServerStatus mcpServerName CONNECTING;
   try_connectAndDiscover mcpServerName
     (try_connectToMcpServer mcpServerName
        (ret (Suspend (AwaitTransport
                (createTransport new_URL process_env mcpServerName mcpServerConfig))))))%js.

(** From one await to the next, or to the end. *)
Definition resume_segment (mcpServerName : string)
    (mcpServerConfig : MCPServerConfig) (point : Suspended) : M Control :=
  match point with
  | AwaitTransport r =>
      try_connectAndDiscover mcpServerName
        (try_connectToMcpServer mcpServerName
           (do transport <- settled r;
            exec act (emit (EvConnect mcpServerName transport
                         (default MCP_DEFAULT_TIMEOUT_MSEC (timeout mcpServerConfig))));
            ret (Suspend (AwaitConnect transport))))%js
  | AwaitConnect transport =>
      try_connectAndDiscover mcpServerName
        match connect_result (behaviour mcpServerName) with
        | inl error =>
            try_connectToMcpServer mcpServerName
              (exec act (emit (EvTransportClose mcpServerName));
               ret (Suspend (AwaitTransportClose error)))%js
        | inr _ =>
            try_discover mcpServerName
              (exec updateMCPServerStatus mcpServerName CONNECTED;
               exec act (install_onerror mcpServerName);
               exec act (emit (EvRequest mcpServerName
                            {| req_method := "tools/list";
                               req_name := None; req_arguments := None |}
                            None));
               ret (Suspend AwaitList))%js
        end
  | AwaitTransportClose error =>
      try_connectAndDiscover mcpServerName
        (try_connectToMcpServer mcpServerName
           (exec settled (transport_close_result (behaviour mcpServerName));
            throw error))%js
  | AwaitList =>
      try_connectAndDiscover mcpServerName
        (try_discover mcpServerName
           (do tools <- discoverTools_m mcpServerName mcpServerConfig
                          (list_result (behaviour mcpServerName));
            exec for_of tools (λ tool, act (registerTool tool));
            ret Return))%js
  end.

Definition connectAndDiscover (mcpServerName : string)
    (mcpServerConfig : MCPServerConfig) (w : World) : World * Pipeline :=
  let r := connectAndDiscover_start mcpServerName mcpServerConfig w in
  (r.1, {| p_name := mcpServerName; p_config := mcpServerConfig;
           p_state := settle_of r.2 |}).

Fixpoint launch (entries : Servers) (w : World) : World * list Pipeline :=
  match entries with
  | [] => (w, [])
  | (mcpServerName, mcpServerConfig) :: rest =>
      let r := connectAndDiscover mcpServerName mcpServerConfig w in
      let rs := launch rest r.1 in
      (rs.1, r.2 :: rs.2)
  end.

Definition discoverMcpTools (mcpServers : Servers)
    (mcpServerCommand : option string) (w : World) : System :=
  let w1 := set_mcpDiscoveryState IN_PROGRESS w in
  match populateMcpServerCommand parse process_env mcpServers mcpServerCommand with
  | inl e =>
      {| world := set_mcpDiscoveryState COMPLETED w1;
         discoveryPromises := [];
         call := CallRejected e |}
  | inr mcpServers' =>
      let r := launch mcpServers' w1 in
      {| world := r.1; discoveryPromises := r.2; call := CallPending |}
  end.

(** A step of the scheduler.  An error a listener throws inside the
    [onerror] handler leaves through the runtime that called the handler and
    reaches no pipeline. *)
Definition step (l : Label) (sys : System) : option System :=
  match l with
  | Resume i =>
      match discoveryPromises sys !! i with
      | Some p =>
          match p_state p with
          | Pending point =>
              let r := resume_segment (p_name p) (p_config p) point (world sys) in
              Some {| world := r.1;
                      discoveryPromises :=
                        <[i := {| p_name := p_name p; p_config := p_config p;
                                  p_state := settle_of r.2 |}]> (discoveryPromises sys);
                      call := call sys |}
          | _ => None
          end
      | None => None
      end
  | Fault serverName error =>
      if decide (serverName ∈ onerror_installed (world sys)) then
        Some {| world := (onerror_handler serverName error (world sys)).1;
                discoveryPromises := discoveryPromises sys;
                call := call sys |}
      else None
  | Settle =>
      match call sys, promise_all (discoveryPromises sys) with
      | CallPending, Some r =>
          Some {| world := set_mcpDiscoveryState COMPLETED (world sys);
                  discoveryPromises := discoveryPromises sys;
                  call := match r with
                          | inl e => CallRejected e
                          | inr _ => CallResolved
                          end |}
      | _, _ => None
      end
  end.

Fixpoint run (ls : list Label) (sys : System) : option System :=
  match ls with
  | [] => Some sys
  | l :: ls' =>
      match step l sys with
      | Some sys' => run ls' sys'
      | None => None
      end
  end.

End Listeners.

End Live.

(** A listener that throws when it is told that a server is
    disconnected. *)
Definition grumpy : Conduct :=
  λ _ _ status,
    match status with
    | DISCONNECTED => {| removes := []; thrown := Some (new_Error "listener failed") |}
    | _ => returns_quietly
    end.

(** Listener [1] unsubscribes itself when it is called. *)
Definition selfish : Conduct :=
  λ listener _ _,
    if Nat.eqb listener 1 then {| removes := [1%nat]; thrown := None |}
    else returns_quietly.

(** * Properties *)

(** ** Strings and arrays *)

Lemma Array_includes_elem_of (l : list string) (x : string) :
  Array_includes l x = true ↔ x ∈ l.
Proof.
  unfold Array_includes. rewrite existsb_exists. split.
  - intros (y & Hy & Heq). apply String.eqb_eq in Heq. subst y.
    by apply list_elem_of_In.
  - intros Hx. exists x. split; [by apply list_elem_of_In | apply String.eqb_refl].
Qed.

Lemma Array_some_exists {A} (p : A → bool) (l : list A) :
  Array_some p l = true ↔ ∃ x, x ∈ l ∧ p x = true.
Proof.
  unfold Array_some. rewrite existsb_exists. split.
  - intros (x & Hx & Hp). exists x. split; [by apply list_elem_of_In | done].
  - intros (x & Hx & Hp). exists x. split; [by apply list_elem_of_In | done].
Qed.

Lemma truthy_Some (v : option string) :
  truthy v = true ↔ ∃ s, v = Some s ∧ s ≠ "".
Proof.
  destruct v as [s|]; simpl.
  - rewrite negb_true_iff, String.eqb_neq. split.
    + intros Hs. by exists s.
    + by intros (s' & [= <-] & Hs).
  - split; [done | by intros (s & ? & _)].
Qed.

Lemma truthy_default (v : option string) :
  truthy v = true → v = Some (default "" v).
Proof. intros (s & -> & _)%truthy_Some. done. Qed.

(** ** The filter rule *)

Lemma isEnabled_nameless (f : FunctionDeclaration) (srv : string)
    (cfg : MCPServerConfig) :
  truthy (fd_name f) = false →
  isEnabled f srv cfg =
    ([ConsoleWarn ("Discovered a function declaration without a name from MCP server '"
                   +:+ srv +:+ "'. Skipping.")], false).
Proof.
  unfold isEnabled. destruct (fd_name f) as [[|c n]|]; simpl; done.
Qed.

Lemma isEnabled_named (f : FunctionDeclaration) (srv n : string)
    (cfg : MCPServerConfig) :
  fd_name f = Some n → n ≠ "" →
  isEnabled f srv cfg =
    ([], negb (match excludeTools cfg with
               | Some ex => Array_includes ex n
               | None => false
               end)
         && match includeTools cfg with
            | None => true
            | Some inc =>
                Array_some (λ tool, String.eqb tool n || startsWith tool (n +:+ "(")) inc
            end).
Proof.
  intros Hn Hne. unfold isEnabled. rewrite Hn.
  destruct n as [|c n]; [done|].
  by destruct (match excludeTools cfg with Some ex => _ | None => _ end).
Qed.

Example isEnabled_files :
  map (λ n, (isEnabled (functionDeclaration_of (wire n)) "files" files_config).2)
      [Some "read"; Some "write"; Some "stat"; Some ""; None]
  = [true; false; false; false; false].
Proof. reflexivity. Qed.

(** C3, as amended.  A declaration is kept exactly when its name is a
    non-empty string, the name does not appear in [excludeTools], and
    [includeTools] is absent or has an entry that equals the name or starts
    with the name followed by an opening parenthesis.  A declaration whose
    name is missing or empty is skipped with one warning and no error, and a
    declaration named in [excludeTools] is dropped whatever [includeTools]
    says. *)
Theorem isEnabled_rule (f : FunctionDeclaration) (srv : string)
    (cfg : MCPServerConfig) :
  ((isEnabled f srv cfg).2 = true ↔
     ∃ n, fd_name f = Some n ∧ n ≠ "" ∧
          (∀ ex, excludeTools cfg = Some ex → n ∉ ex) ∧
          (includeTools cfg = None ∨
           ∃ inc tool, includeTools cfg = Some inc ∧ tool ∈ inc ∧
                       (tool = n ∨ startsWith tool (n +:+ "(") = true)))
  ∧ ((fd_name f = None ∨ fd_name f = Some "") →
     isEnabled f srv cfg =
       ([ConsoleWarn ("Discovered a function declaration without a name from MCP server '"
                      +:+ srv +:+ "'. Skipping.")], false))
  ∧ (∀ n ex, fd_name f = Some n → excludeTools cfg = Some ex → n ∈ ex →
       (isEnabled f srv cfg).2 = false).
Proof.
  split; [|split].
  - destruct (truthy (fd_name f)) eqn:Ht.
    + apply truthy_Some in Ht as (n & Hn & Hne).
      rewrite (isEnabled_named f srv n cfg Hn Hne). simpl.
      rewrite andb_true_iff, negb_true_iff. split.
      * intros [Hex Hinc]. exists n. split; [done|]. split; [done|]. split.
        -- intros ex Heq. rewrite Heq in Hex.
           intros Hin%Array_includes_elem_of. congruence.
        -- destruct (includeTools cfg) as [inc|]; [right | by left].
           apply Array_some_exists in Hinc as (tool & Hin & Hm).
           exists inc, tool. split; [done|]. split; [done|].
           apply orb_true_iff in Hm as [Heq%String.eqb_eq | Hp]; auto.
      * intros (n' & Hn' & _ & Hex & Hinc).
        assert (n' = n) as -> by congruence. split.
        -- destruct (excludeTools cfg) as [ex|]; [|done].
           apply not_true_is_false. intros Hin%Array_includes_elem_of.
           by apply (Hex ex).
        -- destruct Hinc as [-> | (inc & tool & -> & Hin & Hm)]; [done|].
           apply Array_some_exists. exists tool. split; [done|].
           apply orb_true_iff. destruct Hm as [-> | Hp]; [left | by right].
           apply String.eqb_refl.
    + rewrite (isEnabled_nameless f srv cfg Ht). simpl. split; [done|].
      intros (n & Hn & Hne & _).
      assert (truthy (fd_name f) = true) by (apply truthy_Some; eauto).
      congruence.
  - intros Hn. apply isEnabled_nameless. by destruct Hn as [-> | ->].
  - intros n ex Hn Hex Hin.
    destruct (decide (n = "")) as [-> | Hne].
    + by rewrite (isEnabled_nameless f srv cfg) by (by rewrite Hn).
    + rewrite (isEnabled_named f srv n cfg Hn Hne), Hex. simpl.
      apply andb_false_iff. left. apply negb_false_iff.
      by apply Array_includes_elem_of.
Qed.

(** C3, as stated, fails: a declaration whose [name] field is the empty
    string has a name field, is not excluded and meets no [includeTools],
    yet the guard [!funcDecl.name] skips it. *)
Lemma isEnabled_empty_name_skipped :
  ¬ (∀ (f : FunctionDeclaration) (srv : string) (cfg : MCPServerConfig),
       is_Some (fd_name f) →
       (∀ n ex, fd_name f = Some n → excludeTools cfg = Some ex → n ∉ ex) →
       includeTools cfg = None →
       (isEnabled f srv cfg).2 = true).
Proof.
  intros H.
  specialize (H {| fd_name := Some ""; fd_description := None;
                   fd_parametersJsonSchema := None |} "files" no_config).
  simpl in H. discriminate H; [by eexists | by intros n ex _ [=] | done].
Qed.

(** ** Tool discovery *)

Lemma discoverTools_loop (srv : string) (cfg : MCPServerConfig)
    (decls : list FunctionDeclaration) (out : list ConsoleLine)
    (acc : list DiscoveredMCPTool) :
  fold_left (discoverTools_iter srv cfg) decls (out, acc) =
    (app out (concat (map (λ d, (isEnabled d srv cfg).1) decls)),
     app acc (map (new_DiscoveredMCPTool srv cfg) (List.filter (keeps srv cfg) decls))).
Proof.
  revert out acc. induction decls as [|d decls IH]; intros out acc; simpl.
  - by rewrite !app_nil_r.
  - unfold discoverTools_iter at 2, keeps at 1.
    destruct (isEnabled d srv cfg) as [warns enabled]; simpl.
    destruct enabled; simpl; rewrite IH; simpl.
    + by rewrite <- !app_assoc.
    + by rewrite <- app_assoc.
Qed.

Lemma discoverTools_of_array (srv : string) (cfg : MCPServerConfig)
    (decls : list FunctionDeclaration) :
  (discoverTools_of srv cfg (inr (DeclArray decls))).2 =
    match List.filter (keeps srv cfg) decls with
    | [] => inl (new_Error "Error discovering tools: Error: No enabled tools found")
    | kept => inr (map (new_DiscoveredMCPTool srv cfg) kept)
    end.
Proof.
  unfold discoverTools_of. rewrite discoverTools_loop. simpl.
  destruct (List.filter (keeps srv cfg) decls) as [|d kept]; done.
Qed.

Lemma keeps_name (srv : string) (cfg : MCPServerConfig) (d : FunctionDeclaration) :
  keeps srv cfg d = true → fd_name d = Some (tool_name (new_DiscoveredMCPTool srv cfg d)).
Proof.
  unfold keeps. intros H. destruct (truthy (fd_name d)) eqn:Ht.
  - by apply truthy_default.
  - by rewrite (isEnabled_nameless d srv cfg Ht) in H.
Qed.

Example discoverTools_files :
  discoverTools "files" files_config (inr (ToolsArray files_tools))
  = ([ConsoleWarn "Discovered a function declaration without a name from MCP server 'files'. Skipping."],
     inr [new_DiscoveredMCPTool "files" files_config
            (functionDeclaration_of (wire (Some "read")))]).
Proof. reflexivity. Qed.

Example discoverTools_nothing_enabled :
  (discoverTools "files" files_config
     (inr (ToolsArray [wire (Some "write"); wire None]))).2
  = inl (new_Error "Error discovering tools: Error: No enabled tools found").
Proof. reflexivity. Qed.

Example discoverTools_runtime_error :
  (discoverTools "files" files_config
     (inl (MkError (CtorClass "McpError") "MCP error -32601: Method not found"))).2
  = inl (new_Error
           "Error discovering tools: McpError: MCP error -32601: Method not found").
Proof. reflexivity. Qed.

Example discoverTools_missing_tools :
  (discoverTools "files" files_config (inr ToolsUndefined)).2
  = inl (new_Error
           "Error discovering tools: TypeError: Cannot read properties of undefined (reading 'map')").
Proof. reflexivity. Qed.

(** C2.  [discoverTools] fails with an error when the operation list of the
    response is not an array, and when no operation passes [isEnabled];
    otherwise it returns one proxy tool for each operation that passes, in
    the order the server listed them, each carrying that operation's name
    and the server's name. *)
Theorem discoverTools_result (srv : string) (cfg : MCPServerConfig) :
  (∀ field, (∀ tools, field ≠ ToolsArray tools) →
     ∃ e, (discoverTools srv cfg (inr field)).2 = inl e)
  ∧ (∃ e, (discoverTools_of srv cfg (inr DeclNotArray)).2 = inl e)
  ∧ ∀ tools : list WireTool,
      let kept := List.filter (keeps srv cfg) (map functionDeclaration_of tools) in
      (kept = [] → ∃ e, (discoverTools srv cfg (inr (ToolsArray tools))).2 = inl e)
      ∧ (kept ≠ [] →
         ∃ found,
           (discoverTools srv cfg (inr (ToolsArray tools))).2 = inr found
           ∧ found = map (new_DiscoveredMCPTool srv cfg) kept
           ∧ Forall2 (λ t d, fd_name d = Some (tool_name t) ∧ tool_serverName t = srv)
                     found kept).
Proof.
  split; [|split; [by eexists |]].
  { intros [| | | tools] Hfield; [by eexists | by eexists | by eexists |].
    by destruct (Hfield tools). }
  intros tools kept. unfold discoverTools. simpl mcpToTool_tool.
  rewrite discoverTools_of_array. fold kept. split.
  - intros ->. by eexists.
  - intros Hne. exists (map (new_DiscoveredMCPTool srv cfg) kept).
    split; [by destruct kept | split; [done|]].
    assert (Forall (λ d, keeps srv cfg d = true) kept) as Hkept.
    { apply Forall_forall. intros d Hd%list_elem_of_In.
      subst kept. by apply filter_In in Hd as [_ Hd]. }
    clear Hne. induction Hkept as [|d kept' Hd _ IH]; simpl; constructor; [|done].
    split; [by apply keeps_name | done].
Qed.

(** ** The transport factory *)

Section TransportFactory.

Variable new_URL : string → option URL.
Variable process_env : gmap string string.

Lemma createTransport_httpUrl (srv : string) (cfg : MCPServerConfig) :
  truthy (httpUrl cfg) = true →
  createTransport new_URL process_env srv cfg =
    match new_URL (default "" (httpUrl cfg)) with
    | Some u => inr (StreamableHTTPClientTransport u (transportOptions_of cfg))
    | None => inl invalid_URL_error
    end.
Proof. intros H. unfold createTransport. by rewrite H. Qed.

Lemma createTransport_url (srv : string) (cfg : MCPServerConfig) :
  truthy (httpUrl cfg) = false → truthy (url cfg) = true →
  createTransport new_URL process_env srv cfg =
    match new_URL (default "" (url cfg)) with
    | Some u => inr (SSEClientTransport u (transportOptions_of cfg))
    | None => inl invalid_URL_error
    end.
Proof. intros H1 H2. unfold createTransport. by rewrite H1, H2. Qed.

Lemma createTransport_command (srv : string) (cfg : MCPServerConfig) :
  truthy (httpUrl cfg) = false → truthy (url cfg) = false →
  truthy (command cfg) = true →
  createTransport new_URL process_env srv cfg =
    inr (StdioClientTransport
           {| sp_command := default "" (command cfg);
              sp_args := default [] (args cfg);
              sp_env := default ∅ (env cfg) ∪ process_env;
              sp_cwd := cwd cfg |}).
Proof. intros H1 H2 H3. unfold createTransport. by rewrite H1, H2, H3. Qed.

Lemma createTransport_none (srv : string) (cfg : MCPServerConfig) :
  truthy (httpUrl cfg) = false → truthy (url cfg) = false →
  truthy (command cfg) = false →
  createTransport new_URL process_env srv cfg = inl missing_selector_error.
Proof. intros H1 H2 H3. unfold createTransport. by rewrite H1, H2, H3. Qed.

(** The transport kind the precedence rule picks, if any: [httpUrl] before
    [url] before [command], a selector counting when it is a non-empty
    string. *)
Lemma createTransport_kind (srv : string) (cfg : MCPServerConfig) (t : Transport) :
  createTransport new_URL process_env srv cfg = inr t →
  transport_kind t =
    if truthy (httpUrl cfg) then StreamableHTTP
    else if truthy (url cfg) then SSE
    else Stdio.
Proof.
  unfold createTransport.
  destruct (truthy (httpUrl cfg)).
  { destruct (new_URL _); intros [= <-]; done. }
  destruct (truthy (url cfg)).
  { destruct (new_URL _); intros [= <-]; done. }
  destruct (truthy (command cfg)); intros [= <-]; done.
Qed.

Lemma createTransport_missing_iff (srv : string) (cfg : MCPServerConfig) :
  createTransport new_URL process_env srv cfg = inl missing_selector_error ↔
  truthy (httpUrl cfg) = false ∧ truthy (url cfg) = false
  ∧ truthy (command cfg) = false.
Proof.
  split.
  - unfold createTransport.
    destruct (truthy (httpUrl cfg)).
    { destruct (new_URL _); intros [=]. }
    destruct (truthy (url cfg)).
    { destruct (new_URL _); intros [=]. }
    destruct (truthy (command cfg)); [intros [=] | done].
  - intros (H1 & H2 & H3). by apply createTransport_none.
Qed.

End TransportFactory.

(** ** The status registry *)

Lemma fold_emit {A} (f : A → Event) (l : list A) (w : World) :
  fold_left (λ w' x, emit (f x) w') l w =
    {| mcpServerStatusesInternal := mcpServerStatusesInternal w;
       mcpDiscoveryState := mcpDiscoveryState w;
       statusChangeListeners := statusChangeListeners w;
       toolRegistry_tools := toolRegistry_tools w;
       onerror_installed := onerror_installed w;
       trace := app (trace w) (map f l) |}.
Proof.
  revert w. induction l as [|x l IH]; intros w; simpl.
  - rewrite app_nil_r. by destruct w.
  - rewrite IH. unfold emit; simpl. by rewrite <- app_assoc.
Qed.

Lemma updateMCPServerStatus_eq (n : string) (s : MCPServerStatus) (w : World) :
  updateMCPServerStatus n s w =
    {| mcpServerStatusesInternal := <[n := s]> (mcpServerStatusesInternal w);
       mcpDiscoveryState := mcpDiscoveryState w;
       statusChangeListeners := statusChangeListeners w;
       toolRegistry_tools := toolRegistry_tools w;
       onerror_installed := onerror_installed w;
       trace := app (trace w)
                    (EvStatus n s :: map (λ l, EvNotify l n s) (statusChangeListeners w)) |}.
Proof.
  unfold updateMCPServerStatus. rewrite fold_emit. simpl.
  by rewrite <- app_assoc.
Qed.

Lemma getMCPServerStatus_update (n m : string) (s : MCPServerStatus) (w : World) :
  getMCPServerStatus m (updateMCPServerStatus n s w) =
    if decide (n = m) then s else getMCPServerStatus m w.
Proof.
  rewrite updateMCPServerStatus_eq. unfold getMCPServerStatus. simpl.
  rewrite lookup_insert. by case_decide.
Qed.

Lemma apply_ops_untouched (ops : list RegistryOp) (x : string) (w : World) :
  (∀ s, OpSet x s ∉ ops) →
  mcpServerStatusesInternal (apply_ops ops w) !! x = mcpServerStatusesInternal w !! x.
Proof.
  revert w. induction ops as [|op ops IH]; intros w Hno; [done|].
  unfold apply_ops in *. simpl. rewrite IH.
  - destruct op as [l | l | n s]; simpl; [done | done |].
    rewrite updateMCPServerStatus_eq. simpl.
    apply lookup_insert_ne. intros ->. apply (Hno s). left.
  - intros s Hin. apply (Hno s). by right.
Qed.

Lemma delivered_app (l : Listener) (tr1 tr2 : list Event) :
  delivered l (app tr1 tr2) = app (delivered l tr1) (delivered l tr2).
Proof. unfold delivered. apply omap_app. Qed.

Lemma delivered_notify (l : Listener) (n : string) (s : MCPServerStatus)
    (ls : list Listener) :
  l ∉ ls → delivered l (map (λ l', EvNotify l' n s) ls) = [].
Proof.
  induction ls as [|l' ls IH]; intros Hl; [done|]. simpl.
  apply not_elem_of_cons in Hl as [Hne Hl].
  destruct (Nat.eqb_spec l' l) as [-> | _]; [done|]. by apply IH.
Qed.

Lemma delivered_round (l : Listener) (n : string) (s : MCPServerStatus)
    (ls : list Listener) :
  l ∉ ls →
  delivered l (EvStatus n s :: map (λ l', EvNotify l' n s) (app ls [l])) = [(n, s)].
Proof.
  intros Hl. rewrite map_app. change (EvStatus n s :: ?t) with (app [EvStatus n s] t).
  rewrite !delivered_app, delivered_notify by done. simpl.
  by rewrite Nat.eqb_refl.
Qed.

(** ** The server map and the ad-hoc command *)

Lemma obj_get_set (k : string) (v : MCPServerConfig) (o : Servers) :
  obj_get k (obj_set k v o) = Some v.
Proof.
  induction o as [|[k' v'] o IH]; simpl.
  - by rewrite String.eqb_refl.
  - destruct (String.eqb k k') eqn:E; simpl; rewrite ?String.eqb_refl, ?E; done.
Qed.

Lemma obj_get_set_ne (k k' : string) (v : MCPServerConfig) (o : Servers) :
  k ≠ k' → obj_get k' (obj_set k v o) = obj_get k' o.
Proof.
  intros Hne. induction o as [|[k0 v0] o IH]; simpl.
  - by apply String.eqb_neq in Hne; rewrite String.eqb_sym, Hne.
  - destruct (String.eqb k k0) eqn:E; simpl.
    + apply String.eqb_eq in E as <-.
      assert (String.eqb k' k = false) as -> by (apply String.eqb_neq; congruence).
      done.
    + by rewrite IH.
Qed.

Lemma obj_set_keys (k : string) (v : MCPServerConfig) (o : Servers) :
  map fst (obj_set k v o) =
    if Array_includes (map fst o) k then map fst o else app (map fst o) [k].
Proof.
  induction o as [|[k0 v0] o IH]; simpl; [done|].
  destruct (String.eqb k k0) eqn:E; simpl.
  - apply String.eqb_eq in E as <-. done.
  - rewrite IH. by destruct (Array_includes (map fst o) k).
Qed.

Lemma keys_unique_NoDup (ks : list string) :
  keys_unique ks = true ↔ NoDup ks.
Proof.
  induction ks as [|k ks IH]; simpl.
  - split; [constructor | done].
  - rewrite andb_true_iff, negb_true_iff, NoDup_cons, IH.
    rewrite <- not_true_iff_false, Array_includes_elem_of. done.
Qed.

Lemma obj_set_well_formed (k : string) (v : MCPServerConfig) (o : Servers) :
  well_formed o = true → well_formed (obj_set k v o) = true.
Proof.
  unfold well_formed. rewrite !keys_unique_NoDup, obj_set_keys.
  intros Hnd. destruct (Array_includes (map fst o) k) eqn:E; [done|].
  apply NoDup_app. split; [done|]. split; [|apply NoDup_singleton].
  intros x Hx ->%list_elem_of_singleton.
  apply Array_includes_elem_of in Hx. congruence.
Qed.

Lemma Array_some_not_string (l : list ParseEntry) :
  Array_some (λ arg, negb (is_string arg)) l = negb (forallb is_string l).
Proof.
  unfold Array_some. induction l as [|a l IH]; simpl; [done|].
  rewrite IH. by destruct (is_string a).
Qed.

Section AdHocCommand.

Variable parse : string → gmap string string → list ParseEntry.
Variable process_env : gmap string string.

(** The entry an ad-hoc command is turned into: the first token as
    [command], the remaining tokens as [args], nothing else. *)
Lemma populateMcpServerCommand_supplied (servers : Servers) (cmd : string) :
  cmd ≠ "" →
  populateMcpServerCommand parse process_env servers (Some cmd) =
    if forallb is_string (parse cmd process_env)
    then inr (obj_set "mcp"
                {| command := head (entry_strings (parse cmd process_env));
                   args := Some (tail (entry_strings (parse cmd process_env)));
                   env := None; cwd := None; url := None; httpUrl := None;
                   headers := None; timeout := None;
                   includeTools := None; excludeTools := None |}
                servers)
    else inl (new_Error ("failed to parse mcpServerCommand: " +:+ cmd)).
Proof.
  intros Hne. unfold populateMcpServerCommand.
  assert (truthy (Some cmd) = true) as -> by (apply truthy_Some; eauto).
  rewrite Array_some_not_string. simpl.
  by destruct (forallb is_string (parse cmd process_env)).
Qed.

Lemma populateMcpServerCommand_absent (servers : Servers) (cmd : option string) :
  truthy cmd = false →
  populateMcpServerCommand parse process_env servers cmd = inr servers.
Proof. intros H. unfold populateMcpServerCommand. by rewrite H. Qed.

Lemma populateMcpServerCommand_well_formed (servers servers' : Servers)
    (cmd : option string) :
  well_formed servers = true →
  populateMcpServerCommand parse process_env servers cmd = inr servers' →
  well_formed servers' = true.
Proof.
  intros Hwf. unfold populateMcpServerCommand.
  destruct (truthy cmd); [|by intros [= <-]].
  destruct (Array_some _ _); [done|]. intros [= <-].
  by apply obj_set_well_formed.
Qed.

(** C7, as amended.  For a non-empty ad-hoc command: when every token is a
    string, the resulting map has under ["mcp"] exactly the entry made of
    the first token as [command] and the remaining tokens as [args], with no
    field of an earlier ["mcp"] entry surviving, and every other server is
    as before; when some token is not a string, the call throws.  An absent
    or empty command leaves the map as it is. *)
Theorem populateMcpServerCommand_overrides (servers : Servers) (cmd : string) :
  cmd ≠ "" →
  (forallb is_string (parse cmd process_env) = true →
   ∃ servers',
     populateMcpServerCommand parse process_env servers (Some cmd) = inr servers'
     ∧ obj_get "mcp" servers'
       = Some {| command := head (entry_strings (parse cmd process_env));
                 args := Some (tail (entry_strings (parse cmd process_env)));
                 env := None; cwd := None; url := None; httpUrl := None;
                 headers := None; timeout := None;
                 includeTools := None; excludeTools := None |}
     ∧ ∀ k, k ≠ "mcp" → obj_get k servers' = obj_get k servers)
  ∧ (forallb is_string (parse cmd process_env) = false →
     populateMcpServerCommand parse process_env servers (Some cmd)
     = inl (new_Error ("failed to parse mcpServerCommand: " +:+ cmd)))
  ∧ populateMcpServerCommand parse process_env servers (Some "") = inr servers
  ∧ populateMcpServerCommand parse process_env servers None = inr servers.
Proof.
  intros Hne. rewrite (populateMcpServerCommand_supplied servers cmd Hne).
  split; [|split; [|split]].
  - intros ->. eexists. split; [done|]. split.
    + apply obj_get_set.
    + intros k Hk. apply obj_get_set_ne. congruence.
  - by intros ->.
  - by apply populateMcpServerCommand_absent.
  - by apply populateMcpServerCommand_absent.
Qed.

End AdHocCommand.

Lemma populateMcpServerCommand_overrides_witness :
  "node files.js --root /srv" ≠ ""
  ∧ ∃ servers',
      populateMcpServerCommand example_parse example_env
        [("mcp", search_config)] (Some "node files.js --root /srv") = inr servers'
      ∧ obj_get "mcp" servers'
        = Some {| command := Some "node";
                  args := Some ["files.js"; "--root"; "/srv"];
                  env := None; cwd := None; url := None; httpUrl := None;
                  headers := None; timeout := None;
                  includeTools := None; excludeTools := None |}.
Proof.
  assert ("node files.js --root /srv" ≠ "") as Hne by discriminate.
  split; [exact Hne|].
  destruct (populateMcpServerCommand_overrides example_parse example_env
              [("mcp", search_config)] "node files.js --root /srv" Hne)
    as (H & _).
  destruct (H eq_refl) as (servers' & H1 & H2 & _).
  exists servers'. split; [exact H1 | exact H2].
Defined.

(** C7, as stated, fails whatever the tokenizer: for the empty command
    string the guard [if (mcpServerCommand)] skips the override, so a map
    without an ["mcp"] entry still has none, and nothing is thrown. *)
Lemma populateMcpServerCommand_empty_command :
  ¬ ∃ (parse : string → gmap string string → list ParseEntry)
      (process_env : gmap string string),
      ∀ (servers : Servers) (cmd : string),
        (forallb is_string (parse cmd process_env) = true →
         ∃ servers',
           populateMcpServerCommand parse process_env servers (Some cmd) = inr servers'
           ∧ obj_get "mcp" servers'
             = Some {| command := head (entry_strings (parse cmd process_env));
                       args := Some (tail (entry_strings (parse cmd process_env)));
                       env := None; cwd := None; url := None; httpUrl := None;
                       headers := None; timeout := None;
                       includeTools := None; excludeTools := None |})
        ∧ (forallb is_string (parse cmd process_env) = false →
           ∃ e, populateMcpServerCommand parse process_env servers (Some cmd) = inl e).
Proof.
  intros (parse & process_env & H).
  destruct (H [] "") as [Hok Hfail].
  destruct (forallb is_string (parse "" process_env)).
  - destruct (Hok eq_refl) as (servers' & Heq & Hget).
    unfold populateMcpServerCommand in Heq. simpl in Heq.
    injection Heq as <-. discriminate Hget.
  - destruct (Hfail eq_refl) as (e & Heq). discriminate Heq.
Qed.

(** ** Child environment and tool timeouts *)

Lemma discoverTools_timeouts (srv : string) (cfg : MCPServerConfig)
    (tool : JsError + Declarations) (found : list DiscoveredMCPTool) :
  (discoverTools_of srv cfg tool).2 = inr found →
  Forall (λ t, tool_timeout t = default MCP_DEFAULT_TIMEOUT_MSEC (timeout cfg)) found.
Proof.
  destruct tool as [e | [| decls]]; [done | done |].
  rewrite discoverTools_of_array.
  destruct (List.filter (keeps srv cfg) decls) as [|d kept] eqn:E; [done|].
  intros [= <-]. apply Forall_forall. intros t Hin.
  change (t ∈ map (new_DiscoveredMCPTool srv cfg) (d :: kept)) in Hin.
  apply list_elem_of_In, in_map_iff in Hin as (d' & <- & _). done.
Qed.

(** C8.  Every descriptor whose [httpUrl] and [url] do not count and whose
    [command] does gets the subprocess transport, and every subprocess
    transport [createTransport] builds carries the parent environment
    overlaid with the descriptor's variables, the descriptor winning where
    both define a variable.  Whatever the server answers, every tool
    [discoverTools] returns has the descriptor's timeout when it gives one,
    else the default of 10 minutes, 600000 ms; and when the server lists
    operations of which some are kept, there is one such tool for each kept
    operation, in their order. *)
Theorem stdio_env_and_tool_timeout (new_URL : string → option URL)
    (process_env : gmap string string) (srv : string) (cfg : MCPServerConfig) :
  (truthy (httpUrl cfg) = false → truthy (url cfg) = false →
   truthy (command cfg) = true →
   ∃ params,
     createTransport new_URL process_env srv cfg = inr (StdioClientTransport params))
  ∧ (∀ params,
       createTransport new_URL process_env srv cfg = inr (StdioClientTransport params) →
       ∀ k, sp_env params !! k =
            match env cfg ≫= (λ e, e !! k) with
            | Some v => Some v
            | None => process_env !! k
            end)
  ∧ (∀ listResult found,
       (discoverTools srv cfg listResult).2 = inr found →
       ∀ t, t ∈ found →
            tool_timeout t = match timeout cfg with
                             | Some ms => ms
                             | None => 600000
                             end)
  ∧ (∀ tools : list WireTool,
       let kept := List.filter (keeps srv cfg) (map functionDeclaration_of tools) in
       kept ≠ [] →
       ∃ found,
         (discoverTools srv cfg (inr (ToolsArray tools))).2 = inr found
         ∧ Forall2 (λ t d, fd_name d = Some (tool_name t)
                           ∧ tool_timeout t = match timeout cfg with
                                              | Some ms => ms
                                              | None => 600000
                                              end)
                   found kept)
  ∧ MCP_DEFAULT_TIMEOUT_MSEC = 10 * 60 * 1000.
Proof.
  split; [|split; [|split; [|split; [|done]]]].
  - intros H1 H2 H3. eexists. by apply createTransport_command.
  - intros params Ht k. unfold createTransport in Ht.
    destruct (truthy (httpUrl cfg)); [by destruct (new_URL _)|].
    destruct (truthy (url cfg)); [by destruct (new_URL _)|].
    destruct (truthy (command cfg)); [|done].
    injection Ht as <-. simpl. rewrite lookup_union.
    destruct (env cfg) as [e|]; simpl.
    + destruct (e !! k), (process_env !! k); done.
    + rewrite lookup_empty. by destruct (process_env !! k).
  - intros listResult found Hd t Hin. apply discoverTools_timeouts in Hd.
    rewrite Forall_forall in Hd. rewrite (Hd t Hin).
    by destruct (timeout cfg).
  - intros tools kept Hne. unfold discoverTools. simpl mcpToTool_tool.
    rewrite discoverTools_of_array. fold kept.
    exists (map (new_DiscoveredMCPTool srv cfg) kept).
    split; [by destruct kept|].
    assert (Forall (λ d, keeps srv cfg d = true) kept) as Hkept.
    { apply Forall_forall. intros d Hd%list_elem_of_In.
      subst kept. by apply filter_In in Hd as [_ Hd]. }
    clear Hne. induction Hkept as [|d kept' Hd _ IH]; simpl; constructor; [|done].
    split; [by apply keeps_name|]. simpl. destruct (timeout cfg); reflexivity.
Qed.

Lemma stdio_env_and_tool_timeout_witness :
  ∃ params found,
    createTransport example_URL example_env "files" files_config
    = inr (StdioClientTransport params)
    ∧ (discoverTools "files" files_config (inr (ToolsArray files_tools))).2 = inr found
    ∧ sp_env params !! "HOME" = Some "/srv/files"
    ∧ sp_env params !! "PATH" = Some "/usr/bin"
    ∧ length found = 1%nat
    ∧ ∀ t, t ∈ found → tool_timeout t = 5000.
Proof.
  destruct (stdio_env_and_tool_timeout example_URL example_env "files" files_config)
    as (Hex & Henv & Hto & Hall & _).
  destruct (Hex eq_refl eq_refl eq_refl) as (params & Ht).
  assert (List.filter (keeps "files" files_config)
            (map functionDeclaration_of files_tools) ≠ []) as Hne by discriminate.
  destruct (Hall files_tools Hne) as (found & Hd & Hlen%Forall2_length).
  exists params, found. split; [exact Ht|]. split; [exact Hd|].
  split; [exact (Henv params Ht "HOME")|]. split; [exact (Henv params Ht "PATH")|].
  split; [exact Hlen|]. exact (Hto _ found Hd).
Defined.

(** ** Timeouts of tool calls *)

Lemma last_call_options_snoc (tr : list Event) (e : Event) :
  last_call_options (app tr [e]) =
    match e with
    | EvCallTool _ _ o => Some o
    | EvRequest _ r o =>
        if String.eqb (req_method r) "tools/call" then Some o
        else last_call_options tr
    | _ => last_call_options tr
    end.
Proof. unfold last_call_options. rewrite fold_left_app. by destruct e. Qed.

(** The patched [callTool] hands the runtime the descriptor's timeout, or
    the 10-minute default, whatever timeout the caller's options held, so
    the runtime's own default never applies on this path. *)
Lemma callTool_timeout (cfg : MCPServerConfig) (srv : string) (params : Request)
    (options : option RequestOptions) (w : World) (runtime_default : Z) :
  ∃ o, last_call_options (trace (callTool cfg srv params options w)) = Some o
       ∧ request_timeout runtime_default o
         = default MCP_DEFAULT_TIMEOUT_MSEC (timeout cfg).
Proof.
  eexists. unfold callTool, emit. simpl. rewrite last_call_options_snoc.
  split; [done|]. done.
Qed.

(** What [execute] of a proxy tool sends: one [tools/call] request without
    options, so the runtime applies its own default and the timeout stored
    in the tool plays no part. *)
Lemma DiscoveredMCPTool_execute_options (tool : DiscoveredMCPTool) (params : string)
    (result : JsError + string) (w : World) (runtime_default : Z) :
  trace (DiscoveredMCPTool_execute tool params result w).1
  = app (trace w)
        [EvRequest (tool_mcpCallableTool tool)
           {| req_method := "tools/call"; req_name := Some (tool_name tool);
              req_arguments := Some params |} None]
  ∧ ∃ o, last_call_options (trace (DiscoveredMCPTool_execute tool params result w).1)
         = Some o
         ∧ request_timeout runtime_default o = runtime_default.
Proof.
  assert (trace (DiscoveredMCPTool_execute tool params result w).1
          = app (trace w)
                [EvRequest (tool_mcpCallableTool tool)
                   {| req_method := "tools/call"; req_name := Some (tool_name tool);
                      req_arguments := Some params |} None]) as Htr.
  { unfold DiscoveredMCPTool_execute, try_catch, mcpToTool_execute, bind, act, settled.
    simpl. by destruct result. }
  split; [exact Htr|]. exists None. rewrite Htr, last_call_options_snoc. done.
Qed.

(** C6 at a concrete descriptor: a tool discovered from a server whose
    descriptor sets a 5-second timeout stores that timeout, yet its
    [execute] reaches the runtime without options, so a runtime whose
    default is 60 seconds times the call out at 60 seconds; only a call made
    through the patched [callTool] carries the 5 seconds, the value the
    handshake of the same server is given as well. *)
Theorem proxy_tool_execute_uses_runtime_default :
  let tool :=
    new_DiscoveredMCPTool "files" files_config (functionDeclaration_of (wire (Some "read"))) in
  let sent := trace (DiscoveredMCPTool_execute tool "{}" (inr "done") initial_world).1 in
  let request :=
    {| req_method := "tools/call"; req_name := Some "read";
       req_arguments := Some "{}" |} in
  tool_timeout tool = 5000
  ∧ sent = [EvRequest "files" request None]
  ∧ last_call_options sent = Some None
  ∧ request_timeout 60000 None = 60000
  ∧ last_call_options (trace (callTool files_config "files" request None initial_world))
    = Some (Some {| opt_timeout := Some 5000; opt_rest := ∅ |})
  ∧ ∀ (behaviour : string → ServerBehaviour) (t : Transport),
      trace (resume_segment behaviour "files" files_config
               (AwaitTransport (inr t)) initial_world).1
      = [EvConnect "files" t 5000].
Proof. repeat split. Qed.

(** ** Segments of a pipeline *)

Lemma for_of_act {A} (l : list A) (f : A → World → World) (w : World) :
  for_of l (λ x, act (f x)) w = (fold_left (λ w' x, f x w') l w, inr tt).
Proof.
  revert w. induction l as [|x l IH]; intros w; simpl; [done|].
  unfold bind, act at 1. simpl. apply IH.
Qed.

Section Segments.

Variable new_URL : string → option URL.
Variable process_env : gmap string string.
Variable behaviour : string → ServerBehaviour.

Lemma connectAndDiscover_start_eq (name : string) (cfg : MCPServerConfig) (w : World) :
  connectAndDiscover_start new_URL process_env name cfg w =
    (updateMCPServerStatus name CONNECTING w,
     inr (Suspend (AwaitTransport (createTransport new_URL process_env name cfg)))).
Proof. reflexivity. Qed.

Lemma resume_AwaitTransport (name : string) (cfg : MCPServerConfig)
    (r : JsError + Transport) (w : World) :
  resume_segment behaviour name cfg (AwaitTransport r) w =
    match r with
    | inl e => (caught name (connection_error name e) w, inr Return)
    | inr t =>
        (emit (EvConnect name t (default MCP_DEFAULT_TIMEOUT_MSEC (timeout cfg))) w,
         inr (Suspend (AwaitConnect t)))
    end.
Proof. by destruct r. Qed.

Lemma resume_AwaitConnect (name : string) (cfg : MCPServerConfig)
    (t : Transport) (w : World) :
  resume_segment behaviour name cfg (AwaitConnect t) w =
    match connect_result (behaviour name) with
    | inl e => (emit (EvTransportClose name) w, inr (Suspend (AwaitTransportClose e)))
    | inr _ =>
        (emit (EvRequest name
                 {| req_method := "tools/list"; req_name := None;
                    req_arguments := None |} None)
           (install_onerror name (updateMCPServerStatus name CONNECTED w)),
         inr (Suspend AwaitList))
    end.
Proof. simpl. by destruct (connect_result (behaviour name)). Qed.

Lemma resume_AwaitTransportClose (name : string) (cfg : MCPServerConfig)
    (e : JsError) (w : World) :
  resume_segment behaviour name cfg (AwaitTransportClose e) w =
    (caught name
       (connection_error name
          match transport_close_result (behaviour name) with
          | inl e' => e'
          | inr _ => e
          end) w,
     inr Return).
Proof. simpl. by destruct (transport_close_result (behaviour name)). Qed.

Lemma resume_AwaitList (name : string) (cfg : MCPServerConfig) (w : World) :
  resume_segment behaviour name cfg AwaitList w =
    let d := discoverTools name cfg (list_result (behaviour name)) in
    match d.2 with
    | inr tools => (register_all tools (log_lines d.1 w), inr Return)
    | inl e => (caught name e (emit (EvClientClose name) (log_lines d.1 w)), inr Return)
    end.
Proof.
  simpl. unfold try_connectAndDiscover, try_discover, try_catch, discoverTools_m.
  unfold bind at 1 2 3. rewrite for_of_act. fold (log_lines
    (discoverTools name cfg (list_result (behaviour name))).1 w).
  unfold settled at 1.
  destruct (discoverTools name cfg (list_result (behaviour name))).2 as [e|tools].
  - reflexivity.
  - unfold bind. rewrite for_of_act. reflexivity.
Qed.

(** No segment ends in a rejection: every error raised inside a pipeline
    is handled by the [catch] blocks of [connectAndDiscover]. *)
Lemma resume_segment_not_rejected (name : string) (cfg : MCPServerConfig)
    (point : Suspended) (w : World) :
  ∃ c, (resume_segment behaviour name cfg point w).2 = inr c.
Proof.
  destruct point as [r | t | e |].
  - rewrite resume_AwaitTransport. destruct r; by eexists.
  - rewrite resume_AwaitConnect. destruct (connect_result _); by eexists.
  - rewrite resume_AwaitTransportClose. by eexists.
  - rewrite resume_AwaitList. simpl. destruct (discoverTools _ _ _).2; by eexists.
Qed.

End Segments.

(** ** Traces and frames *)

Lemma last_status_acc (n : string) (tr : list Event) (acc : option MCPServerStatus) :
  fold_left (λ acc e, match e with
                      | EvStatus m s => if String.eqb m n then Some s else acc
                      | _ => acc
                      end) tr acc
  = match last_status n tr with
    | Some s => Some s
    | None => acc
    end.
Proof.
  unfold last_status. revert acc.
  induction tr as [|e tr IH]; intros acc; simpl; [done|].
  rewrite IH. rewrite (IH (match e with EvStatus m s => _ | _ => None end)).
  destruct (fold_left _ tr None); [done|].
  destruct e; try done. by destruct (String.eqb _ _).
Qed.

Lemma last_status_app (n : string) (tr1 tr2 : list Event) :
  last_status n (app tr1 tr2) =
    match last_status n tr2 with
    | Some s => Some s
    | None => last_status n tr1
    end.
Proof.
  unfold last_status at 1. rewrite fold_left_app.
  fold (last_status n tr1). apply last_status_acc.
Qed.

Lemma last_status_cons (n : string) (e : Event) (tr : list Event) :
  last_status n (e :: tr) =
    match last_status n tr with
    | Some s => Some s
    | None => last_status n [e]
    end.
Proof. change (e :: tr) with (app [e] tr). apply last_status_app. Qed.

Lemma last_status_others (n : string) (who : option string) (evs : list Event) :
  Forall (λ e, ∀ m s, e = EvStatus m s → Some m = who) evs →
  Some n ≠ who → last_status n evs = None.
Proof.
  intros Hevs Hne. induction Hevs as [|e evs He _ IH]; [done|].
  change (e :: evs) with (app [e] evs). rewrite last_status_app, IH.
  destruct e; try done. unfold last_status. simpl.
  destruct (String.eqb_spec serverName n) as [-> | _]; [|done].
  by specialize (He _ _ eq_refl).
Qed.

Lemma last_status_published (n : string) (s : MCPServerStatus) (ls : list Listener) :
  last_status n (EvStatus n s :: map (λ l, EvNotify l n s) ls) = Some s.
Proof.
  change (EvStatus n s :: ?t) with (app [EvStatus n s] t).
  rewrite last_status_app.
  assert (last_status n (map (λ l, EvNotify l n s) ls) = None) as ->.
  { induction ls as [|l ls IH]; [done|]. simpl.
    change (EvNotify l n s :: ?t) with (app [EvNotify l n s] t).
    by rewrite last_status_app, IH. }
  unfold last_status. simpl. by rewrite String.eqb_refl.
Qed.

Lemma log_lines_eq (out : list ConsoleLine) (w : World) :
  log_lines out w =
    {| mcpServerStatusesInternal := mcpServerStatusesInternal w;
       mcpDiscoveryState := mcpDiscoveryState w;
       statusChangeListeners := statusChangeListeners w;
       toolRegistry_tools := toolRegistry_tools w;
       onerror_installed := onerror_installed w;
       trace := app (trace w) (map EvConsole out) |}.
Proof. unfold log_lines. apply fold_emit. Qed.

Lemma register_all_eq (tools : list DiscoveredMCPTool) (w : World) :
  register_all tools w =
    {| mcpServerStatusesInternal := mcpServerStatusesInternal w;
       mcpDiscoveryState := mcpDiscoveryState w;
       statusChangeListeners := statusChangeListeners w;
       toolRegistry_tools :=
         fold_left (λ m t, <[tool_name t := t]> m) tools (toolRegistry_tools w);
       onerror_installed := onerror_installed w;
       trace := app (trace w) (map EvRegister tools) |}.
Proof.
  unfold register_all. revert w.
  induction tools as [|t tools IH]; intros w; simpl.
  - rewrite app_nil_r. by destruct w.
  - rewrite IH. unfold registerTool, emit. simpl. by rewrite <- app_assoc.
Qed.

Lemma fold_insert_keeps (tools : list DiscoveredMCPTool)
    (m : gmap string DiscoveredMCPTool) (k : string) :
  is_Some (m !! k) →
  is_Some (fold_left (λ m t, <[tool_name t := t]> m) tools m !! k).
Proof.
  revert m. induction tools as [|t tools IH]; intros m Hk; simpl; [done|].
  apply IH. rewrite lookup_insert. by case_decide.
Qed.

Lemma fold_insert_has (tools : list DiscoveredMCPTool)
    (m : gmap string DiscoveredMCPTool) (t : DiscoveredMCPTool) :
  t ∈ tools →
  is_Some (fold_left (λ m t, <[tool_name t := t]> m) tools m !! tool_name t).
Proof.
  revert m. induction tools as [|t' tools IH]; intros m Hin; simpl.
  - by apply elem_of_nil in Hin.
  - apply elem_of_cons in Hin as [-> | Hin]; [|by apply IH].
    apply fold_insert_keeps. rewrite lookup_insert_eq. by eexists.
Qed.

Section Frames.

Variable new_URL : string → option URL.
Variable process_env : gmap string string.
Variable behaviour : string → ServerBehaviour.

Lemma extends_refl (who : option string) (w : World) : extends who w w.
Proof.
  split; [|done]. exists []. by rewrite app_nil_r.
Qed.

Lemma extends_trans (who : option string) (w1 w2 w3 : World) :
  extends who w1 w2 → extends who w2 w3 → extends who w1 w3.
Proof.
  intros ((evs1 & Ht1 & He1) & Hs1 & Hr1) ((evs2 & Ht2 & He2) & Hs2 & Hr2).
  split; [|split].
  - exists (app evs1 evs2). rewrite Ht2, Ht1, <- app_assoc. split; [done|].
    by apply Forall_app.
  - intros m Hm. by rewrite Hs2, Hs1.
  - intros k Hk. by apply Hr2, Hr1.
Qed.

Lemma extends_emit (who : option string) (e : Event) (w : World) :
  (∀ m s, e = EvStatus m s → Some m = who) → extends who w (emit e w).
Proof.
  intros He. split; [|done]. exists [e]. split; [done|]. by constructor.
Qed.

Lemma extends_update (name : string) (s : MCPServerStatus) (w : World) :
  extends (Some name) w (updateMCPServerStatus name s w).
Proof.
  rewrite updateMCPServerStatus_eq. split; [|split]; simpl.
  - eexists. split; [done|]. constructor; [by intros m s' [= -> _]|].
    apply Forall_forall. intros e Hin m s' ->.
    apply list_elem_of_In, in_map_iff in Hin as (l & Hl & _). discriminate Hl.
  - intros m Hm. apply lookup_insert_ne. congruence.
  - done.
Qed.

Lemma extends_log_lines (who : option string) (out : list ConsoleLine) (w : World) :
  extends who w (log_lines out w).
Proof.
  rewrite log_lines_eq. split; [|done]. simpl. eexists. split; [done|].
  apply Forall_forall. intros e Hin m s ->.
  apply list_elem_of_In, in_map_iff in Hin as (l & Hl & _). discriminate Hl.
Qed.

Lemma extends_register_all (who : option string) (tools : list DiscoveredMCPTool)
    (w : World) :
  extends who w (register_all tools w).
Proof.
  rewrite register_all_eq. split; [|split]; simpl.
  - eexists. split; [done|].
    apply Forall_forall. intros e Hin m s ->.
    apply list_elem_of_In, in_map_iff in Hin as (l & Hl & _). discriminate Hl.
  - done.
  - intros k Hk. by apply fold_insert_keeps.
Qed.

Lemma extends_install_onerror (who : option string) (name : string) (w : World) :
  extends who w (install_onerror name w).
Proof. split; [|done]. exists []. simpl. by rewrite app_nil_r. Qed.

Lemma extends_caught (name : string) (e : JsError) (w : World) :
  extends (Some name) w (caught name e w).
Proof.
  unfold caught. eapply extends_trans; [|apply extends_update].
  by apply extends_emit.
Qed.

Lemma extends_onerror_handler (name : string) (e : JsError) (w : World) :
  extends (Some name) w (onerror_handler name e w).
Proof.
  unfold onerror_handler. eapply extends_trans; [|apply extends_update].
  by apply extends_emit.
Qed.

Lemma extends_set_mcpDiscoveryState (s : MCPDiscoveryState) (w : World) :
  extends None w (set_mcpDiscoveryState s w).
Proof.
  split; [|done]. exists [EvDiscoveryState s]. split; [done|]. by constructor.
Qed.

Lemma extends_resume (name : string) (cfg : MCPServerConfig) (point : Suspended)
    (w : World) :
  extends (Some name) w (resume_segment behaviour name cfg point w).1.
Proof.
  destruct point as [r | t | e |].
  - rewrite resume_AwaitTransport. destruct r; simpl.
    + apply extends_caught.
    + by apply extends_emit.
  - rewrite resume_AwaitConnect. destruct (connect_result _); simpl.
    + by apply extends_emit.
    + eapply extends_trans; [apply extends_update|].
      eapply extends_trans; [apply extends_install_onerror|].
      by apply extends_emit.
  - rewrite resume_AwaitTransportClose. apply extends_caught.
  - rewrite resume_AwaitList. simpl.
    destruct (discoverTools _ _ _).2; simpl.
    + eapply extends_trans; [apply extends_log_lines|].
      eapply extends_trans; [|apply extends_caught]. by apply extends_emit.
    + eapply extends_trans; [apply extends_log_lines | apply extends_register_all].
Qed.

End Frames.

(** ** Pipelines keep their invariant *)

Section PipelineInvariant.

Variable new_URL : string → option URL.
Variable process_env : gmap string string.
Variable behaviour : string → ServerBehaviour.

Local Notation "'ok'" := (pipeline_ok new_URL process_env behaviour).
Local Notation "'failed'" := (failure_settled new_URL process_env behaviour).

Lemma registered_extends (who : option string) (tools : list DiscoveredMCPTool)
    (w w' : World) :
  extends who w w' → registered tools w → registered tools w'.
Proof.
  intros ((evs & Ht & _) & _ & Hr) Hreg t Hin.
  destruct (Hreg t Hin) as [Hev Hk]. split; [|by apply Hr].
  rewrite Ht. apply elem_of_app. by left.
Qed.

Lemma failed_extends (who : option string) (n : string) (cfg : MCPServerConfig)
    (w w' : World) :
  extends who w w' → Some n ≠ who → failed n cfg w → failed n cfg w'.
Proof.
  intros ((evs & Ht & Hevs) & Hs & _) Hne (Hst & Hlast & (detail & Hlog) & Hclose).
  split; [|split; [|split]].
  - by rewrite Hs.
  - by rewrite Ht, last_status_app, (last_status_others n who evs).
  - exists detail. rewrite Ht. apply elem_of_app. by left.
  - intros Htr Hco. destruct (Hclose Htr Hco) as (pre & post & Hpre & Hpost).
    exists pre, (app post evs). split.
    + by rewrite Ht, Hpre, <- app_assoc.
    + by rewrite last_status_app, (last_status_others n who evs).
Qed.

Lemma failed_republished (n : string) (cfg : MCPServerConfig) (w w1 : World) :
  extends (Some n) w w1 → failed n cfg w →
  failed n cfg (updateMCPServerStatus n DISCONNECTED w1).
Proof.
  intros ((evs & Ht & _) & _ & _) (_ & _ & (detail & Hlog) & Hclose).
  rewrite updateMCPServerStatus_eq.
  split; [|split; [|split]]; simpl.
  - apply lookup_insert_eq.
  - by rewrite last_status_app, last_status_published.
  - exists detail. rewrite Ht. apply elem_of_app. left. apply elem_of_app. by left.
  - intros Htr Hco. destruct (Hclose Htr Hco) as (pre & post & Hpre & _).
    eexists pre, _. split.
    + rewrite Ht, Hpre, <- !app_assoc. simpl. reflexivity.
    + by rewrite !last_status_app, last_status_published.
Qed.

Lemma failed_caught (n : string) (cfg : MCPServerConfig) (e : JsError) (w : World) :
  ((∃ t, createTransport new_URL process_env n cfg = inr t) →
   (∃ u, connect_result (behaviour n) = inr u) →
   ∃ pre post, trace w = app pre (EvClientClose n :: post)) →
  failed n cfg (caught n e w).
Proof.
  intros Hclose. unfold caught. rewrite updateMCPServerStatus_eq.
  split; [|split; [|split]]; simpl.
  - apply lookup_insert_eq.
  - by rewrite last_status_app, last_status_published.
  - eexists. apply elem_of_app. left. apply elem_of_app. right. left.
  - intros Htr Hco. destruct (Hclose Htr Hco) as (pre & post & Hpre).
    eexists pre, _. split.
    + rewrite Hpre, <- !app_assoc. simpl. reflexivity.
    + by rewrite last_status_app, last_status_cons, last_status_published.
Qed.

Lemma ok_pending (w w' : World) (q : Pipeline) (point : Suspended) :
  p_state q = Pending point → ok w q → ok w' q.
Proof. unfold pipeline_ok. intros ->. by destruct point. Qed.

Lemma ok_extends (who : option string) (w w' : World) (q : Pipeline) :
  extends who w w' → Some (p_name q) ≠ who → ok w q → ok w' q.
Proof.
  intros Hext Hne. unfold pipeline_ok.
  destruct (p_state q) as [point | |]; [by destruct point | | done].
  destruct (expected _ _ _ _ _).
  - by apply (failed_extends who).
  - by apply (registered_extends who).
Qed.

Lemma ok_fault (m : string) (e : JsError) (w : World) (q : Pipeline) :
  ok w q → ok (onerror_handler m e w) q.
Proof.
  intros Hok. destruct (decide (p_name q = m)) as [<- | Hne].
  - revert Hok. unfold pipeline_ok.
    destruct (p_state q) as [point | |]; [by destruct point | | done].
    destruct (expected _ _ _ _ _).
    + unfold onerror_handler. apply failed_republished; by apply extends_emit.
    + apply (registered_extends (Some (p_name q))). apply extends_onerror_handler.
  - apply (ok_extends (Some m) w); [apply extends_onerror_handler | congruence | done].
Qed.

Lemma registered_register_all (tools : list DiscoveredMCPTool) (w : World) :
  registered tools (register_all tools w).
Proof.
  intros t Hin. rewrite register_all_eq. simpl. split.
  - apply elem_of_app. right. apply list_elem_of_In, in_map, list_elem_of_In, Hin.
  - by apply fold_insert_has.
Qed.

Lemma ok_resume (w : World) (p : Pipeline) (point : Suspended) :
  p_state p = Pending point → ok w p →
  ok (resume_segment behaviour (p_name p) (p_config p) point w).1
     {| p_name := p_name p; p_config := p_config p;
        p_state := settle_of (resume_segment behaviour (p_name p) (p_config p) point w).2 |}.
Proof.
  intros Hst. unfold pipeline_ok at 1. rewrite Hst.
  destruct point as [r | t | e |].
  - intros ->. rewrite resume_AwaitTransport.
    destruct (createTransport _ _ _ _) as [e | t] eqn:Hct;
      unfold pipeline_ok; cbn [p_state p_name p_config settle_of fst snd].
    + unfold expected. rewrite Hct. apply failed_caught.
      intros (t & Ht) _. congruence.
    + done.
  - intros Hct. rewrite resume_AwaitConnect.
    destruct (connect_result _) as [e | u] eqn:Hco;
      unfold pipeline_ok; cbn [p_state p_name p_config settle_of fst snd].
    + split; [by eexists | done].
    + split; by eexists.
  - intros ((t & Hct) & Hco). rewrite resume_AwaitTransportClose.
    unfold pipeline_ok; cbn [p_state p_name p_config settle_of fst snd].
    unfold expected. rewrite Hct, Hco.
    apply failed_caught. intros _ (u & Hu). congruence.
  - intros ((t & Hct) & (u & Hco)). rewrite resume_AwaitList.
    cbv zeta. unfold pipeline_ok. unfold expected. 
    destruct (discoverTools _ _ _).2 as [e | tools] eqn:Hd;
      cbn [p_state p_name p_config settle_of fst snd]; rewrite Hct, Hco.
    + apply failed_caught. intros _ _. unfold emit. simpl. by eexists _, [].
    + apply registered_register_all.
Qed.

End PipelineInvariant.

(** ** Runs keep the invariant *)

Lemma sum_list_with_insert {A} (f : A → nat) (l : list A) (i : nat) (x y : A) :
  l !! i = Some x →
  (sum_list_with f (<[i := y]> l) + f x = sum_list_with f l + f y)%nat.
Proof.
  revert i. induction l as [|a l IH]; intros i Hi; [done|].
  destruct i as [|i]; simpl in *.
  - injection Hi as ->. lia.
  - specialize (IH i Hi). lia.
Qed.

Section RunInvariant.

Variable parse : string → gmap string string → list ParseEntry.
Variable new_URL : string → option URL.
Variable process_env : gmap string string.
Variable behaviour : string → ServerBehaviour.

Local Notation "'ok'" := (pipeline_ok new_URL process_env behaviour).
Local Notation "'sys_ok'" := (system_ok new_URL process_env behaviour).

Lemma launch_pipelines (entries : Servers) (w : World) :
  (launch new_URL process_env entries w).2 =
    map (λ nc, {| p_name := nc.1; p_config := nc.2;
                  p_state := Pending (AwaitTransport
                               (createTransport new_URL process_env nc.1 nc.2)) |})
        entries.
Proof.
  revert w. induction entries as [|[n c] entries IH]; intros w; simpl; [done|].
  by rewrite IH.
Qed.

Lemma discoverMcpTools_started (servers servers' : Servers) (cmd : option string)
    (w : World) :
  populateMcpServerCommand parse process_env servers cmd = inr servers' →
  sys_ok servers' (discoverMcpTools parse new_URL process_env servers cmd w)
  ∧ work (discoverMcpTools parse new_URL process_env servers cmd w)
    = (1 + 3 * length servers')%nat.
Proof.
  intros Hp. unfold discoverMcpTools. rewrite Hp. simpl.
  rewrite launch_pipelines. split.
  - split; [|split; [|done]]; simpl.
    + rewrite map_map. simpl. clear Hp.
      induction servers' as [|[n c] l IH]; simpl; [done|]. by rewrite IH.
    + apply Forall_forall. intros q Hq.
      apply list_elem_of_In, in_map_iff in Hq as ([n c] & <- & _).
      unfold pipeline_ok. done.
  - unfold work. simpl. f_equal. clear Hp.
    induction servers' as [|[n c] l IH]; [done|].
    cbn [map sum_list_with length]. rewrite IH. unfold remaining. simpl. lia.
Qed.

Lemma names_distinct (entries : Servers) (l : list Pipeline) (i j : nat)
    (p q : Pipeline) :
  NoDup (map fst entries) →
  map (λ p, (p_name p, p_config p)) l = entries →
  l !! i = Some p → l !! j = Some q → p_name p = p_name q → i = j.
Proof.
  intros Hnd <- Hi Hj Heq. rewrite map_map in Hnd. simpl in Hnd.
  apply (NoDup_lookup (map p_name l) i j (p_name p)); [done | |].
  - change (map p_name l) with (p_name <$> l). by rewrite list_lookup_fmap, Hi.
  - change (map p_name l) with (p_name <$> l). by rewrite list_lookup_fmap, Hj, Heq.
Qed.

Lemma no_rejection (w : World) (l : list Pipeline) :
  Forall (ok w) l → omap rejection l = [].
Proof.
  induction 1 as [|q l Hq _ IH]; [done|].
  assert (rejection q = None) as Hr.
  { unfold rejection. unfold pipeline_ok in Hq. by destruct (p_state q). }
  change (omap rejection (q :: l))
    with (match rejection q with
          | Some y => y :: omap rejection l
          | None => omap rejection l
          end).
  by rewrite Hr.
Qed.

Lemma all_fulfilled (l : list Pipeline) :
  forallb is_fulfilled l = true ↔ Forall (λ p, p_state p = Fulfilled) l.
Proof.
  rewrite forallb_forall, Forall_forall. split.
  - intros H q Hq%list_elem_of_In. specialize (H q Hq).
    unfold is_fulfilled in H. by destruct (p_state q).
  - intros H q Hq%list_elem_of_In. unfold is_fulfilled. by rewrite (H q Hq).
Qed.

Lemma step_system_ok (entries : Servers) (l : Label) (sys sys' : System) :
  NoDup (map fst entries) →
  sys_ok entries sys → step behaviour l sys = Some sys' → sys_ok entries sys'.
Proof.
  intros Hnd (Hmap & Hok & Hcall) Hstep.
  destruct l as [i | m e |]; simpl in Hstep.
  - destruct (discoveryPromises sys !! i) as [p|] eqn:Hi; [|done].
    destruct (p_state p) as [point | |] eqn:Hst; [|done|done].
    injection Hstep as <-. split; [|split]; simpl.
    + change (map ?f ?l) with (f <$> l). rewrite list_fmap_insert. simpl.
      rewrite list_insert_id; [done|].
      by rewrite list_lookup_fmap, Hi.
    + apply Forall_insert;
        [|apply ok_resume; [done | by apply (Forall_lookup_1 _ _ i p Hok)]].
      apply Forall_lookup. intros j q Hj.
      rewrite Forall_lookup in Hok. specialize (Hok j q Hj).
      destruct (p_state q) as [point' | |] eqn:Hq.
      * by apply (ok_pending _ _ _ (world sys) _ q point').
      * apply (ok_extends _ _ _ (Some (p_name p)) (world sys)); [|..|done].
        -- apply extends_resume.
        -- intros [= Heq]. 
           assert (j = i) as -> by by eapply names_distinct.
           congruence.
      * unfold pipeline_ok in Hok. by rewrite Hq in Hok.
    + destruct (call sys); [done | | done].
      destruct Hcall as [_ Hall]. rewrite Forall_lookup in Hall.
      specialize (Hall i p Hi). congruence.
  - destruct (decide _); [|done]. injection Hstep as <-.
    split; [done | split]; simpl.
    + eapply Forall_impl; [exact Hok|]. intros q. apply ok_fault.
    + destruct (call sys); [done | | done].
      destruct Hcall as [Hd Hall]. split; [|done].
      unfold onerror_handler. by rewrite updateMCPServerStatus_eq.
  - destruct (call sys) eqn:Hc; [|done|done].
    destruct (promise_all (discoveryPromises sys)) as [r|] eqn:Hall; [|done].
    injection Hstep as <-. unfold promise_all in Hall.
    rewrite (no_rejection _ _ Hok) in Hall.
    destruct (forallb is_fulfilled (discoveryPromises sys)) eqn:Hf; [|done].
    injection Hall as <-. split; [done | split]; simpl.
    + eapply Forall_impl; [exact Hok|]. intros q Hq.
      apply (ok_extends _ _ _ None (world sys)); [|done|done].
      apply extends_set_mcpDiscoveryState.
    + split; [done | by apply all_fulfilled].
Qed.

Lemma run_system_ok (entries : Servers) (ls : list Label) (sys sys' : System) :
  NoDup (map fst entries) →
  sys_ok entries sys → run behaviour ls sys = Some sys' → sys_ok entries sys'.
Proof.
  intros Hnd. revert sys. induction ls as [|l ls IH]; intros sys Hok Hrun; simpl in Hrun.
  - by injection Hrun as <-.
  - destruct (step behaviour l sys) as [sys1|] eqn:Hstep; [|done].
    apply (IH sys1); [|done]. by eapply step_system_ok.
Qed.

Lemma resume_remaining (p : Pipeline) (point : Suspended) (w : World) :
  p_state p = Pending point →
  (remaining {| p_name := p_name p; p_config := p_config p;
                p_state := settle_of
                  (resume_segment behaviour (p_name p) (p_config p) point w).2 |}
   < remaining p)%nat.
Proof.
  intros Hst. unfold remaining at 2. rewrite Hst. unfold remaining.
  cbn [p_state]. destruct point as [r | t | e |].
  - rewrite resume_AwaitTransport. destruct r; simpl; lia.
  - rewrite resume_AwaitConnect. destruct (connect_result _); simpl; lia.
  - rewrite resume_AwaitTransportClose. simpl. lia.
  - rewrite resume_AwaitList. cbv zeta. destruct (discoverTools _ _ _).2; simpl; lia.
Qed.

Lemma step_work (l : Label) (sys sys' : System) :
  step behaviour l sys = Some sys' →
  (work sys' + (if is_fault l then 0 else 1) ≤ work sys)%nat.
Proof.
  intros Hstep. destruct l as [i | m e |]; simpl in Hstep.
  - destruct (discoveryPromises sys !! i) as [p|] eqn:Hi; [|done].
    destruct (p_state p) as [point | |] eqn:Hst; [|done|done].
    injection Hstep as <-. unfold work. simpl.
    pose proof (sum_list_with_insert remaining (discoveryPromises sys) i p
                  {| p_name := p_name p; p_config := p_config p;
                     p_state := settle_of
                       (resume_segment behaviour (p_name p) (p_config p) point
                          (world sys)).2 |} Hi) as Hsum.
    pose proof (resume_remaining p point (world sys) Hst) as Hlt.
    lia.
  - destruct (decide _); [|done]. injection Hstep as <-. unfold work. simpl. lia.
  - destruct (call sys) eqn:Hc; [|done|done].
    destruct (promise_all (discoveryPromises sys)) as [r|]; [|done].
    injection Hstep as <-. unfold work. rewrite Hc. simpl. destruct r; lia.
Qed.

Lemma run_work (ls : list Label) (sys sys' : System) :
  run behaviour ls sys = Some sys' →
  (work sys' + progress_steps ls ≤ work sys)%nat.
Proof.
  revert sys. induction ls as [|l ls IH]; intros sys Hrun; simpl in Hrun.
  - injection Hrun as <-. unfold progress_steps. simpl. lia.
  - destruct (step behaviour l sys) as [sys1|] eqn:Hstep; [|done].
    specialize (IH sys1 Hrun). apply step_work in Hstep.
    unfold progress_steps in *. simpl. destruct (is_fault l); simpl in *; lia.
Qed.

Lemma settle_enabled (entries : Servers) (sys : System) :
  sys_ok entries sys → call sys = CallPending →
  is_Some (step behaviour Settle sys)
  ↔ Forall (λ p, p_state p = Fulfilled) (discoveryPromises sys).
Proof.
  intros (_ & Hok & _) Hc. simpl. rewrite Hc. unfold promise_all.
  rewrite (no_rejection _ _ Hok), <- all_fulfilled.
  destruct (forallb is_fulfilled (discoveryPromises sys)).
  - split; [done | by eexists].
  - split; [by intros [? ?] | done].
Qed.

Lemma never_stuck (entries : Servers) (sys : System) :
  sys_ok entries sys → call sys = CallPending →
  ∃ l, is_fault l = false ∧ is_Some (step behaviour l sys).
Proof.
  intros Hsys Hc. destruct (existsb is_pending (discoveryPromises sys)) eqn:Hp.
  - apply existsb_exists in Hp as (p & Hin & Hp).
    apply list_elem_of_In, list_elem_of_lookup in Hin as (i & Hi).
    exists (Resume i). split; [done|]. simpl. rewrite Hi.
    unfold is_pending in Hp. destruct (p_state p); [by eexists | done | done].
  - exists Settle. split; [done|].
    apply (settle_enabled entries sys Hsys Hc).
    destruct Hsys as (_ & Hok & _).
    apply Forall_forall. intros p Hin.
    assert (is_pending p = false) as Hnp.
    { apply not_true_is_false. intros Hpt.
      assert (existsb is_pending (discoveryPromises sys) = true); [|congruence].
      apply existsb_exists. exists p. split; [by apply list_elem_of_In | done]. }
    rewrite Forall_forall in Hok. specialize (Hok p Hin).
    unfold is_pending in Hnp. unfold pipeline_ok in Hok.
    by destruct (p_state p).
Qed.

End RunInvariant.

(** ** The transport factory: precedence of the selectors *)

Example createTransport_search :
  createTransport example_URL example_env "search" search_config
  = inr (SSEClientTransport {| href := "http://localhost:8080/sse" |}
           {| requestInit := None |}).
Proof. reflexivity. Qed.

Example createTransport_no_selector :
  createTransport example_URL example_env "none" no_config
  = inl missing_selector_error.
Proof. reflexivity. Qed.

(** C4.  [createTransport] looks at [httpUrl] first, then [url], then
    [command], a selector counting when it is a non-empty string: the first
    one that counts fixes the kind of transport, whatever the later ones
    hold.  With none of the three it fails with the configuration error,
    and the pipeline of such a server ends without a connect or a request
    having been issued. *)
Theorem createTransport_precedence (new_URL : string → option URL)
    (process_env : gmap string string) (behaviour : string → ServerBehaviour)
    (srv : string) (cfg : MCPServerConfig) (w : World) :
  (truthy (httpUrl cfg) = true →
   createTransport new_URL process_env srv cfg =
     match new_URL (default "" (httpUrl cfg)) with
     | Some u => inr (StreamableHTTPClientTransport u (transportOptions_of cfg))
     | None => inl invalid_URL_error
     end)
  ∧ (truthy (httpUrl cfg) = false → truthy (url cfg) = true →
     createTransport new_URL process_env srv cfg =
       match new_URL (default "" (url cfg)) with
       | Some u => inr (SSEClientTransport u (transportOptions_of cfg))
       | None => inl invalid_URL_error
       end)
  ∧ (truthy (httpUrl cfg) = false → truthy (url cfg) = false →
     truthy (command cfg) = true →
     ∃ params, createTransport new_URL process_env srv cfg
               = inr (StdioClientTransport params)
               ∧ sp_command params = default "" (command cfg))
  ∧ (∀ t, createTransport new_URL process_env srv cfg = inr t →
          transport_kind t =
            if truthy (httpUrl cfg) then StreamableHTTP
            else if truthy (url cfg) then SSE
            else Stdio)
  ∧ (createTransport new_URL process_env srv cfg = inl missing_selector_error
     ↔ truthy (httpUrl cfg) = false ∧ truthy (url cfg) = false
       ∧ truthy (command cfg) = false)
  ∧ (httpUrl cfg = None → url cfg = None → command cfg = None →
     createTransport new_URL process_env srv cfg = inl missing_selector_error
     ∧ ∃ evs,
         resume_segment behaviour srv cfg
           (AwaitTransport (createTransport new_URL process_env srv cfg)) w
         = (caught srv (connection_error srv missing_selector_error) w, inr Return)
         ∧ trace (caught srv (connection_error srv missing_selector_error) w)
           = app (trace w) evs
         ∧ Forall (λ e, reaches_server e = false) evs).
Proof.
  split; [apply createTransport_httpUrl|].
  split; [apply createTransport_url|].
  split.
  { intros H1 H2 H3. eexists. split; [by apply createTransport_command | done]. }
  split; [apply createTransport_kind|].
  split; [apply createTransport_missing_iff|].
  intros H1 H2 H3.
  assert (createTransport new_URL process_env srv cfg = inl missing_selector_error)
    as Hct by (apply createTransport_none; by rewrite ?H1, ?H2, ?H3).
  split; [done|]. rewrite Hct, resume_AwaitTransport.
  unfold caught. rewrite updateMCPServerStatus_eq. simpl.
  eexists. split; [done|]. split; [by rewrite <- app_assoc|].
  simpl. constructor; [done|]. constructor; [done|].
  apply Forall_forall. intros e Hin.
  apply list_elem_of_In, in_map_iff in Hin as (l & <- & _). done.
Qed.

(** ** The orchestrator *)

Section Orchestration.

Variable parse : string → gmap string string → list ParseEntry.
Variable new_URL : string → option URL.
Variable process_env : gmap string string.
Variable behaviour : string → ServerBehaviour.

Lemma reachable_ok (servers servers' : Servers) (cmd : option string) (w : World)
    (ls : list Label) (sys : System) :
  well_formed servers = true →
  populateMcpServerCommand parse process_env servers cmd = inr servers' →
  run behaviour ls (discoverMcpTools parse new_URL process_env servers cmd w) = Some sys →
  system_ok new_URL process_env behaviour servers' sys.
Proof.
  intros Hwf Hp Hrun.
  apply (run_system_ok new_URL process_env behaviour servers' ls
           (discoverMcpTools parse new_URL process_env servers cmd w)); [| |done].
  - apply keys_unique_NoDup.
    by apply (populateMcpServerCommand_well_formed parse process_env servers servers' cmd).
  - by apply discoverMcpTools_started.
Qed.

Lemma settled_pipeline (entries : Servers) (sys : System) (name : string)
    (cfg : MCPServerConfig) :
  system_ok new_URL process_env behaviour entries sys →
  (name, cfg) ∈ entries →
  ∃ i p, discoveryPromises sys !! i = Some p ∧ p_name p = name ∧ p_config p = cfg
         ∧ pipeline_ok new_URL process_env behaviour (world sys) p.
Proof.
  intros (Hmap & Hok & _) Hin. rewrite <- Hmap in Hin.
  apply list_elem_of_In, in_map_iff in Hin as (p & [= Hn Hc] & Hp).
  apply list_elem_of_In, list_elem_of_lookup in Hp as (i & Hi).
  exists i, p. split; [done|]. split; [done|]. split; [done|].
  by apply (Forall_lookup_1 _ _ i p Hok).
Qed.

(** With listeners that only observe: whatever the servers answer and
    however their pipelines are
    interleaved (asynchronous faults included), a call of
    [discoverMcpTools] whose ad-hoc command was accepted is never rejected
    and none of its pipelines is: the call needs at most three resumptions
    per server and one continuation, it can always take a next step while
    it is pending, and its continuation is enabled exactly when every
    pipeline is fulfilled.  Once it has resolved, the discovery state is
    ['completed']; a server whose connect or discovery failed has status
    ['disconnected'] and an error line on the console; and every tool of a
    server that connected and listed tools went through [registerTool] and
    has its name in the registry.  Whatever a pending pipeline does next, it
    publishes statuses under its own server's name only and leaves the
    status of every other server and the names in the registry in place. *)
Lemma run_isolates_failures (servers servers' : Servers)
    (cmd : option string) (w : World) (ls : list Label) (sys : System) :
  well_formed servers = true →
  populateMcpServerCommand parse process_env servers cmd = inr servers' →
  run behaviour ls (discoverMcpTools parse new_URL process_env servers cmd w) = Some sys →
  (∀ e, call sys ≠ CallRejected e)
  ∧ Forall (λ p, ∀ e, p_state p ≠ Rejected e) (discoveryPromises sys)
  ∧ (progress_steps ls ≤ 1 + 3 * length servers')%nat
  ∧ (call sys = CallPending →
     ∃ l, is_fault l = false ∧ is_Some (step behaviour l sys))
  ∧ (call sys = CallPending →
     (is_Some (step behaviour Settle sys)
      ↔ Forall (λ p, p_state p = Fulfilled) (discoveryPromises sys)))
  ∧ (call sys = CallResolved →
     mcpDiscoveryState (world sys) = COMPLETED
     ∧ ∀ name cfg, (name, cfg) ∈ servers' →
         match expected new_URL process_env behaviour name cfg with
         | inl _ =>
             getMCPServerStatus name (world sys) = DISCONNECTED
             ∧ ∃ detail,
                 EvConsole (ConsoleError ("Error connecting to MCP server '" +:+ name
                                          +:+ "': " +:+ detail)) ∈ trace (world sys)
         | inr tools =>
             ∀ t, t ∈ tools →
                  EvRegister t ∈ trace (world sys)
                  ∧ is_Some (toolRegistry_tools (world sys) !! tool_name t)
         end)
  ∧ (∀ i p point,
       discoveryPromises sys !! i = Some p → p_state p = Pending point →
       extends (Some (p_name p)) (world sys)
         (resume_segment behaviour (p_name p) (p_config p) point (world sys)).1).
Proof.
  intros Hwf Hp Hrun.
  pose proof (reachable_ok servers servers' cmd w ls sys Hwf Hp Hrun) as Hsys.
  split; [|split; [|split; [|split; [|split; [|split]]]]];
    [| | | | | |intros i p point _ _; apply extends_resume].
  - intros e He. destruct Hsys as (_ & _ & Hc). by rewrite He in Hc.
  - destruct Hsys as (_ & Hok & _). eapply Forall_impl; [exact Hok|].
    intros p Hpo e He. unfold pipeline_ok in Hpo. by rewrite He in Hpo.
  - pose proof (run_work behaviour ls _ _ Hrun) as Hw.
    destruct (discoverMcpTools_started parse new_URL process_env behaviour
                servers servers' cmd w Hp) as [_ Hstart].
    lia.
  - by apply (never_stuck new_URL process_env behaviour servers').
  - by apply (settle_enabled new_URL process_env behaviour servers').
  - intros Hc. pose proof Hsys as (_ & _ & Hcall). rewrite Hc in Hcall.
    destruct Hcall as [Hd Hall]. split; [done|]. intros name cfg Hin.
    destruct (settled_pipeline servers' sys name cfg Hsys Hin)
      as (i & p & Hi & <- & <- & Hpo).
    unfold pipeline_ok in Hpo.
    rewrite (Forall_lookup_1 _ _ i p Hall Hi) in Hpo.
    destruct (expected _ _ _ _ _); [|done].
    destruct Hpo as (Hst & _ & Hlog & _). split; [|done].
    unfold getMCPServerStatus. by rewrite Hst.
Qed.


(** C10.  When the ad-hoc command is supplied and one of its tokens is not
    a string, [discoverMcpTools] sets the discovery state to
    ['in_progress'], then to ['completed'], and is rejected with the
    tokenization error: nothing else is written to the trace, no status is
    published, no pipeline exists to be resumed, and the call has no
    continuation left to run. *)
Theorem discoverMcpTools_tokenization_failure (servers : Servers) (cmd : string)
    (w : World) :
  cmd ≠ "" →
  forallb is_string (parse cmd process_env) = false →
  let sys := discoverMcpTools parse new_URL process_env servers (Some cmd) w in
  call sys = CallRejected (new_Error ("failed to parse mcpServerCommand: " +:+ cmd))
  ∧ trace (world sys)
    = app (trace w) [EvDiscoveryState IN_PROGRESS; EvDiscoveryState COMPLETED]
  ∧ mcpDiscoveryState (world sys) = COMPLETED
  ∧ mcpServerStatusesInternal (world sys) = mcpServerStatusesInternal w
  ∧ toolRegistry_tools (world sys) = toolRegistry_tools w
  ∧ discoveryPromises sys = []
  ∧ (∀ i, step behaviour (Resume i) sys = None)
  ∧ step behaviour Settle sys = None.
Proof.
  intros Hne Htok sys. subst sys. unfold discoverMcpTools.
  rewrite (populateMcpServerCommand_supplied parse process_env servers cmd Hne), Htok.
  simpl. rewrite <- app_assoc. done.
Qed.

End Orchestration.

(** ** The theorems at the sample servers *)


Lemma discoverMcpTools_tokenization_failure_witness :
  "node server.js | tee log" ≠ ""
  ∧ forallb is_string (example_parse "node server.js | tee log" example_env) = false
  ∧ call (discoverMcpTools example_parse example_URL example_env example_servers
            (Some "node server.js | tee log") initial_world)
    = CallRejected
        (new_Error "failed to parse mcpServerCommand: node server.js | tee log")
  ∧ trace (world (discoverMcpTools example_parse example_URL example_env
                    example_servers (Some "node server.js | tee log") initial_world))
    = [EvDiscoveryState IN_PROGRESS; EvDiscoveryState COMPLETED].
Proof.
  assert ("node server.js | tee log" ≠ "") as Hne by discriminate.
  assert (forallb is_string (example_parse "node server.js | tee log" example_env)
          = false) as Htok by reflexivity.
  split; [exact Hne|]. split; [exact Htok|].
  destruct (discoverMcpTools_tokenization_failure example_parse example_URL
              example_env example_behaviour example_servers
              "node server.js | tee log" initial_world Hne Htok)
    as (H1 & H2 & _).
  split; [exact H1 | exact H2].
Defined.

(** * Further properties *)

(** ** Subscriptions *)

Lemma delivered_notifications (l : Listener) (n : string) (s : MCPServerStatus)
    (ls : list Listener) :
  delivered l (map (λ l', EvNotify l' n s) ls)
  = replicate (length (List.filter (Nat.eqb l) ls)) (n, s).
Proof.
  induction ls as [|l' ls IH]; [done|]. simpl.
  rewrite (Nat.eqb_sym l l'). destruct (Nat.eqb l' l); simpl; by rewrite IH.
Qed.

Lemma remove_first_absent (l : Listener) (ls : list Listener) :
  l ∉ ls → remove_first l ls = ls.
Proof.
  induction ls as [|x ls IH]; intros Hl; [done|]. simpl.
  apply not_elem_of_cons in Hl as [Hne Hl].
  destruct (Nat.eqb_spec x l) as [-> | _]; [done|]. by rewrite IH.
Qed.

Lemma remove_first_count (l l' : Listener) (ls : list Listener) :
  length (List.filter (Nat.eqb l') (remove_first l ls))
  = if decide (l' = l)
    then pred (length (List.filter (Nat.eqb l') ls))
    else length (List.filter (Nat.eqb l') ls).
Proof.
  induction ls as [|x ls IH]; simpl.
  - by case_decide.
  - destruct (Nat.eqb_spec x l) as [-> | Hx].
    + case_decide as Hl.
      * subst l'. by rewrite Nat.eqb_refl.
      * by destruct (Nat.eqb_spec l' l).
    + simpl. destruct (Nat.eqb_spec l' x) as [-> | Hl']; simpl; rewrite IH.
      * by rewrite !decide_False by done.
      * done.
Qed.

Lemma remove_first_others (l : Listener) (ls : list Listener) :
  List.filter (λ x, negb (Nat.eqb x l)) (remove_first l ls)
  = List.filter (λ x, negb (Nat.eqb x l)) ls.
Proof.
  induction ls as [|x ls IH]; [done|]. simpl.
  destruct (Nat.eqb_spec x l) as [-> | Hx]; simpl.
  - done.
  - destruct (Nat.eqb_spec x l); [done|]. simpl. by rewrite IH.
Qed.

Lemma remove_first_app_fresh (l : Listener) (ls : list Listener) :
  l ∉ ls → remove_first l (app ls [l]) = ls.
Proof.
  induction ls as [|x ls IH]; intros Hl; simpl.
  - by rewrite Nat.eqb_refl.
  - apply not_elem_of_cons in Hl as [Hne Hl].
    destruct (Nat.eqb_spec x l) as [-> | _]; [done|]. by rewrite IH.
Qed.

(** ** The status map, the registry and the trace *)

Lemma registrations_app (tr1 tr2 : list Event) :
  registrations (app tr1 tr2) = app (registrations tr1) (registrations tr2).
Proof. apply omap_app. Qed.

Lemma replay_app (ts1 ts2 : list DiscoveredMCPTool)
    (m : gmap string DiscoveredMCPTool) :
  replay (app ts1 ts2) m = replay ts2 (replay ts1 m).
Proof. apply fold_left_app. Qed.

Lemma last_status_quiet (n : string) (evs : list Event) :
  Forall (λ e, ∀ m s, e ≠ EvStatus m s) evs → last_status n evs = None.
Proof.
  intros H. apply (last_status_others n None); [|done].
  eapply Forall_impl; [exact H|]. intros e He m s ->. by destruct (He m s).
Qed.

Lemma registrations_quiet (evs : list Event) :
  Forall (λ e, ∀ t, e ≠ EvRegister t) evs → registrations evs = [].
Proof.
  induction 1 as [|e evs He _ IH]; [done|].
  change (e :: evs) with (app [e] evs). rewrite registrations_app, IH.
  destruct e; try done. by destruct (He tool).
Qed.

Lemma evolved_refl (w : World) : evolved w w.
Proof. exists []. by rewrite app_nil_r. Qed.

Lemma evolved_trans (w0 w1 w2 : World) :
  evolved w0 w1 → evolved w1 w2 → evolved w0 w2.
Proof.
  intros (evs1 & Ht1 & Hs1 & Hr1 & Hl1) (evs2 & Ht2 & Hs2 & Hr2 & Hl2).
  exists (app evs1 evs2). split; [|split; [|split]].
  - by rewrite Ht2, Ht1, <- app_assoc.
  - intros n. rewrite Hs2, last_status_app, Hs1.
    by destruct (last_status n evs2).
  - by rewrite Hr2, Hr1, registrations_app, replay_app.
  - by rewrite Hl2.
Qed.

Lemma evolved_emit (e : Event) (w : World) :
  (∀ m s, e ≠ EvStatus m s) → (∀ t, e ≠ EvRegister t) → evolved w (emit e w).
Proof.
  intros Hs Hr. exists [e]. split; [done|]. split; [|split; [|done]].
  - intros n. by rewrite last_status_quiet by (by constructor).
  - by rewrite registrations_quiet by (by constructor).
Qed.

Lemma evolved_update (n : string) (s : MCPServerStatus) (w : World) :
  evolved w (updateMCPServerStatus n s w).
Proof.
  rewrite updateMCPServerStatus_eq. eexists. split; [done|].
  split; [|split; [|done]].
  - intros m. simpl. rewrite lookup_insert. case_decide as Hm.
    + subst m. by rewrite last_status_published.
    + rewrite (last_status_others m (Some n)); [done| |congruence].
      constructor; [by intros ? ? [= -> _]|].
      apply Forall_forall. intros e Hin ? ? ->.
      apply list_elem_of_In, in_map_iff in Hin as (l & Hl & _). discriminate Hl.
  - rewrite registrations_quiet; [done|]. constructor; [done|].
    apply Forall_forall. intros e Hin t ->.
    apply list_elem_of_In, in_map_iff in Hin as (l & Hl & _). discriminate Hl.
Qed.

Lemma evolved_log_lines (out : list ConsoleLine) (w : World) :
  evolved w (log_lines out w).
Proof.
  rewrite log_lines_eq. eexists. split; [done|].
  assert (∀ P : Event → Prop, (∀ line, P (EvConsole line)) →
          Forall P (map EvConsole out)) as Hall.
  { intros P HP. apply Forall_forall. intros e Hin.
    apply list_elem_of_In, in_map_iff in Hin as (l & <- & _). apply HP. }
  split; [|split; [|done]].
  - intros n. rewrite last_status_quiet; [done|]. by apply Hall.
  - rewrite registrations_quiet; [done|]. by apply Hall.
Qed.

Lemma registrations_registered (tools : list DiscoveredMCPTool) :
  registrations (map EvRegister tools) = tools.
Proof. induction tools as [|t tools IH]; [done|]. simpl. by rewrite IH. Qed.

Lemma evolved_register_all (tools : list DiscoveredMCPTool) (w : World) :
  evolved w (register_all tools w).
Proof.
  rewrite register_all_eq. eexists. split; [done|].
  split; [|split; [|done]].
  - intros n. rewrite last_status_quiet; [done|].
    apply Forall_forall. intros e Hin ? ? ->.
    apply list_elem_of_In, in_map_iff in Hin as (l & Hl & _). discriminate Hl.
  - by rewrite registrations_registered.
Qed.

Lemma evolved_install_onerror (name : string) (w : World) :
  evolved w (install_onerror name w).
Proof. exists []. simpl. by rewrite app_nil_r. Qed.

Lemma evolved_set_mcpDiscoveryState (s : MCPDiscoveryState) (w : World) :
  evolved w (set_mcpDiscoveryState s w).
Proof.
  exists [EvDiscoveryState s]. split; [done|]. split; [|done].
  intros n. by rewrite last_status_quiet by (by constructor).
Qed.

Lemma evolved_caught (name : string) (e : JsError) (w : World) :
  evolved w (caught name e w).
Proof.
  unfold caught. eapply evolved_trans; [|apply evolved_update].
  by apply evolved_emit.
Qed.

Lemma evolved_onerror_handler (name : string) (e : JsError) (w : World) :
  evolved w (onerror_handler name e w).
Proof.
  unfold onerror_handler. eapply evolved_trans; [|apply evolved_update].
  by apply evolved_emit.
Qed.

Section Evolution.

Variable parse : string → gmap string string → list ParseEntry.
Variable new_URL : string → option URL.
Variable process_env : gmap string string.
Variable behaviour : string → ServerBehaviour.

Lemma evolved_resume (name : string) (cfg : MCPServerConfig) (point : Suspended)
    (w : World) :
  evolved w (resume_segment behaviour name cfg point w).1.
Proof.
  destruct point as [r | t | e |].
  - rewrite resume_AwaitTransport. destruct r; simpl.
    + apply evolved_caught.
    + by apply evolved_emit.
  - rewrite resume_AwaitConnect. destruct (connect_result _); simpl.
    + by apply evolved_emit.
    + eapply evolved_trans; [apply evolved_update|].
      eapply evolved_trans; [apply evolved_install_onerror|].
      by apply evolved_emit.
  - rewrite resume_AwaitTransportClose. apply evolved_caught.
  - rewrite resume_AwaitList. simpl.
    destruct (discoverTools _ _ _).2; simpl.
    + eapply evolved_trans; [apply evolved_log_lines|].
      eapply evolved_trans; [|apply evolved_caught]. by apply evolved_emit.
    + eapply evolved_trans; [apply evolved_log_lines | apply evolved_register_all].
Qed.

Lemma evolved_launch (entries : Servers) (w : World) :
  evolved w (launch new_URL process_env entries w).1.
Proof.
  revert w. induction entries as [|[n c] entries IH]; intros w; simpl.
  - apply evolved_refl.
  - eapply evolved_trans; [|apply IH]. unfold connectAndDiscover. simpl.
    apply evolved_update.
Qed.

Lemma evolved_start (servers : Servers) (cmd : option string) (w : World) :
  evolved w (world (discoverMcpTools parse new_URL process_env servers cmd w)).
Proof.
  unfold discoverMcpTools.
  destruct (populateMcpServerCommand _ _ _ _); simpl.
  - eapply evolved_trans; apply evolved_set_mcpDiscoveryState.
  - eapply evolved_trans; [apply evolved_set_mcpDiscoveryState | apply evolved_launch].
Qed.

Lemma evolved_step (l : Label) (sys sys' : System) :
  step behaviour l sys = Some sys' → evolved (world sys) (world sys').
Proof.
  intros Hstep. destruct l as [i | m e |]; simpl in Hstep.
  - destruct (discoveryPromises sys !! i) as [p|]; [|done].
    destruct (p_state p); [|done|done]. injection Hstep as <-. simpl.
    apply evolved_resume.
  - destruct (decide _); [|done]. injection Hstep as <-. simpl.
    apply evolved_onerror_handler.
  - destruct (call sys); [|done|done].
    destruct (promise_all _); [|done]. injection Hstep as <-. simpl.
    apply evolved_set_mcpDiscoveryState.
Qed.

Lemma evolved_run (ls : list Label) (sys0 sys : System) :
  run behaviour ls sys0 = Some sys → evolved (world sys0) (world sys).
Proof.
  revert sys0. induction ls as [|l ls IH]; intros sys0 Hrun; simpl in Hrun.
  - injection Hrun as <-. apply evolved_refl.
  - destruct (step behaviour l sys0) as [sys1|] eqn:Hstep; [|done].
    eapply evolved_trans; [by eapply evolved_step | by apply IH].
Qed.


End Evolution.


(** ** Reading a status back *)

Lemma last_set_acc (x : string) (ops : list RegistryOp) (acc : option MCPServerStatus) :
  fold_left (λ acc op, match op with
                       | OpSet n s => if String.eqb n x then Some s else acc
                       | _ => acc
                       end) ops acc
  = match last_set x ops with
    | Some s => Some s
    | None => acc
    end.
Proof.
  unfold last_set. revert acc.
  induction ops as [|op ops IH]; intros acc; simpl; [done|].
  rewrite IH. rewrite (IH (match op with OpSet n s => _ | _ => None end)).
  destruct (fold_left _ ops None); [done|].
  destruct op; try done. by destruct (String.eqb _ _).
Qed.

(** X3.  After any sequence of subscriptions, removals and [set]s, the
    status read for a name is the one of the most recent [set] for that very
    name; when the sequence has none, it is the status read before the
    sequence, which for a fresh registry is ['disconnected'].  Subscribing
    and unsubscribing never change what is read. *)
Theorem getMCPServerStatus_last_set (ops : list RegistryOp) (w : World) (x : string) :
  getMCPServerStatus x (apply_ops ops w)
  = match last_set x ops with
    | Some s => s
    | None => getMCPServerStatus x w
    end.
Proof.
  revert w. induction ops as [|op ops IH]; intros w; [done|].
  change (apply_ops (op :: ops) w) with (apply_ops ops (apply_op w op)).
  rewrite IH. unfold last_set at 2. simpl. rewrite last_set_acc.
  destruct (last_set x ops); [done|].
  destruct op as [l | l | n s]; simpl; [done | done |].
  rewrite getMCPServerStatus_update.
  destruct (String.eqb_spec n x) as [-> | Hne].
  - by rewrite decide_True.
  - by rewrite decide_False.
Qed.

Example getMCPServerStatus_after_ops :
  map (λ x, getMCPServerStatus x
              (apply_ops [OpSet "a" CONNECTING; OpSubscribe 1%nat; OpSet "b" CONNECTING;
                          OpSet "a" CONNECTED; OpUnsubscribe 1%nat; OpSet "b" DISCONNECTED]
                 initial_world))
      ["a"; "b"; "c"]
  = [CONNECTED; DISCONNECTED; DISCONNECTED].
Proof. reflexivity. Qed.

(** ** What discovery returns *)

Lemma keeps_accepts (srv : string) (cfg : MCPServerConfig) (f : FunctionDeclaration) :
  keeps srv cfg f = true →
  ∃ n, fd_name f = Some n ∧ n ≠ ""
       ∧ (∀ ex, excludeTools cfg = Some ex → n ∉ ex)
       ∧ (includeTools cfg = None
          ∨ ∃ inc tool, includeTools cfg = Some inc ∧ tool ∈ inc
                        ∧ (tool = n ∨ startsWith tool (n +:+ "(") = true)).
Proof.
  unfold keeps. intros Hk. destruct (truthy (fd_name f)) eqn:Ht.
  - apply truthy_Some in Ht as (n & Hn & Hne).
    rewrite (isEnabled_named f srv n cfg Hn Hne) in Hk. simpl in Hk.
    apply andb_true_iff in Hk as [Hex Hinc]. apply negb_true_iff in Hex.
    exists n. split; [done|]. split; [done|]. split.
    + intros ex Heq. rewrite Heq in Hex.
      intros Hin%Array_includes_elem_of. congruence.
    + destruct (includeTools cfg) as [inc|]; [right | by left].
      apply Array_some_exists in Hinc as (tool & Hin & Hm).
      exists inc, tool. split; [done|]. split; [done|].
      apply orb_true_iff in Hm as [Heq%String.eqb_eq | Hp]; auto.
  - by rewrite (isEnabled_nameless f srv cfg Ht) in Hk.
Qed.

(** X4.  Every tool [discoverTools] returns comes from a declaration the
    server listed, has a non-empty name that is not in [excludeTools] and,
    when [includeTools] is given, matches one of its entries, carries the
    server's name, and has the descriptor's timeout or the default; the
    list returned is never empty and never longer than the server's list;
    and the console gets exactly one warning for each listed declaration
    whose name is missing or empty, whether or not discovery succeeds. *)
Theorem discoverTools_returns_enabled (srv : string) (cfg : MCPServerConfig)
    (tools : list WireTool) :
  length (discoverTools srv cfg (inr (ToolsArray tools))).1
  = length (List.filter (λ t, negb (truthy (wt_name t))) tools)
  ∧ ∀ found, (discoverTools srv cfg (inr (ToolsArray tools))).2 = inr found →
      found ≠ []
      ∧ (length found ≤ length tools)%nat
      ∧ ∀ t, t ∈ found →
          (∃ d, d ∈ tools ∧ wt_name d = Some (tool_name t)
                ∧ tool_description t = default "" (wt_description d)
                ∧ tool_schema t = default SchemaEmptyObject (wt_inputSchema d))
          ∧ tool_name t ≠ ""
          ∧ tool_serverName t = srv
          ∧ tool_timeout t = default MCP_DEFAULT_TIMEOUT_MSEC (timeout cfg)
          ∧ (∀ ex, excludeTools cfg = Some ex → tool_name t ∉ ex)
          ∧ (∀ inc, includeTools cfg = Some inc →
               ∃ entry, entry ∈ inc
                        ∧ (entry = tool_name t
                           ∨ startsWith entry (tool_name t +:+ "(") = true)).
Proof.
  split.
  - unfold discoverTools. simpl mcpToTool_tool. unfold discoverTools_of.
    rewrite discoverTools_loop. simpl.
    assert (length (concat (map (λ d, (isEnabled d srv cfg).1)
                              (map functionDeclaration_of tools)))
            = length (List.filter (λ t, negb (truthy (wt_name t))) tools)) as Hlen.
    { induction tools as [|t tools IH]; [done|]. simpl.
      rewrite length_app, IH.
      destruct (truthy (wt_name t)) eqn:Ht; simpl.
      - apply truthy_Some in Ht as (n & Hn & Hne).
        by rewrite (isEnabled_named (functionDeclaration_of t) srv n cfg Hn Hne).
      - by rewrite (isEnabled_nameless (functionDeclaration_of t) srv cfg Ht). }
    by destruct (length _ =? 0)%nat.
  - intros found Hfound. unfold discoverTools in Hfound. simpl mcpToTool_tool in Hfound.
    rewrite discoverTools_of_array in Hfound.
    destruct (List.filter (keeps srv cfg) (map functionDeclaration_of tools))
      as [|d0 kept0] eqn:Hkept; [done|].
    injection Hfound as <-. split; [done|]. split.
    { change (new_DiscoveredMCPTool srv cfg d0 :: map (new_DiscoveredMCPTool srv cfg) kept0)
        with (map (new_DiscoveredMCPTool srv cfg) (d0 :: kept0)).
      rewrite length_map, <- Hkept.
      etransitivity; [apply List.filter_length_le|]. by rewrite length_map. }
    intros t Hin.
    change (t ∈ map (new_DiscoveredMCPTool srv cfg) (d0 :: kept0)) in Hin.
    rewrite <- Hkept in Hin.
    apply list_elem_of_In, in_map_iff in Hin as (d & <- & Hd).
    apply filter_In in Hd as [Hd Hkeep].
    apply in_map_iff in Hd as (wt & <- & Hwt).
    apply keeps_accepts in Hkeep as (n & Hn & Hne & Hex & Hinc).
    assert (tool_name (new_DiscoveredMCPTool srv cfg (functionDeclaration_of wt)) = n)
      as Hname by (simpl in *; by rewrite Hn).
    rewrite Hname. split.
    { exists wt. split; [by apply list_elem_of_In|]. by split. }
    split; [done|]. split; [done|]. split; [done|]. split; [done|].
    intros inc Hi. destruct Hinc as [Hnone | (inc' & entry & Hi' & Hentry & Hm)];
      [congruence|].
    assert (inc' = inc) as -> by congruence. by exists entry.
Qed.

Lemma discoverTools_returns_enabled_witness :
  ∃ found,
    (discoverTools "files" files_config (inr (ToolsArray files_tools))).2 = inr found
    ∧ found ≠ []
    ∧ (length found ≤ length files_tools)%nat
    ∧ ∀ t, t ∈ found → tool_name t ≠ "" ∧ tool_serverName t = "files".
Proof.
  destruct (discoverTools "files" files_config (inr (ToolsArray files_tools))).2
    as [e | found] eqn:Hd; [vm_compute in Hd; discriminate Hd|].
  destruct (discoverTools_returns_enabled "files" files_config files_tools) as [_ H].
  destruct (H found Hd) as (H1 & H2 & H3).
  exists found. split; [reflexivity|]. split; [exact H1|]. split; [exact H2|].
  intros t Ht. destruct (H3 t Ht) as (_ & H4 & H5 & _). split; [exact H4 | exact H5].
Defined.

(** ** Where the ad-hoc server goes *)

Lemma obj_set_idempotent (k : string) (v : MCPServerConfig) (o : Servers) :
  obj_set k v (obj_set k v o) = obj_set k v o.
Proof.
  induction o as [|[k' v'] o IH]; simpl.
  - by rewrite String.eqb_refl.
  - destruct (String.eqb k k') eqn:E; simpl.
    + by rewrite String.eqb_refl.
    + by rewrite E, IH.
Qed.

Lemma obj_set_positions (k : string) (v : MCPServerConfig) (o : Servers)
    (i : nat) (k' : string) (v' : MCPServerConfig) :
  k' ≠ k → o !! i = Some (k', v') → obj_set k v o !! i = Some (k', v').
Proof.
  intros Hne. revert i. induction o as [|[k0 v0] o IH]; intros i Hi; [done|].
  simpl. destruct i as [|i]; simpl in Hi.
  - injection Hi as -> ->.
    assert (String.eqb k k' = false) as -> by (apply String.eqb_neq; congruence).
    done.
  - destruct (String.eqb k k0); simpl; [done | by apply IH].
Qed.

(** X5.  A supplied ad-hoc command that tokenizes changes the server map in
    one place only: an existing ["mcp"] entry is overwritten where it
    stands, otherwise the new entry goes last, every other entry keeps its
    position, and unique keys stay unique.  Applying the same command again
    changes nothing, and the pipelines of [discoverMcpTools] are launched in
    the order of the resulting map. *)
Theorem populateMcpServerCommand_position
    (parse : string → gmap string string → list ParseEntry)
    (new_URL : string → option URL) (process_env : gmap string string)
    (servers servers' : Servers) (cmd : string) (w : World) :
  cmd ≠ "" →
  populateMcpServerCommand parse process_env servers (Some cmd) = inr servers' →
  map fst servers'
  = (if Array_includes (map fst servers) "mcp" then map fst servers
     else app (map fst servers) ["mcp"])
  ∧ (∀ i k v, k ≠ "mcp" → servers !! i = Some (k, v) → servers' !! i = Some (k, v))
  ∧ (well_formed servers = true → well_formed servers' = true)
  ∧ populateMcpServerCommand parse process_env servers' (Some cmd) = inr servers'
  ∧ map p_name
      (discoveryPromises
         (discoverMcpTools parse new_URL process_env servers (Some cmd) w))
    = map fst servers'.
Proof.
  intros Hne Hp. pose proof Hp as Hp0.
  rewrite (populateMcpServerCommand_supplied parse process_env servers cmd Hne) in Hp.
  destruct (forallb is_string (parse cmd process_env)) eqn:Htok; [|done].
  injection Hp as <-. split; [apply obj_set_keys|].
  split; [intros i k v Hk; by apply obj_set_positions|].
  split; [apply obj_set_well_formed|]. split.
  - rewrite (populateMcpServerCommand_supplied parse process_env _ cmd Hne), Htok.
    by rewrite obj_set_idempotent.
  - unfold discoverMcpTools. rewrite Hp0. simpl. rewrite launch_pipelines.
    rewrite map_map. done.
Qed.

Lemma populateMcpServerCommand_position_witness :
  ∃ servers',
    populateMcpServerCommand example_parse example_env example_servers
      (Some "node adhoc.js") = inr servers'
    ∧ map fst servers' = ["alpha"; "files"; "search"; "empty"; "mcp"]
    ∧ populateMcpServerCommand example_parse example_env servers'
        (Some "node adhoc.js") = inr servers'.
Proof.
  eexists. 
  assert ("node adhoc.js" ≠ "") as Hne by discriminate.
  assert (populateMcpServerCommand example_parse example_env example_servers
            (Some "node adhoc.js") = inr _) as Hp by reflexivity.
  destruct (populateMcpServerCommand_position example_parse example_URL example_env
              example_servers _ "node adhoc.js" initial_world Hne Hp)
    as (H1 & _ & _ & H4 & _).
  split; [exact Hp|]. split; [exact H1 | exact H4].
Defined.

(** ** Projections of a trace *)

Lemma statuses_of_app (n : string) (tr1 tr2 : list Event) :
  statuses_of n (app tr1 tr2) = app (statuses_of n tr1) (statuses_of n tr2).
Proof. apply omap_app. Qed.

Lemma io_of_app (n : string) (tr1 tr2 : list Event) :
  io_of n (app tr1 tr2) = app (io_of n tr1) (io_of n tr2).
Proof. apply List.filter_app. Qed.

Lemma phases_of_app (tr1 tr2 : list Event) :
  phases_of (app tr1 tr2) = app (phases_of tr1) (phases_of tr2).
Proof. apply omap_app. Qed.

Lemma notifications_silent (m n : string) (s : MCPServerStatus) (ls : list Listener) :
  statuses_of n (map (λ l, EvNotify l m s) ls) = []
  ∧ io_of n (map (λ l, EvNotify l m s) ls) = []
  ∧ phases_of (map (λ l, EvNotify l m s) ls) = [].
Proof. induction ls as [|l ls (IH1 & IH2 & IH3)]; [done|]. by simpl. Qed.

Lemma console_silent (n : string) (out : list ConsoleLine) :
  statuses_of n (map EvConsole out) = []
  ∧ io_of n (map EvConsole out) = []
  ∧ phases_of (map EvConsole out) = [].
Proof. induction out as [|l out (IH1 & IH2 & IH3)]; [done|]. by simpl. Qed.

Lemma published_projections (m n : string) (s : MCPServerStatus) (ls : list Listener) :
  statuses_of n (published m s ls) = (if String.eqb m n then [s] else [])
  ∧ io_of n (published m s ls) = []
  ∧ phases_of (published m s ls) = [].
Proof.
  unfold published. destruct (notifications_silent m n s ls) as (H1 & H2 & H3).
  split; [|split].
  - change (EvStatus m s :: ?t) with (app [EvStatus m s] t).
    rewrite statuses_of_app, H1, app_nil_r. simpl. by destruct (String.eqb m n).
  - change (EvStatus m s :: ?t) with (app [EvStatus m s] t).
    by rewrite io_of_app, H2.
  - change (EvStatus m s :: ?t) with (app [EvStatus m s] t).
    by rewrite phases_of_app, H3.
Qed.

Lemma registrations_projections (srv n : string) (tools : list DiscoveredMCPTool) :
  Forall (λ t, tool_serverName t = srv) tools →
  statuses_of n (map EvRegister tools) = []
  ∧ io_of n (map EvRegister tools)
    = (if String.eqb srv n then map EvRegister tools else [])
  ∧ phases_of (map EvRegister tools) = [].
Proof.
  induction 1 as [|t tools Ht _ (IH1 & IH2 & IH3)].
  - by destruct (String.eqb srv n).
  - split; [done|]. split; [|done]. simpl. rewrite Ht, IH2.
    by destruct (String.eqb srv n).
Qed.

Lemma discoverTools_serverName (srv : string) (cfg : MCPServerConfig)
    (listResult : JsError + ToolsField) (tools : list DiscoveredMCPTool) :
  (discoverTools srv cfg listResult).2 = inr tools →
  Forall (λ t, tool_serverName t = srv) tools.
Proof.
  unfold discoverTools. destruct (mcpToTool_tool listResult) as [e | [| decls]];
    [done | done |].
  rewrite discoverTools_of_array.
  destruct (List.filter _ _) as [|d kept] eqn:E; [done|]. intros [= <-].
  change (Forall (λ t, tool_serverName t = srv)
            (map (new_DiscoveredMCPTool srv cfg) (d :: kept))).
  apply Forall_forall. intros t Hin.
  apply list_elem_of_In, in_map_iff in Hin as (d' & <- & _). done.
Qed.

Section Deltas.

Variable new_URL : string → option URL.
Variable process_env : gmap string string.
Variable behaviour : string → ServerBehaviour.

Lemma resume_world (name : string) (cfg : MCPServerConfig) (point : Suspended)
    (w : World) :
  trace (resume_segment behaviour name cfg point w).1
  = app (trace w) (resume_delta behaviour name cfg point (statusChangeListeners w))
  ∧ mcpDiscoveryState (resume_segment behaviour name cfg point w).1
    = mcpDiscoveryState w
  ∧ onerror_installed (resume_segment behaviour name cfg point w).1
    = match point, connect_result (behaviour name) with
      | AwaitConnect _, inr _ => {[name]} ∪ onerror_installed w
      | _, _ => onerror_installed w
      end.
Proof.
  destruct point as [r | t | e |].
  - rewrite resume_AwaitTransport. destruct r; simpl.
    + unfold caught, published, failure_line. rewrite updateMCPServerStatus_eq. simpl.
      by rewrite <- app_assoc.
    + done.
  - rewrite resume_AwaitConnect. unfold resume_delta.
    destruct (connect_result _); simpl.
    + done.
    + rewrite updateMCPServerStatus_eq. simpl. unfold published, list_request.
      by rewrite <- app_assoc.
  - rewrite resume_AwaitTransportClose. simpl.
    unfold caught, published, failure_line. rewrite updateMCPServerStatus_eq. simpl.
    by rewrite <- app_assoc.
  - rewrite resume_AwaitList. unfold resume_delta. cbv zeta.
    destruct (discoverTools _ _ _).2; simpl.
    + unfold caught, published, failure_line.
      rewrite updateMCPServerStatus_eq, log_lines_eq. simpl.
      by rewrite <- !app_assoc.
    + rewrite register_all_eq, log_lines_eq. simpl. by rewrite <- app_assoc.
Qed.

Lemma resume_delta_others (name n : string) (cfg : MCPServerConfig)
    (point : Suspended) (ls : list Listener) :
  n ≠ name →
  statuses_of n (resume_delta behaviour name cfg point ls) = []
  ∧ io_of n (resume_delta behaviour name cfg point ls) = [].
Proof.
  intros Hne.
  assert (String.eqb name n = false) as Hf by (apply String.eqb_neq; congruence).
  destruct (published_projections name n DISCONNECTED ls) as (Hd1 & Hd2 & _).
  destruct (published_projections name n CONNECTED ls) as (Hc1 & Hc2 & _).
  rewrite Hf in Hd1, Hc1.
  destruct point as [[e | t] | t | e |]; unfold resume_delta.
  - unfold failure_line. change (EvConsole ?c :: ?t) with (app [EvConsole c] t).
    by rewrite statuses_of_app, io_of_app, Hd1, Hd2.
  - simpl. by rewrite Hf.
  - destruct (connect_result _).
    + simpl. by rewrite Hf.
    + rewrite statuses_of_app, io_of_app, Hc1, Hc2. simpl. by rewrite Hf.
  - unfold failure_line. change (EvConsole ?c :: ?t) with (app [EvConsole c] t).
    by rewrite statuses_of_app, io_of_app, Hd1, Hd2.
  - cbv zeta. rewrite statuses_of_app, io_of_app.
    destruct (console_silent n (discoverTools name cfg
                                  (list_result (behaviour name))).1) as (-> & -> & _).
    destruct (discoverTools _ _ _).2 as [e | tools] eqn:Hd.
    + unfold failure_line.
      change (EvClientClose name :: EvConsole ?c :: ?t)
        with (app [EvClientClose name; EvConsole c] t).
      rewrite statuses_of_app, io_of_app, Hd1, Hd2. simpl. by rewrite Hf.
    + destruct (registrations_projections name n tools
                  (discoverTools_serverName _ _ _ _ Hd)) as (-> & -> & _).
      by rewrite Hf.
Qed.

Lemma resume_delta_phases (name : string) (cfg : MCPServerConfig)
    (point : Suspended) (ls : list Listener) :
  phases_of (resume_delta behaviour name cfg point ls) = [].
Proof.
  destruct (published_projections name name DISCONNECTED ls) as (_ & _ & Hd).
  destruct (published_projections name name CONNECTED ls) as (_ & _ & Hc).
  destruct point as [[e | t] | t | e |]; unfold resume_delta.
  - unfold failure_line. change (EvConsole ?c :: ?t) with (app [EvConsole c] t).
    by rewrite phases_of_app, Hd.
  - done.
  - destruct (connect_result _); [done|]. by rewrite phases_of_app, Hc.
  - unfold failure_line. change (EvConsole ?c :: ?t) with (app [EvConsole c] t).
    by rewrite phases_of_app, Hd.
  - cbv zeta. rewrite phases_of_app.
    destruct (console_silent name (discoverTools name cfg
                                     (list_result (behaviour name))).1) as (_ & _ & ->).
    destruct (discoverTools _ _ _).2 as [e | tools] eqn:Hd'.
    + unfold failure_line.
      change (EvClientClose name :: EvConsole ?c :: ?t)
        with (app [EvClientClose name; EvConsole c] t).
      by rewrite phases_of_app, Hd.
    + by destruct (registrations_projections name name tools
                     (discoverTools_serverName _ _ _ _ Hd')) as (_ & _ & ->).
Qed.

End Deltas.

(** ** Pipelines follow their scripts *)

Section ScriptSteps.

Variable parse : string → gmap string string → list ParseEntry.
Variable new_URL : string → option URL.
Variable process_env : gmap string string.
Variable behaviour : string → ServerBehaviour.

Lemma resume_scripts (w : World) (p : Pipeline) (point : Suspended) (k : nat)
    (ls : list Listener) :
  pipeline_ok new_URL process_env behaviour w p →
  p_state p = Pending point →
  (was_connected new_URL process_env behaviour (p_name p) (p_config p) (Pending point)
   = false → k = 0%nat) →
  let st' := settle_of (resume_segment behaviour (p_name p) (p_config p) point w).2 in
  let delta := resume_delta behaviour (p_name p) (p_config p) point ls in
  status_script new_URL process_env behaviour (p_name p) (p_config p) st' k
  = app (status_script new_URL process_env behaviour (p_name p) (p_config p)
           (Pending point) k)
        (statuses_of (p_name p) delta)
  ∧ io_script new_URL process_env behaviour (p_name p) (p_config p) st'
    = app (io_script new_URL process_env behaviour (p_name p) (p_config p)
             (Pending point))
          (io_of (p_name p) delta)
  ∧ (was_connected new_URL process_env behaviour (p_name p) (p_config p) st' = false →
     was_connected new_URL process_env behaviour (p_name p) (p_config p)
       (Pending point) = false
     ∧ match point, connect_result (behaviour (p_name p)) with
       | AwaitConnect _, inr _ => False
       | _, _ => True
       end)
  ∧ (st' = Fulfilled →
     ∀ e, expected new_URL process_env behaviour (p_name p) (p_config p) = inl e →
          failure_line (p_name p) e ∈ delta).
Proof.
  intros Hok Hst Hk st' delta. subst st' delta.
  unfold pipeline_ok in Hok. rewrite Hst in Hok.
  set (name := p_name p) in *. set (cfg := p_config p) in *.
  destruct (published_projections name name DISCONNECTED ls) as (Hd1 & Hd2 & _).
  destruct (published_projections name name CONNECTED ls) as (Hc1 & Hc2 & _).
  rewrite String.eqb_refl in Hd1, Hc1.
  destruct point as [r | t | e |].
  - subst r. rewrite resume_AwaitTransport.
    destruct (createTransport new_URL process_env name cfg) as [e | t] eqn:Hct;
      unfold status_script, io_script, was_connected, resume_delta, expected;
      rewrite ?Hct; cbn [snd settle_of].
    + unfold failure_line at 1 2.
      change (EvConsole ?c :: ?t) with (app [EvConsole c] t).
      rewrite statuses_of_app, io_of_app, Hd1, Hd2. simpl.
      split; [done|]. split; [done|]. split; [done|].
      intros _ e' [= <-]. unfold failure_line. set_solver.
    + simpl. rewrite String.eqb_refl. split; [done|]. split; [done|].
      split; [done|]. done.
  - rewrite resume_AwaitConnect.
    unfold status_script, io_script, was_connected, resume_delta.
    rewrite Hok.
    destruct (connect_result (behaviour name)) as [e | u] eqn:Hco;
      cbn [snd settle_of].
    + simpl. rewrite String.eqb_refl. done.
    + rewrite statuses_of_app, io_of_app, Hc1, Hc2. simpl.
      rewrite String.eqb_refl, (Hk eq_refl). done.
  - destruct Hok as ((t & Hct) & Hco). rewrite resume_AwaitTransportClose.
    unfold status_script, io_script, was_connected, resume_delta, expected.
    rewrite Hct, Hco. cbn [snd settle_of].
    unfold failure_line at 1 2.
    change (EvConsole ?c :: ?t) with (app [EvConsole c] t).
    rewrite statuses_of_app, io_of_app, Hd1, Hd2. simpl.
    split; [done|]. split; [done|]. split; [done|].
    intros _ e' [= <-]. unfold failure_line. set_solver.
  - destruct Hok as ((t & Hct) & (u & Hco)). rewrite resume_AwaitList.
    unfold status_script, io_script, was_connected, resume_delta, expected.
    cbv zeta. rewrite Hct, Hco.
    rewrite statuses_of_app, io_of_app.
    destruct (console_silent name (discoverTools name cfg
                                     (list_result (behaviour name))).1) as (-> & -> & _).
    destruct (discoverTools name cfg (list_result (behaviour name))).2
      as [e | tools] eqn:Hd; cbn [snd settle_of].
    + unfold failure_line at 1 2.
      change (EvClientClose name :: EvConsole ?c :: ?t)
        with (app [EvClientClose name; EvConsole c] t).
      rewrite statuses_of_app, io_of_app, Hd1, Hd2. simpl.
      rewrite String.eqb_refl, Nat.add_1_r, replicate_S_end.
      split; [done|]. split; [done|]. split; [done|].
      intros _ e' [= <-]. unfold failure_line. set_solver.
    + destruct (registrations_projections name name tools
                  (discoverTools_serverName _ _ _ _ Hd)) as (-> & -> & _).
      rewrite String.eqb_refl, Nat.add_0_r, !app_nil_r. simpl.
      split; [done|]. split; [done|]. split; [done|]. done.
Qed.

Lemma faults_app (n : string) (ls1 ls2 : list Label) :
  faults n (app ls1 ls2) = (faults n ls1 + faults n ls2)%nat.
Proof. unfold faults. by rewrite List.filter_app, length_app. Qed.

Lemma launch_world (entries : Servers) (w : World) :
  trace (launch new_URL process_env entries w).1
  = app (trace w)
        (concat (map (λ nc, published nc.1 CONNECTING (statusChangeListeners w))
                     entries))
  ∧ mcpDiscoveryState (launch new_URL process_env entries w).1 = mcpDiscoveryState w
  ∧ onerror_installed (launch new_URL process_env entries w).1 = onerror_installed w.
Proof.
  revert w. induction entries as [|[n c] entries IH]; intros w.
  - simpl. by rewrite app_nil_r.
  - cbn [launch]. cbv zeta. unfold connectAndDiscover.
    rewrite connectAndDiscover_start_eq. cbn [fst snd].
    destruct (IH (updateMCPServerStatus n CONNECTING w)) as (H1 & H2 & H3).
    rewrite H1, H2, H3, updateMCPServerStatus_eq. cbn [map concat].
    unfold published at 2. simpl. by rewrite <- app_assoc.
Qed.

Lemma launch_projections (n : string) (entries : Servers) (ls : list Listener) :
  NoDup (map fst entries) →
  (n ∈ map fst entries →
   statuses_of n (concat (map (λ nc, published nc.1 CONNECTING ls) entries))
   = [CONNECTING])
  ∧ (n ∉ map fst entries →
     statuses_of n (concat (map (λ nc, published nc.1 CONNECTING ls) entries)) = [])
  ∧ io_of n (concat (map (λ nc, published nc.1 CONNECTING ls) entries)) = []
  ∧ phases_of (concat (map (λ nc, published nc.1 CONNECTING ls) entries)) = [].
Proof.
  induction entries as [|[m c] entries IH]; intros Hnd.
  - split; [by intros ?%elem_of_nil | done].
  - cbn [map fst] in Hnd. apply NoDup_cons in Hnd as [Hm Hnd].
    destruct (IH Hnd) as (I1 & I2 & I3 & I4).
    destruct (published_projections m n CONNECTING ls) as (P1 & P2 & P3).
    cbn [map concat fst]. rewrite !statuses_of_app, io_of_app, phases_of_app.
    rewrite P1, P2, P3, I3, I4.
    split; [|split; [|done]].
    + intros [-> | Hin]%elem_of_cons.
      * by rewrite String.eqb_refl, (I2 Hm).
      * assert (String.eqb m n = false) as ->
          by (apply String.eqb_neq; intros ->; contradiction).
        by rewrite (I1 Hin).
    + intros Hn%not_elem_of_cons. destruct Hn as [Hne Hn].
      assert (String.eqb m n = false) as -> by (apply String.eqb_neq; congruence).
      by rewrite (I2 Hn).
Qed.

Lemma scripted_start (servers servers' : Servers) (cmd : option string) (w : World) :
  well_formed servers = true →
  populateMcpServerCommand parse process_env servers cmd = inr servers' →
  onerror_installed w = ∅ →
  scripted_since new_URL process_env behaviour (trace w) []
    (discoverMcpTools parse new_URL process_env servers cmd w).
Proof.
  intros Hwf Hp Hno.
  assert (NoDup (map fst servers')) as Hnd.
  { apply keys_unique_NoDup.
    by apply (populateMcpServerCommand_well_formed parse process_env
                servers servers' cmd). }
  unfold discoverMcpTools. rewrite Hp. cbv zeta.
  destruct (launch_world servers' (set_mcpDiscoveryState IN_PROGRESS w))
    as (H1 & H2 & H3).
  set (evs := concat (map (λ nc, published nc.1 CONNECTING
                             (statusChangeListeners
                                (set_mcpDiscoveryState IN_PROGRESS w))) servers')) in *.
  exists (EvDiscoveryState IN_PROGRESS :: evs). split.
  { cbn [world]. rewrite H1. simpl. by rewrite <- app_assoc. }
  destruct (launch_projections "" servers' (statusChangeListeners
              (set_mcpDiscoveryState IN_PROGRESS w)) Hnd) as (_ & _ & _ & Hph).
  unfold scripted. cbn [world discoveryPromises call].
  rewrite launch_pipelines, H2, H3. simpl onerror_installed. rewrite Hno.
  split; [|split; [|split; [|done]]].
  - intros i p Hi.
    change (map ?f servers') with (f <$> servers') in Hi.
    apply list_lookup_fmap_Some in Hi as ([n c] & -> & Hs). cbn [p_name p_config p_state fst snd].
    destruct (launch_projections n servers' (statusChangeListeners
                (set_mcpDiscoveryState IN_PROGRESS w)) Hnd) as (L1 & _ & L3 & _).
    assert (n ∈ map fst servers') as Hin.
    { apply list_elem_of_In, in_map_iff. exists (n, c). split; [done|].
      apply list_elem_of_In. by eapply list_elem_of_lookup_2. }
    change (EvDiscoveryState IN_PROGRESS :: evs)
      with (app [EvDiscoveryState IN_PROGRESS] evs).
    rewrite statuses_of_app, io_of_app. subst evs. rewrite (L1 Hin), L3.
    split; [done|]. split.
    { unfold io_script. by destruct (createTransport _ _ _ _). }
    split; [|done]. intros _. split; [done | set_solver].
  - intros n Hn. rewrite map_map in Hn. cbn [p_name fst] in Hn.
    destruct (launch_projections n servers' (statusChangeListeners
                (set_mcpDiscoveryState IN_PROGRESS w)) Hnd) as (_ & L2 & L3 & _).
    change (EvDiscoveryState IN_PROGRESS :: evs)
      with (app [EvDiscoveryState IN_PROGRESS] evs).
    rewrite statuses_of_app, io_of_app. subst evs. rewrite (L2 Hn), L3.
    split; [done|]. split; [done | set_solver].
  - change (EvDiscoveryState IN_PROGRESS :: evs)
      with (app [EvDiscoveryState IN_PROGRESS] evs).
    rewrite phases_of_app. subst evs. by rewrite Hph.
Qed.

Lemma status_script_fault (name : string) (cfg : MCPServerConfig)
    (st : PromiseState) (k : nat) :
  was_connected new_URL process_env behaviour name cfg st = true →
  status_script new_URL process_env behaviour name cfg st (k + 1)
  = app (status_script new_URL process_env behaviour name cfg st k) [DISCONNECTED].
Proof.
  intros Hc. unfold status_script. destruct st as [[r | t | e |] | |]; try done.
  - by rewrite Nat.add_1_r, replicate_S_end.
  - rewrite Hc.
    replace (k + 1 + match (discoverTools name cfg (list_result (behaviour name))).2 with
                     | inl _ => 1
                     | inr _ => 0
                     end)%nat
      with (S (k + match (discoverTools name cfg (list_result (behaviour name))).2 with
                   | inl _ => 1
                   | inr _ => 0
                   end))%nat by lia.
    by rewrite replicate_S_end.
Qed.

Lemma scripted_step (entries : Servers) (tr0 : list Event) (ls : list Label)
    (l : Label) (sys sys' : System) :
  NoDup (map fst entries) →
  system_ok new_URL process_env behaviour entries sys →
  scripted_since new_URL process_env behaviour tr0 ls sys →
  step behaviour l sys = Some sys' →
  scripted_since new_URL process_env behaviour tr0 (app ls [l]) sys'.
Proof.
  intros Hnd (Hmap & Hok & Hcall) (evs & Htr & Hpipes & Hothers & Hph & Hds) Hstep.
  destruct l as [i | m e |]; simpl in Hstep.
  - destruct (discoveryPromises sys !! i) as [p|] eqn:Hi; [|done].
    destruct (p_state p) as [point | |] eqn:Hst; [|done|done].
    injection Hstep as <-.
    destruct (resume_world behaviour (p_name p) (p_config p) point (world sys))
      as (Hw1 & Hw2 & Hw3).
    set (delta := resume_delta behaviour (p_name p) (p_config p) point
                    (statusChangeListeners (world sys))) in *.
    exists (app evs delta). split.
    { cbn [world]. by rewrite Hw1, Htr, <- app_assoc. }
    assert (∀ n, faults n (app ls [Resume i]) = faults n ls) as Hfa.
    { intros n. rewrite faults_app. change (faults n [Resume i]) with 0%nat. lia. }
    unfold scripted. cbn [world discoveryPromises call].
    split; [|split; [|split]].
    + intros j q Hj. rewrite Hfa.
      destruct (decide (i = j)) as [<- | Hne].
      * rewrite list_lookup_insert_eq in Hj by by eapply lookup_lt_Some.
        injection Hj as <-. cbn [p_name p_config p_state].
        destruct (Hpipes i p Hi) as (Hs & Hio & Hwc & Hfl). rewrite Hst in Hs, Hio, Hwc.
        destruct (resume_scripts (world sys) p point (faults (p_name p) ls)
                    (statusChangeListeners (world sys))
                    (Forall_lookup_1 _ _ i p Hok Hi) Hst (λ H, proj1 (Hwc H)))
          as (R1 & R2 & R3 & R4).
        rewrite statuses_of_app, io_of_app, Hs, Hio.
        split; [by rewrite R1|]. split; [by rewrite R2|]. split.
        -- intros Hf. destruct (R3 Hf) as [Hf' Hm]. destruct (Hwc Hf') as [Hz Hni].
           split; [done|]. rewrite Hw3.
           destruct point; try done. by destruct (connect_result _).
        -- intros Hful e He. apply elem_of_app. right. by apply R4.
      * rewrite list_lookup_insert_ne in Hj by done.
        destruct (Hpipes j q Hj) as (Hs & Hio & Hwc & Hfl).
        assert (p_name q ≠ p_name p) as Hn.
        { intros Heq. apply Hne. symmetry.
          by apply (names_distinct entries (discoveryPromises sys) j i q p). }
        destruct (resume_delta_others behaviour (p_name p) (p_name q) (p_config p) point
                    (statusChangeListeners (world sys)) Hn) as [D1 D2].
        fold delta in D1, D2.
        rewrite statuses_of_app, io_of_app, D1, D2, !app_nil_r.
        split; [done|]. split; [done|]. split.
        -- intros Hf. destruct (Hwc Hf) as [Hz Hni]. split; [done|]. rewrite Hw3.
           destruct point; try done. destruct (connect_result _); [done|].
           apply not_elem_of_union. split; [by apply not_elem_of_singleton | done].
        -- intros Hful e He. apply elem_of_app. left. by apply Hfl.
    + intros n Hn.
      assert (map p_name (<[i := {| p_name := p_name p; p_config := p_config p;
                                    p_state := settle_of
                                      (resume_segment behaviour (p_name p) (p_config p)
                                         point (world sys)).2 |}]>
                            (discoveryPromises sys))
              = map p_name (discoveryPromises sys)) as Hnames.
      { change (map ?f ?l) with (f <$> l). rewrite list_fmap_insert. simpl.
        rewrite list_insert_id; [done|]. by rewrite list_lookup_fmap, Hi. }
      rewrite Hnames in Hn. destruct (Hothers n Hn) as (O1 & O2 & O3).
      assert (n ≠ p_name p) as Hne.
      { intros ->. apply Hn. apply list_elem_of_In, in_map_iff. exists p.
        split; [done|]. apply list_elem_of_In. by eapply list_elem_of_lookup_2. }
      destruct (resume_delta_others behaviour (p_name p) n (p_config p) point
                  (statusChangeListeners (world sys)) Hne) as [D1 D2].
      fold delta in D1, D2.
      rewrite statuses_of_app, io_of_app, D1, D2, O1, O2.
      split; [done|]. split; [done|]. rewrite Hw3.
      destruct point; try done. destruct (connect_result _); [done|].
      apply not_elem_of_union. split; [by apply not_elem_of_singleton | done].
    + rewrite phases_of_app. subst delta. by rewrite resume_delta_phases, app_nil_r.
    + by rewrite Hw2.
  - destruct (decide _) as [Hin|]; [|done]. injection Hstep as <-.
    set (line := EvConsole (ConsoleError
                   ("MCP ERROR (" +:+ m +:+ "): " +:+ Error_toString e))).
    set (listeners := statusChangeListeners (world sys)).
    exists (app evs (line :: published m DISCONNECTED listeners)). split.
    { cbn [world]. unfold onerror_handler. rewrite updateMCPServerStatus_eq.
      cbn [trace emit statusChangeListeners]. rewrite Htr. unfold published.
      by rewrite <- !app_assoc. }
    assert (∀ n, statuses_of n (line :: published m DISCONNECTED listeners)
                 = (if String.eqb m n then [DISCONNECTED] else [])
                 ∧ io_of n (line :: published m DISCONNECTED listeners) = []) as Hdelta.
    { intros n. destruct (published_projections m n DISCONNECTED listeners)
        as (P1 & P2 & _).
      change (line :: ?t) with (app [line] t).
      by rewrite statuses_of_app, io_of_app, P1, P2. }
    assert (onerror_installed (onerror_handler m e (world sys))
            = onerror_installed (world sys)) as Hw3.
    { unfold onerror_handler. by rewrite updateMCPServerStatus_eq. }
    assert (mcpDiscoveryState (onerror_handler m e (world sys))
            = mcpDiscoveryState (world sys)) as Hw2.
    { unfold onerror_handler. by rewrite updateMCPServerStatus_eq. }
    unfold scripted. cbn [world discoveryPromises call]. rewrite Hw2, Hw3.
    split; [|split; [|split; [|done]]].
    + intros j q Hj. destruct (Hpipes j q Hj) as (Hs & Hio & Hwc & Hfl).
      destruct (Hdelta (p_name q)) as [D1 D2].
      rewrite statuses_of_app, io_of_app, D1, D2, app_nil_r, faults_app.
      cbn [faults List.filter length].
      destruct (String.eqb m (p_name q)) eqn:Hmq.
      * apply String.eqb_eq in Hmq. subst m.
        destruct (was_connected new_URL process_env behaviour (p_name q) (p_config q)
                    (p_state q)) eqn:Hc.
        -- split; [by rewrite status_script_fault, Hs|]. split; [done|].
           split; [done|]. intros Hful e' He'. apply elem_of_app. left. by apply Hfl.
        -- by destruct (Hwc eq_refl) as [_ Hni].
      * cbn [length]. rewrite Nat.add_0_r, app_nil_r.
        split; [done|]. split; [done|]. split; [done|].
        intros Hful e' He'. apply elem_of_app. left. by apply Hfl.
    + intros n Hn. destruct (Hothers n Hn) as (O1 & O2 & O3).
      destruct (Hdelta n) as [D1 D2].
      rewrite statuses_of_app, io_of_app, D1, D2, O1, O2.
      assert (String.eqb m n = false) as ->
        by (apply String.eqb_neq; intros ->; contradiction).
      done.
    + rewrite phases_of_app, Hph.
      destruct (published_projections m m DISCONNECTED listeners) as (_ & _ & P3).
      change (line :: ?t) with (app [line] t).
      by rewrite phases_of_app, P3, app_nil_r.
  - destruct (call sys) eqn:Hc; [|done|done].
    destruct (promise_all (discoveryPromises sys)) as [r|]; [|done].
    injection Hstep as <-.
    exists (app evs [EvDiscoveryState COMPLETED]). split.
    { cbn [world]. simpl. by rewrite Htr, <- app_assoc. }
    assert (∀ n, faults n (app ls [Settle]) = faults n ls) as Hfa.
    { intros n. rewrite faults_app. change (faults n [Settle]) with 0%nat. lia. }
    unfold scripted. cbn [world discoveryPromises call].
    split; [|split; [|split]].
    + intros j q Hj. destruct (Hpipes j q Hj) as (Hs & Hio & Hwc & Hfl).
      rewrite Hfa, statuses_of_app, io_of_app, Hs, Hio, !app_nil_r.
      split; [done|]. split; [done|]. split; [done|].
      intros Hful e' He'. apply elem_of_app. left. by apply Hfl.
    + intros n Hn. destruct (Hothers n Hn) as (O1 & O2 & O3).
      by rewrite statuses_of_app, io_of_app, O1, O2.
    + rewrite phases_of_app, Hph. simpl. by destruct r.
    + simpl. by destruct r.
Qed.

Lemma scripted_run (entries : Servers) (tr0 : list Event) (ls1 ls2 : list Label)
    (sys sys' : System) :
  NoDup (map fst entries) →
  system_ok new_URL process_env behaviour entries sys →
  scripted_since new_URL process_env behaviour tr0 ls1 sys →
  run behaviour ls2 sys = Some sys' →
  scripted_since new_URL process_env behaviour tr0 (app ls1 ls2) sys'.
Proof.
  intros Hnd. revert ls1 sys.
  induction ls2 as [|l ls2 IH]; intros ls1 sys Hok Hsc Hrun; simpl in Hrun.
  - injection Hrun as <-. by rewrite app_nil_r.
  - destruct (step behaviour l sys) as [sys1|] eqn:Hstep; [|done].
    change (l :: ls2) with (app [l] ls2). rewrite app_assoc.
    apply (IH (app ls1 [l]) sys1); [|by eapply scripted_step|done].
    by eapply step_system_ok.
Qed.

Lemma scripted_reachable (servers servers' : Servers) (cmd : option string)
    (w : World) (ls : list Label) (sys : System) :
  well_formed servers = true →
  populateMcpServerCommand parse process_env servers cmd = inr servers' →
  onerror_installed w = ∅ →
  run behaviour ls (discoverMcpTools parse new_URL process_env servers cmd w) = Some sys →
  scripted_since new_URL process_env behaviour (trace w) ls sys.
Proof.
  intros Hwf Hp Hno Hrun.
  change ls with (app [] ls).
  apply (scripted_run servers' (trace w) [] ls
           (discoverMcpTools parse new_URL process_env servers cmd w)); [| | |done].
  - apply keys_unique_NoDup.
    by apply (populateMcpServerCommand_well_formed parse process_env
                servers servers' cmd).
  - by destruct (discoverMcpTools_started parse new_URL process_env behaviour
                   servers servers' cmd w Hp) as [Hstart _].
  - by apply (scripted_start servers servers' cmd w).
Qed.

End ScriptSteps.

(** ** What a run publishes, does and logs for each server *)

Lemma last_status_statuses (n : string) (tr : list Event) :
  last_status n tr = last (statuses_of n tr).
Proof.
  induction tr as [|e tr IH] using rev_ind; [done|].
  rewrite last_status_app, statuses_of_app, IH.
  destruct e; try (simpl; by rewrite app_nil_r).
  unfold last_status. simpl. destruct (String.eqb serverName n).
  - by rewrite last_snoc.
  - by rewrite app_nil_r.
Qed.

Lemma last_replicate {A} (b x : A) (m : nat) :
  last (b :: replicate m x) = Some (if Nat.eqb m 0 then b else x).
Proof.
  revert b. induction m as [|m IH]; intros b; [done|].
  change (last (b :: replicate (S m) x)) with (last (x :: replicate m x)).
  rewrite IH. by destruct (Nat.eqb m 0).
Qed.

Lemma forallb_replicate {A} (f : A → bool) (x : A) (m : nat) :
  f x = true → forallb f (replicate m x) = true.
Proof. intros Hx. induction m as [|m IH]; [done|]. simpl. by rewrite Hx, IH. Qed.

Section Conduct.

Variable parse : string → gmap string string → list ParseEntry.
Variable new_URL : string → option URL.
Variable process_env : gmap string string.
Variable behaviour : string → ServerBehaviour.

Lemma status_script_lifecycle (name : string) (cfg : MCPServerConfig)
    (st : PromiseState) (k : nat) :
  lifecycle (status_script new_URL process_env behaviour name cfg st k) = true
  ∧ (length (status_script new_URL process_env behaviour name cfg st k) ≤ 3 + k)%nat
  ∧ ((∀ e, st ≠ Rejected e) →
     head (status_script new_URL process_env behaviour name cfg st k) = Some CONNECTING).
Proof.
  unfold status_script. destruct st as [[r | t | e |] | |]; simpl.
  - split; [done|]. split; [lia | done].
  - split; [done|]. split; [lia | done].
  - split; [done|]. split; [lia | done].
  - split; [by apply forallb_replicate|]. rewrite length_replicate. split; [lia | done].
  - destruct (createTransport _ _ _ _); [split; [done|]; split; [simpl; lia | done]|].
    destruct (connect_result _); [split; [done|]; split; [simpl; lia | done]|].
    split; [by apply forallb_replicate|]. simpl. rewrite length_replicate.
    split; [|done]. destruct (discoverTools _ _ _).2; lia.
  - split; [done|]. split; [lia|]. intros H. by destruct (H e).
Qed.

Lemma status_script_last (name : string) (cfg : MCPServerConfig)
    (st : PromiseState) (k : nat) :
  last (status_script new_URL process_env behaviour name cfg st k)
  = match st with
    | Pending AwaitList => Some (if Nat.eqb k 0 then CONNECTED else DISCONNECTED)
    | Pending _ => Some CONNECTING
    | Fulfilled =>
        Some match expected new_URL process_env behaviour name cfg with
             | inr _ => if Nat.eqb k 0 then CONNECTED else DISCONNECTED
             | inl _ => DISCONNECTED
             end
    | Rejected _ => None
    end.
Proof.
  unfold status_script, was_connected, expected.
  destruct st as [[r | t | e |] | |]; try done.
  - change (last (CONNECTING :: CONNECTED :: ?l)) with (last (CONNECTED :: l)).
    apply last_replicate.
  - destruct (createTransport _ _ _ _); [done|].
    destruct (connect_result _); [done|].
    change (last (CONNECTING :: CONNECTED :: ?l)) with (last (CONNECTED :: l)).
    rewrite last_replicate. destruct (discoverTools _ _ _).2.
    + by rewrite Nat.add_1_r.
    + by rewrite Nat.add_0_r.
Qed.

Lemma pipeline_of_name (entries : Servers) (sys : System) (n : string) :
  system_ok new_URL process_env behaviour entries sys →
  (n ∈ map fst entries ↔ n ∈ map p_name (discoveryPromises sys))
  ∧ (n ∈ map fst entries →
     ∃ i p, discoveryPromises sys !! i = Some p ∧ p_name p = n
            ∧ ∀ e, p_state p ≠ Rejected e).
Proof.
  intros (Hmap & Hok & _).
  assert (map fst entries = map p_name (discoveryPromises sys)) as Hnames.
  { rewrite <- Hmap, map_map. done. }
  rewrite Hnames. split; [done|]. intros Hin.
  apply list_elem_of_In, in_map_iff in Hin as (p & Hn & Hp).
  apply list_elem_of_In, list_elem_of_lookup in Hp as (i & Hi).
  exists i, p. split; [done|]. split; [done|]. intros e He.
  pose proof (Forall_lookup_1 _ _ i p Hok Hi) as Hpo.
  unfold pipeline_ok in Hpo. by rewrite He in Hpo.
Qed.

(** X6.  In every run of a [discoverMcpTools] call that starts while no
    client of an earlier discovery is alive, the statuses published for a
    name are a lifecycle that is never walked back: nothing at all for a
    name that is not a key of the server map; for a server, ['connecting']
    first, then at most one ['connected'], then only ['disconnected'].  No
    server is set back to ['connecting'] or ['connected'], and a server gets
    at most three statuses plus one for each fault delivered to its
    client. *)
Theorem status_lifecycle (servers servers' : Servers) (cmd : option string)
    (w : World) (ls : list Label) (sys : System) :
  well_formed servers = true →
  populateMcpServerCommand parse process_env servers cmd = inr servers' →
  onerror_installed w = ∅ →
  run behaviour ls (discoverMcpTools parse new_URL process_env servers cmd w) = Some sys →
  ∃ evs,
    trace (world sys) = app (trace w) evs
    ∧ ∀ n, lifecycle (statuses_of n evs) = true
           ∧ (length (statuses_of n evs) ≤ 3 + faults n ls)%nat
           ∧ (n ∈ map fst servers' → head (statuses_of n evs) = Some CONNECTING)
           ∧ (n ∉ map fst servers' → statuses_of n evs = []).
Proof.
  intros Hwf Hp Hno Hrun.
  pose proof (reachable_ok parse new_URL process_env behaviour servers servers' cmd w
                ls sys Hwf Hp Hrun) as Hsys.
  destruct (scripted_reachable parse new_URL process_env behaviour servers servers'
              cmd w ls sys Hwf Hp Hno Hrun) as (evs & Htr & Hpipes & Hothers & _).
  exists evs. split; [done|]. intros n.
  destruct (pipeline_of_name servers' sys n Hsys) as [Hiff Hpipe].
  destruct (decide (n ∈ map fst servers')) as [Hin | Hout].
  - destruct (Hpipe Hin) as (i & p & Hi & <- & Hnr).
    destruct (Hpipes i p Hi) as (-> & _).
    destruct (status_script_lifecycle (p_name p) (p_config p) (p_state p)
                (faults (p_name p) ls)) as (L1 & L2 & L3).
    split; [done|]. split; [done|]. split; [by intros _; apply L3 | done].
  - assert (n ∉ map p_name (discoveryPromises sys)) as Hout' by by rewrite <- Hiff.
    destruct (Hothers n Hout') as (-> & _).
    split; [done|]. split; [simpl; lia|]. split; [done | done].
Qed.




Lemma launch_phases (entries : Servers) (ls : list Listener) :
  phases_of (concat (map (λ nc, published nc.1 CONNECTING ls) entries)) = [].
Proof.
  induction entries as [|[n c] entries IH]; [done|].
  cbn [map concat fst]. rewrite phases_of_app, IH.
  by destruct (published_projections n n CONNECTING ls) as (_ & _ & ->).
Qed.

Lemma phased_start (servers : Servers) (cmd : option string) (w : World) :
  phased (trace w) (discoverMcpTools parse new_URL process_env servers cmd w).
Proof.
  unfold discoverMcpTools, phased.
  destruct (populateMcpServerCommand _ _ _ _) as [e | servers']; cbv zeta.
  - exists [EvDiscoveryState IN_PROGRESS; EvDiscoveryState COMPLETED]. simpl.
    by rewrite <- app_assoc.
  - destruct (launch_world new_URL process_env servers'
                (set_mcpDiscoveryState IN_PROGRESS w)) as (H1 & H2 & _).
    eexists. cbn [world call]. rewrite H1, H2. simpl. rewrite <- app_assoc.
    split; [done|]. split; [|done].
    change (phases_of ([EvDiscoveryState IN_PROGRESS] ++ ?l))
      with (IN_PROGRESS :: phases_of l).
    by rewrite launch_phases.
Qed.

Lemma phased_step (tr0 : list Event) (l : Label) (sys sys' : System) :
  phased tr0 sys → step behaviour l sys = Some sys' → phased tr0 sys'.
Proof.
  intros (evs & Htr & Hph & Hds) Hstep. destruct l as [i | m e |]; simpl in Hstep.
  - destruct (discoveryPromises sys !! i) as [p|]; [|done].
    destruct (p_state p) as [point | |]; [|done|done]. injection Hstep as <-.
    destruct (resume_world behaviour (p_name p) (p_config p) point (world sys))
      as (Hw1 & Hw2 & _).
    eexists. cbn [world call]. rewrite Hw1, Hw2, Htr, <- app_assoc.
    split; [done|]. split; [|done].
    by rewrite phases_of_app, resume_delta_phases, app_nil_r.
  - destruct (decide _); [|done]. injection Hstep as <-.
    unfold onerror_handler. rewrite updateMCPServerStatus_eq.
    eexists. cbn [world call trace emit mcpDiscoveryState statusChangeListeners].
    rewrite Htr, <- !app_assoc. split; [done|]. split; [|done].
    rewrite !phases_of_app, Hph.
    destruct (published_projections m m DISCONNECTED (statusChangeListeners (world sys)))
      as (_ & _ & P3).
    unfold published in P3. rewrite P3. simpl. by rewrite app_nil_r.
  - destruct (call sys) eqn:Hc; [|done|done].
    destruct (promise_all (discoveryPromises sys)) as [r|]; [|done].
    injection Hstep as <-. eexists. cbn [world call]. simpl. rewrite Htr, <- app_assoc.
    split; [done|]. rewrite phases_of_app, Hph. simpl. by destruct r.
Qed.

Lemma phased_run (tr0 : list Event) (ls : list Label) (sys sys' : System) :
  phased tr0 sys → run behaviour ls sys = Some sys' → phased tr0 sys'.
Proof.
  revert sys. induction ls as [|l ls IH]; intros sys Hph Hrun; simpl in Hrun.
  - by injection Hrun as <-.
  - destruct (step behaviour l sys) as [sys1|] eqn:Hstep; [|done].
    apply (IH sys1); [by eapply phased_step | done].
Qed.

(** X10.  In every state of every run of [discoverMcpTools], whatever the
    world it starts in and whether or not the ad-hoc command could be
    tokenized, the call assigns [mcpDiscoveryState] once to ['in_progress']
    and, when its promise settles, once to ['completed'], and never to
    anything else: [getMCPDiscoveryState] reads ['in_progress'] exactly while
    the call is pending and ['completed'] from then on, through every fault
    that arrives later. *)
Theorem discovery_state_phases (servers : Servers) (cmd : option string)
    (w : World) (ls : list Label) (sys : System) :
  run behaviour ls (discoverMcpTools parse new_URL process_env servers cmd w) = Some sys →
  ∃ evs,
    trace (world sys) = app (trace w) evs
    ∧ phases_of evs
      = IN_PROGRESS :: match call sys with CallPending => [] | _ => [COMPLETED] end
    ∧ getMCPDiscoveryState (world sys)
      = match call sys with CallPending => IN_PROGRESS | _ => COMPLETED end.
Proof.
  intros Hrun. change (phased (trace w) sys).
  apply (phased_run (trace w) ls
           (discoverMcpTools parse new_URL process_env servers cmd w)); [|done].
  apply phased_start.
Qed.

End Conduct.

Lemma status_lifecycle_witness :
  ∃ sys evs,
    run example_behaviour example_schedule
      (discoverMcpTools example_parse example_URL example_env example_servers
         None initial_world) = Some sys
    ∧ trace (world sys) = app (trace initial_world) evs
    ∧ lifecycle (statuses_of "files" evs) = true
    ∧ head (statuses_of "files" evs) = Some CONNECTING
    ∧ (length (statuses_of "files" evs) ≤ 4)%nat
    ∧ statuses_of "nobody" evs = [].
Proof.
  destruct (run example_behaviour example_schedule
              (discoverMcpTools example_parse example_URL example_env
                 example_servers None initial_world)) as [sys|] eqn:Hrun;
    [|vm_compute in Hrun; discriminate Hrun].
  destruct (status_lifecycle example_parse example_URL example_env example_behaviour
              example_servers example_servers None initial_world example_schedule
              sys eq_refl eq_refl eq_refl Hrun) as (evs & Htr & Hall).
  exists sys, evs. split; [reflexivity|]. split; [exact Htr|].
  destruct (Hall "files") as (H1 & H2 & H3 & _).
  destruct (Hall "nobody") as (_ & _ & _ & H4).
  split; [exact H1|]. split.
  - apply H3. simpl. right. left.
  - split; [exact H2|]. apply H4. simpl. intros H.
    repeat (apply elem_of_cons in H as [H | H]; [discriminate H|]).
    by apply elem_of_nil in H.
Defined.




Lemma discovery_state_phases_witness :
  ∃ sys evs,
    run example_behaviour example_schedule
      (discoverMcpTools example_parse example_URL example_env example_servers
         None initial_world) = Some sys
    ∧ trace (world sys) = app (trace initial_world) evs
    ∧ phases_of evs = [IN_PROGRESS; COMPLETED]
    ∧ getMCPDiscoveryState (world sys) = COMPLETED.
Proof.
  destruct (run example_behaviour example_schedule
              (discoverMcpTools example_parse example_URL example_env
                 example_servers None initial_world)) as [sys|] eqn:Hrun;
    [|vm_compute in Hrun; discriminate Hrun].
  assert (call sys = CallResolved) as Hc.
  { vm_compute in Hrun. injection Hrun as <-. reflexivity. }
  destruct (discovery_state_phases example_parse example_URL example_env
              example_behaviour example_servers None initial_world example_schedule
              sys Hrun) as (evs & Htr & Hph & Hds).
  exists sys, evs. split; [reflexivity|]. split; [exact Htr|].
  rewrite Hc in Hph, Hds. split; [exact Hph | exact Hds].
Defined.

(** ** Calling a discovered tool *)

Lemma replay_lookup (tools : list DiscoveredMCPTool)
    (m : gmap string DiscoveredMCPTool) (k : string) (t : DiscoveredMCPTool) :
  replay tools m !! k = Some t →
  (t ∈ tools ∧ tool_name t = k) ∨ m !! k = Some t.
Proof.
  revert m. induction tools as [|t0 tools IH]; intros m H; [by right|].
  apply IH in H as [[Hin Hn] | H].
  - left. split; [by right | done].
  - destruct (decide (tool_name t0 = k)) as [Heq | Hne].
    + rewrite <- Heq, lookup_insert_eq in H. injection H as <-.
      left. split; [by left | done].
    + rewrite lookup_insert_ne in H by done. by right.
Qed.

Lemma registrations_elem_of (t : DiscoveredMCPTool) (tr : list Event) :
  t ∈ registrations tr ↔ EvRegister t ∈ tr.
Proof.
  unfold registrations. rewrite list_elem_of_omap. split.
  - intros (e & Hin & He). destruct e; try done. by injection He as ->.
  - intros Hin. by exists (EvRegister t).
Qed.

Lemma discoverTools_named (srv : string) (cfg : MCPServerConfig)
    (listResult : JsError + ToolsField) (tools : list DiscoveredMCPTool) :
  (discoverTools srv cfg listResult).2 = inr tools →
  Forall (λ t, tool_name t ≠ "" ∧ tool_mcpCallableTool t = srv) tools.
Proof.
  unfold discoverTools. destruct (mcpToTool_tool listResult) as [e | [| decls]];
    [done | done |].
  rewrite discoverTools_of_array.
  destruct (List.filter _ _) as [|d kept] eqn:E; [done|]. intros [= <-].
  change (Forall (λ t, tool_name t ≠ "" ∧ tool_mcpCallableTool t = srv)
            (map (new_DiscoveredMCPTool srv cfg) (d :: kept))).
  rewrite <- E. apply Forall_forall. intros t Hin.
  apply list_elem_of_In, in_map_iff in Hin as (d' & <- & Hd).
  apply filter_In in Hd as [_ Hkeep].
  apply keeps_accepts in Hkeep as (n & Hn & Hne & _).
  split; [|done]. simpl. by rewrite Hn.
Qed.

Section Calls.

Variable parse : string → gmap string string → list ParseEntry.
Variable new_URL : string → option URL.
Variable process_env : gmap string string.
Variable behaviour : string → ServerBehaviour.

Lemma io_script_registers (name : string) (cfg : MCPServerConfig)
    (st : PromiseState) (t : DiscoveredMCPTool) :
  EvRegister t ∈ io_script new_URL process_env behaviour name cfg st →
  st = Fulfilled
  ∧ ∃ tools, expected new_URL process_env behaviour name cfg = inr tools ∧ t ∈ tools.
Proof.
  unfold io_script, expected, connect_event, list_request.
  destruct (createTransport _ _ _ _) as [e | tr]; [by intros H%elem_of_nil|].
  destruct st as [[r | t' | e |] | |]; intros H;
    try (repeat (apply elem_of_cons in H as [H | H]; [discriminate H|]);
         by apply elem_of_nil in H).
  split; [done|]. destruct (connect_result _) as [e | u].
  { repeat (apply elem_of_cons in H as [H | H]; [discriminate H|]).
    by apply elem_of_nil in H. }
  do 2 (apply elem_of_cons in H as [H | H]; [discriminate H|]).
  destruct (discoverTools _ _ _).2 as [e | tools].
  { apply elem_of_cons in H as [H | H]; [discriminate H|]. by apply elem_of_nil in H. }
  exists tools. split; [done|].
  apply list_elem_of_In, in_map_iff in H as (t' & [= ->] & Hin).
  by apply list_elem_of_In.
Qed.

Lemma registered_tool_origin (entries : Servers) (evs : list Event) (ls : list Label)
    (sys : System) (t : DiscoveredMCPTool) :
  system_ok new_URL process_env behaviour entries sys →
  scripted new_URL process_env behaviour evs ls sys →
  EvRegister t ∈ evs →
  ∃ cfg tools,
    (tool_serverName t, cfg) ∈ entries
    ∧ expected new_URL process_env behaviour (tool_serverName t) cfg = inr tools
    ∧ t ∈ tools.
Proof.
  intros Hsys (Hpipes & Hothers & _) Hin.
  assert (EvRegister t ∈ io_of (tool_serverName t) evs) as Hio.
  { apply list_elem_of_In, filter_In. split; [by apply list_elem_of_In|].
    apply String.eqb_refl. }
  destruct (decide (tool_serverName t ∈ map p_name (discoveryPromises sys)))
    as [Hsrv | Hsrv].
  - apply list_elem_of_In, in_map_iff in Hsrv as (p & Hn & Hp).
    apply list_elem_of_In, list_elem_of_lookup in Hp as (i & Hi).
    destruct (Hpipes i p Hi) as (_ & Hscript & _).
    rewrite Hn, <- Hn in Hscript. rewrite Hn in Hscript.
    rewrite Hscript in Hio.
    apply io_script_registers in Hio as (_ & tools & Hexp & Ht).
    exists (p_config p), tools. split; [|done].
    destruct Hsys as (Hmap & _). rewrite <- Hmap, <- Hn.
    apply list_elem_of_In, in_map_iff. exists p. split; [done|].
    apply list_elem_of_In. by eapply list_elem_of_lookup_2.
  - destruct (Hothers _ Hsrv) as (_ & Hnone & _). rewrite Hnone in Hio.
    by apply elem_of_nil in Hio.
Qed.

(** X11.  After any run of a [discoverMcpTools] call that starts while no
    client of an earlier discovery is alive, a tool found in the registry
    under a name that was free when the call started is one that discovery
    returned for a server of the map, has that very name, which is not
    empty, and [executeTool] on the name sends that server one [tools/call]
    request for the name with the caller's parameters and no options.  What
    the request yields is returned as it is; when it fails, the caller gets
    a new [Error] whose message is the failure's message behind the prefix
    of [DiscoveredMCPTool.execute] and, unless the server's name is the
    empty string, behind the prefix of [executeTool] that names the tool and
    its server.  Under a name the registry does not hold, [executeTool]
    fails with [Tool not found] and sends nothing. *)
Theorem executeTool_after_discovery (servers servers' : Servers)
    (cmd : option string) (w : World) (ls : list Label) (sys : System)
    (name params : string) (result : JsError + string) :
  well_formed servers = true →
  populateMcpServerCommand parse process_env servers cmd = inr servers' →
  onerror_installed w = ∅ →
  toolRegistry_tools w !! name = None →
  run behaviour ls (discoverMcpTools parse new_URL process_env servers cmd w) = Some sys →
  match toolRegistry_tools (world sys) !! name with
  | Some tool =>
      tool_name tool = name
      ∧ name ≠ ""
      ∧ (∃ cfg tools,
           (tool_serverName tool, cfg) ∈ servers'
           ∧ expected new_URL process_env behaviour (tool_serverName tool) cfg
             = inr tools
           ∧ tool ∈ tools)
      ∧ executeTool name params result (world sys)
        = (emit (EvRequest (tool_serverName tool)
                   {| req_method := "tools/call"; req_name := Some name;
                      req_arguments := Some params |} None) (world sys),
           match result with
           | inr r => inr r
           | inl e =>
               inl (new_Error
                      (if String.eqb (tool_serverName tool) "" then
                         "MCP tool execution failed: " +:+ message e
                       else
                         "MCP tool '" +:+ name +:+ "' from server '"
                         +:+ tool_serverName tool
                         +:+ "' failed: MCP tool execution failed: " +:+ message e))
           end)
  | None =>
      executeTool name params result (world sys)
      = (world sys, inl (new_Error ("Tool not found: " +:+ name)))
  end.
Proof.
  intros Hwf Hp Hno Hfree Hrun.
  destruct (toolRegistry_tools (world sys) !! name) as [tool|] eqn:Hlook;
    [|unfold executeTool; by rewrite Hlook].
  pose proof (reachable_ok parse new_URL process_env behaviour servers servers' cmd w
                ls sys Hwf Hp Hrun) as Hsys.
  destruct (scripted_reachable parse new_URL process_env behaviour servers servers'
              cmd w ls sys Hwf Hp Hno Hrun) as (evs & Htr & Hsc).
  assert (evolved w (world sys)) as (evs' & Htr' & _ & Hreg & _).
  { eapply evolved_trans; [apply (evolved_start parse new_URL process_env servers cmd w)|].
    by apply (evolved_run behaviour ls). }
  assert (evs' = evs) as -> by (apply (app_inv_head (trace w)); congruence).
  pose proof Hlook as Hl. rewrite Hreg in Hl.
  apply replay_lookup in Hl as [[Hin Hname] | Hold]; [|congruence].
  apply registrations_elem_of in Hin.
  destruct (registered_tool_origin servers' evs ls sys tool Hsys Hsc Hin)
    as (cfg & tools & Hcfg & Hexp & Ht).
  assert (tool_name tool ≠ "" ∧ tool_mcpCallableTool tool = tool_serverName tool)
    as [Hne Hcall].
  { unfold expected in Hexp.
    destruct (createTransport _ _ _ _); [done|].
    destruct (connect_result _); [done|].
    pose proof (discoverTools_named _ _ _ _ Hexp) as Hall.
    rewrite Forall_forall in Hall. exact (Hall tool Ht). }
  split; [done|]. split; [by rewrite <- Hname|]. split; [by exists cfg, tools|].
  unfold executeTool. rewrite Hlook.
  unfold DiscoveredMCPTool_execute, mcpToTool_execute, try_catch, bind, act, settled,
    throw.
  rewrite Hcall, Hname. destruct result as [e | r]; [|done].
  cbn [truthy message new_Error]. by destruct (String.eqb (tool_serverName tool) "").
Qed.

End Calls.

Lemma executeTool_after_discovery_witness :
  ∃ sys tool,
    run example_behaviour example_schedule
      (discoverMcpTools example_parse example_URL example_env example_servers
         None initial_world) = Some sys
    ∧ toolRegistry_tools (world sys) !! "query" = Some tool
    ∧ tool_serverName tool = "search"
    ∧ (executeTool "query" "{}" (inl (new_Error "boom")) (world sys)).2
      = inl (new_Error
               "MCP tool 'query' from server 'search' failed: MCP tool execution failed: boom").
Proof.
  destruct (run example_behaviour example_schedule
              (discoverMcpTools example_parse example_URL example_env
                 example_servers None initial_world)) as [sys|] eqn:Hrun;
    [|vm_compute in Hrun; discriminate Hrun].
  destruct (toolRegistry_tools (world sys) !! "query") as [tool|] eqn:Hl;
    [|vm_compute in Hrun; injection Hrun as <-; vm_compute in Hl; discriminate Hl].
  assert (tool_serverName tool = "search") as Hsrv.
  { vm_compute in Hrun. injection Hrun as <-. vm_compute in Hl. injection Hl as <-.
    reflexivity. }
  pose proof (executeTool_after_discovery example_parse example_URL example_env
                example_behaviour example_servers example_servers None initial_world
                example_schedule sys "query" "{}" (inl (new_Error "boom"))
                eq_refl eq_refl eq_refl eq_refl Hrun) as H.
  rewrite Hl in H. destruct H as (_ & _ & _ & Hex).
  exists sys, tool. split; [reflexivity|]. split; [exact Hl|]. split; [exact Hsrv|].
  rewrite Hex, Hsrv. reflexivity.
Defined.

(** ** Loading the server map *)

Lemma obj_get_None (k : string) (o : Servers) :
  obj_get k o = None ↔ k ∉ map fst o.
Proof.
  induction o as [|[k' v] o IH]; simpl.
  - split; [intros _ H; by apply elem_of_nil in H | done].
  - rewrite not_elem_of_cons, <- IH. destruct (String.eqb_spec k k') as [-> | Hne].
    + split; [done | by intros [? _]].
    + split; [done | by intros [_ ?]].
Qed.

Lemma obj_insert_index_get (n : N) (k k' : string) (v : MCPServerConfig) (o : Servers) :
  obj_get k o = None →
  obj_get k' (obj_insert_index n k v o)
  = if String.eqb k' k then Some v else obj_get k' o.
Proof.
  induction o as [|[k0 v0] o IH]; intros Hk; simpl; [done|].
  simpl in Hk. destruct (String.eqb_spec k k0) as [-> | Hne]; [done|].
  destruct (array_index k0) as [n0|]; [destruct (n0 <? n)%N|]; simpl; try done.
  rewrite (IH Hk). destruct (String.eqb_spec k' k0) as [-> | Hne0]; [|done].
  by destruct (String.eqb_spec k0 k) as [-> | _].
Qed.

Lemma obj_insert_index_keys (n : N) (k : string) (v : MCPServerConfig) (o : Servers) :
  map fst (obj_insert_index n k v o) ≡ₚ k :: map fst o.
Proof.
  induction o as [|[k0 v0] o IH]; simpl; [done|].
  destruct (array_index k0) as [n0|]; [destruct (n0 <? n)%N|]; simpl; try done.
  rewrite IH. apply Permutation_swap.
Qed.

Lemma obj_put_get (k : string) (v : MCPServerConfig) (o : Servers) :
  obj_get k (obj_put k v o) = Some v.
Proof.
  unfold obj_put. destruct (obj_get k o) eqn:Hk; [apply obj_get_set|].
  destruct (array_index k); [|apply obj_get_set].
  by rewrite (obj_insert_index_get _ _ _ _ _ Hk), String.eqb_refl.
Qed.

Lemma obj_put_get_ne (k k' : string) (v : MCPServerConfig) (o : Servers) :
  k ≠ k' → obj_get k' (obj_put k v o) = obj_get k' o.
Proof.
  intros Hne. unfold obj_put.
  destruct (obj_get k o) eqn:Hk; [by apply obj_get_set_ne|].
  destruct (array_index k); [|by apply obj_get_set_ne].
  rewrite (obj_insert_index_get _ _ _ _ _ Hk).
  by destruct (String.eqb_spec k' k) as [-> | _].
Qed.

Lemma obj_put_well_formed (k : string) (v : MCPServerConfig) (o : Servers) :
  well_formed o = true → well_formed (obj_put k v o) = true.
Proof.
  intros Hwf. unfold obj_put.
  destruct (obj_get k o) eqn:Hk; [by apply obj_set_well_formed|].
  destruct (array_index k); [|by apply obj_set_well_formed].
  unfold well_formed in *. rewrite keys_unique_NoDup in *.
  rewrite obj_insert_index_keys. apply NoDup_cons. split; [|done].
  by apply obj_get_None.
Qed.

Lemma key_order_weaken (lo lo' : N) (ks : list string) :
  (lo' ≤ lo)%N → key_order lo ks = true → key_order lo' ks = true.
Proof.
  intros Hle. destruct ks as [|k ks]; [done|]. simpl.
  destruct (array_index k) as [n|]; [|done].
  rewrite !andb_true_iff, !N.leb_le. intros [H1 H2]. split; [lia | done].
Qed.

Lemma key_order_snoc (lo : N) (ks : list string) (k : string) :
  array_index k = None → key_order lo ks = true → key_order lo (ks ++ [k]) = true.
Proof.
  intros Hk. revert lo. induction ks as [|k0 ks IH]; intros lo; simpl.
  - by rewrite Hk.
  - destruct (array_index k0) as [n0|].
    + rewrite !andb_true_iff. intros [H1 H2]. split; [done | by apply IH].
    + rewrite forallb_app. intros ->. simpl. by rewrite Hk.
Qed.

Lemma key_order_insert (lo n : N) (k : string) (v : MCPServerConfig) (o : Servers) :
  array_index k = Some n → (lo ≤ n)%N →
  key_order lo (map fst o) = true →
  key_order lo (map fst (obj_insert_index n k v o)) = true.
Proof.
  intros Hk. revert lo. induction o as [|[k0 v0] o IH]; intros lo Hlo; simpl.
  - intros _. rewrite Hk. by rewrite andb_true_r, N.leb_le.
  - destruct (array_index k0) as [n0|] eqn:H0.
    + rewrite andb_true_iff, N.leb_le. intros [H1 H2].
      destruct (n0 <? n)%N eqn:Hlt; simpl.
      * rewrite H0, andb_true_iff, N.leb_le. split; [done|].
        apply IH; [|done]. apply N.ltb_lt in Hlt. lia.
      * rewrite Hk, H0. apply N.ltb_ge in Hlt.
        rewrite !andb_true_iff, !N.leb_le. done.
    + intros H. simpl. rewrite Hk, andb_true_iff, N.leb_le. split; [done|].
      simpl. by rewrite H0.
Qed.

Lemma obj_put_key_order (k : string) (v : MCPServerConfig) (o : Servers) :
  key_order 0 (map fst o) = true → key_order 0 (map fst (obj_put k v o)) = true.
Proof.
  intros Hord. unfold obj_put. destruct (obj_get k o) eqn:Hk.
  - rewrite obj_set_keys.
    assert (Array_includes (map fst o) k = true) as ->; [|done].
    apply Array_includes_elem_of. apply dec_stable. intros Hn%obj_get_None. congruence.
  - destruct (array_index k) as [n|] eqn:Hi.
    + apply key_order_insert; [done | lia | done].
    + rewrite obj_set_keys.
      destruct (Array_includes (map fst o) k); [done | by apply key_order_snoc].
Qed.

Lemma Object_assign_get (k : string) (target source : Servers) :
  well_formed source = true → k ≠ "__proto__" →
  obj_get k (Object_assign target source)
  = match obj_get k source with
    | Some c => Some c
    | None => obj_get k target
    end.
Proof.
  unfold well_formed. rewrite keys_unique_NoDup. unfold Object_assign.
  intros Hnd Hk. revert target Hnd.
  induction source as [|[k0 v0] source IH]; intros target Hnd; [done|].
  cbn [map fst] in Hnd. apply NoDup_cons in Hnd as [Hk0 Hnd].
  cbn [fold_left fst snd]. rewrite (IH _ Hnd). simpl.
  destruct (String.eqb_spec k k0) as [-> | Hne].
  - apply obj_get_None in Hk0. rewrite Hk0.
    assert (String.eqb k0 "__proto__" = false) as -> by by apply String.eqb_neq.
    apply obj_put_get.
  - destruct (obj_get k source); [done|].
    destruct (String.eqb k0 "__proto__"); [done|]. apply obj_put_get_ne. congruence.
Qed.

Lemma Object_assign_proto (target source : Servers) :
  obj_get "__proto__" target = None →
  obj_get "__proto__" (Object_assign target source) = None.
Proof.
  unfold Object_assign. revert target.
  induction source as [|[k0 v0] source IH]; intros target Ht; [done|].
  cbn [fold_left fst snd]. apply IH.
  destruct (String.eqb_spec k0 "__proto__") as [-> | Hne]; [done|].
  by rewrite obj_put_get_ne.
Qed.

Lemma Object_assign_well_formed (target source : Servers) :
  well_formed target = true ∧ key_order 0 (map fst target) = true →
  well_formed (Object_assign target source) = true
  ∧ key_order 0 (map fst (Object_assign target source)) = true.
Proof.
  unfold Object_assign. revert target.
  induction source as [|[k0 v0] source IH]; intros target [Hwf Hord]; [done|].
  cbn [fold_left fst snd]. apply IH.
  destruct (String.eqb k0 "__proto__"); [done|].
  split; [by apply obj_put_well_formed | by apply obj_put_key_order].
Qed.

Lemma loadFromConfig_servers (configPath : string) (file : ConfigFile)
    (configs : Servers) :
  (loadFromConfig configPath file configs).2 = Object_assign configs (servers_of file).
Proof. by destruct file as [| e | [servers|]]. Qed.



(** ** What the registry holds after a discovery *)

Lemma replay_unique (tools : list DiscoveredMCPTool)
    (m : gmap string DiscoveredMCPTool) (k : string) (t : DiscoveredMCPTool) :
  t ∈ tools → tool_name t = k →
  (∀ t', t' ∈ tools → tool_name t' = k → t' = t) →
  replay tools m !! k = Some t.
Proof.
  induction tools as [|x tools IH] using rev_ind; intros Hin Hname Huniq.
  - by apply elem_of_nil in Hin.
  - rewrite replay_app. cbn [replay fold_left].
    destruct (decide (tool_name x = k)) as [Hx | Hx].
    + assert (x = t) as -> by (apply Huniq; [apply elem_of_app; right; by left | done]).
      by rewrite <- Hx, lookup_insert_eq.
    + rewrite lookup_insert_ne by done.
      apply elem_of_app in Hin as [Hin | Hin%list_elem_of_singleton]; [|congruence].
      apply IH; [done | done |]. intros t' Ht'. apply Huniq. apply elem_of_app. by left.
Qed.

Lemma replay_others (tools : list DiscoveredMCPTool)
    (m : gmap string DiscoveredMCPTool) (k : string) :
  (∀ t, t ∈ tools → tool_name t ≠ k) → replay tools m !! k = m !! k.
Proof.
  induction tools as [|x tools IH] using rev_ind; intros Hno; [done|].
  rewrite replay_app. cbn [replay fold_left].
  rewrite lookup_insert_ne by (apply Hno, elem_of_app; right; by left).
  apply IH. intros t Ht. apply Hno, elem_of_app. by left.
Qed.

Section Outcome.

Variable parse : string → gmap string string → list ParseEntry.
Variable new_URL : string → option URL.
Variable process_env : gmap string string.
Variable behaviour : string → ServerBehaviour.


End Outcome.


(** ** How the filter lists act *)

Lemma keeps_named (srv : string) (cfg : MCPServerConfig) (f : FunctionDeclaration)
    (n : string) :
  fd_name f = Some n → n ≠ "" →
  keeps srv cfg f
  = negb (Array_includes (default [] (excludeTools cfg)) n)
    && match includeTools cfg with
       | None => true
       | Some inc =>
           Array_some (λ tool, String.eqb tool n || startsWith tool (n +:+ "(")) inc
       end.
Proof.
  intros Hn Hne. unfold keeps. rewrite (isEnabled_named f srv n cfg Hn Hne).
  by destruct (excludeTools cfg).
Qed.

(** X14.  Whether [isEnabled] keeps a declaration does not depend on the
    server's name, and the two lists act in one direction each: a
    declaration kept under one descriptor is kept under every descriptor
    that excludes no more names and either has no [includeTools] or has an
    [includeTools] holding every entry of the first one's.  So taking names
    out of [excludeTools], adding entries to [includeTools] or dropping
    [includeTools] never loses a tool. *)
Theorem isEnabled_monotone (f : FunctionDeclaration) (srv srv' : string)
    (cfg cfg' : MCPServerConfig) :
  (∀ x, x ∈ default [] (excludeTools cfg) → x ∈ default [] (excludeTools cfg')) →
  (includeTools cfg = None
   ∨ ∃ inc inc', includeTools cfg = Some inc ∧ includeTools cfg' = Some inc'
                 ∧ ∀ x, x ∈ inc' → x ∈ inc) →
  (isEnabled f srv' cfg').2 = true → (isEnabled f srv cfg).2 = true.
Proof.
  intros Hex Hinc Hk. change (keeps srv cfg f = true). change (keeps srv' cfg' f = true) in Hk.
  destruct (truthy (fd_name f)) eqn:Ht.
  - apply truthy_Some in Ht as (n & Hn & Hne).
    rewrite (keeps_named srv' cfg' f n Hn Hne) in Hk.
    rewrite (keeps_named srv cfg f n Hn Hne).
    apply andb_true_iff in Hk as [Hk1 Hk2]. apply negb_true_iff in Hk1.
    apply andb_true_iff. split.
    + apply negb_true_iff, not_true_is_false. intros Hin%Array_includes_elem_of.
      apply Hex, Array_includes_elem_of in Hin. congruence.
    + destruct Hinc as [-> | (inc & inc' & -> & Hi' & Hsub)]; [done|].
      rewrite Hi' in Hk2. apply Array_some_exists in Hk2 as (tool & Hin & Hm).
      apply Array_some_exists. exists tool. split; [by apply Hsub | done].
  - unfold keeps in Hk. by rewrite (isEnabled_nameless f srv' cfg' Ht) in Hk.
Qed.

Lemma isEnabled_monotone_witness :
  (isEnabled (functionDeclaration_of (wire (Some "read"))) "files" files_config).2 = true
  ∧ (isEnabled (functionDeclaration_of (wire (Some "read"))) "other" no_config).2 = true.
Proof.
  assert ((isEnabled (functionDeclaration_of (wire (Some "read"))) "files"
             files_config).2 = true) as Hk by reflexivity.
  split; [exact Hk|].
  apply (isEnabled_monotone (functionDeclaration_of (wire (Some "read")))
           "other" "files" no_config files_config).
  - simpl. intros x Hx. apply elem_of_nil in Hx. destruct Hx.
  - left. reflexivity.
  - exact Hk.
Defined.

(** X15.  An [includeTools] that is an empty array keeps no declaration at
    all: under such a descriptor [discoverTools] never returns a tool list,
    and when the server answers with an array of tools, whatever it holds,
    discovery fails with [Error discovering tools: Error: No enabled tools
    found]. *)
Theorem includeTools_empty_disables (srv : string) (cfg : MCPServerConfig) :
  includeTools cfg = Some [] →
  (∀ f, (isEnabled f srv cfg).2 = false)
  ∧ (∀ listResult, ∃ e, (discoverTools srv cfg listResult).2 = inl e)
  ∧ (∀ tools,
       (discoverTools srv cfg (inr (ToolsArray tools))).2
       = inl (new_Error "Error discovering tools: Error: No enabled tools found")).
Proof.
  intros Hinc.
  assert (∀ f, keeps srv cfg f = false) as Hnone.
  { intros f. destruct (truthy (fd_name f)) eqn:Ht.
    - apply truthy_Some in Ht as (n & Hn & Hne).
      rewrite (keeps_named srv cfg f n Hn Hne), Hinc. apply andb_false_r.
    - unfold keeps. by rewrite (isEnabled_nameless f srv cfg Ht). }
  assert (∀ decls, List.filter (keeps srv cfg) decls = []) as Hfilter.
  { intros decls. induction decls as [|d decls IH]; [done|].
    simpl. by rewrite Hnone. }
  split; [exact Hnone|]. split.
  - intros listResult. unfold discoverTools.
    destruct (mcpToTool_tool listResult) as [e | [| decls]]; [by eexists | by eexists |].
    rewrite discoverTools_of_array, Hfilter. by eexists.
  - intros tools. unfold discoverTools. simpl mcpToTool_tool.
    by rewrite discoverTools_of_array, Hfilter.
Qed.

Lemma includeTools_empty_disables_witness :
  (discoverTools "files"
     {| command := Some "node"; args := None; env := None; cwd := None; url := None;
        httpUrl := None; headers := None; timeout := None;
        includeTools := Some []; excludeTools := None |}
     (inr (ToolsArray files_tools))).2
  = inl (new_Error "Error discovering tools: Error: No enabled tools found").
Proof.
  destruct (includeTools_empty_disables "files"
              {| command := Some "node"; args := None; env := None; cwd := None;
                 url := None; httpUrl := None; headers := None; timeout := None;
                 includeTools := Some []; excludeTools := None |} eq_refl)
    as (_ & _ & H).
  exact (H files_tools).
Defined.

(** ** What a listener sees of a run *)

Section Observers.

Variable parse : string → gmap string string → list ParseEntry.
Variable new_URL : string → option URL.
Variable process_env : gmap string string.
Variable behaviour : string → ServerBehaviour.
Variable l : Listener.

(** The notifications a listener with [c] subscriptions gets for the
    statuses published in [evs]. *)
Local Notation "'told' c evs" :=
  (delivered l evs = concat (map (replicate c) (publications evs)))
  (at level 10, c at level 9, evs at level 9).

Lemma told_app (c : nat) (evs1 evs2 : list Event) :
  told c evs1 → told c evs2 → told c (app evs1 evs2).
Proof.
  intros H1 H2. unfold publications. rewrite delivered_app, omap_app, map_app, concat_app.
  fold (publications evs1). fold (publications evs2). by rewrite H1, H2.
Qed.

Lemma told_published (n : string) (s : MCPServerStatus) (ls : list Listener) :
  told (length (List.filter (Nat.eqb l) ls)) (published n s ls).
Proof.
  unfold published. change (EvStatus n s :: ?t) with (app [EvStatus n s] t).
  unfold publications. rewrite delivered_app, omap_app, delivered_notifications.
  assert (omap (λ e, match e with EvStatus n' s' => Some (n', s') | _ => None end)
            (map (λ l', EvNotify l' n s) ls) = []) as ->.
  { induction ls as [|l' ls IH]; [done|]. by simpl. }
  simpl. by rewrite app_nil_r.
Qed.

Lemma told_quiet (c : nat) (evs : list Event) :
  Forall (λ e, match e with EvStatus _ _ | EvNotify _ _ _ => False | _ => True end) evs →
  told c evs.
Proof.
  induction 1 as [|e evs He _ IH]; [done|].
  change (e :: evs) with (app [e] evs). apply told_app; [|done].
  by destruct e.
Qed.

Lemma told_resume (name : string) (cfg : MCPServerConfig) (point : Suspended)
    (ls : list Listener) :
  told (length (List.filter (Nat.eqb l) ls)) (resume_delta behaviour name cfg point ls).
Proof.
  destruct point as [[e | t] | t | e |]; unfold resume_delta.
  - unfold failure_line. change (EvConsole ?c :: ?t) with (app [EvConsole c] t).
    apply told_app; [by apply told_quiet; constructor | apply told_published].
  - apply told_quiet. by constructor.
  - destruct (connect_result _).
    + apply told_quiet. by constructor.
    + apply told_app; [apply told_published | by apply told_quiet; constructor].
  - unfold failure_line. change (EvConsole ?c :: ?t) with (app [EvConsole c] t).
    apply told_app; [by apply told_quiet; constructor | apply told_published].
  - cbv zeta. apply told_app.
    { apply told_quiet, Forall_forall. intros e Hin.
      by apply list_elem_of_In, in_map_iff in Hin as (x & <- & _). }
    destruct (discoverTools _ _ _).2 as [e | tools].
    + unfold failure_line.
      change (EvClientClose name :: EvConsole ?c :: ?t)
        with (app [EvClientClose name; EvConsole c] t).
      apply told_app; [|apply told_published].
      apply told_quiet. by repeat constructor.
    + apply told_quiet, Forall_forall. intros e Hin.
      by apply list_elem_of_In, in_map_iff in Hin as (x & <- & _).
Qed.

Lemma told_step (c : nat) (tr0 : list Event) (lbl : Label) (sys sys' : System) :
  length (List.filter (Nat.eqb l) (statusChangeListeners (world sys))) = c →
  (∃ evs, trace (world sys) = app tr0 evs ∧ told c evs) →
  step behaviour lbl sys = Some sys' →
  length (List.filter (Nat.eqb l) (statusChangeListeners (world sys'))) = c
  ∧ ∃ evs, trace (world sys') = app tr0 evs ∧ told c evs.
Proof.
  intros Hc (evs & Htr & Htold) Hstep.
  destruct (evolved_step behaviour lbl sys sys' Hstep) as (_ & _ & _ & _ & Hls).
  split; [by rewrite Hls|].
  destruct lbl as [i | m e |]; simpl in Hstep.
  - destruct (discoveryPromises sys !! i) as [p|]; [|done].
    destruct (p_state p) as [point | |]; [|done|done]. injection Hstep as <-.
    destruct (resume_world behaviour (p_name p) (p_config p) point (world sys))
      as (Hw1 & _).
    eexists. cbn [world]. rewrite Hw1, Htr, <- app_assoc. split; [done|].
    apply told_app; [done|]. rewrite <- Hc. apply told_resume.
  - destruct (decide _); [|done]. injection Hstep as <-.
    unfold onerror_handler. rewrite updateMCPServerStatus_eq.
    eexists. cbn [world trace emit statusChangeListeners].
    rewrite Htr, <- !app_assoc. split; [done|].
    apply told_app; [done|]. apply told_app; [by apply told_quiet; constructor|].
    rewrite <- Hc. apply (told_published m DISCONNECTED).
  - destruct (call sys); [|done|done].
    destruct (promise_all _); [|done]. injection Hstep as <-.
    eexists. cbn [world]. simpl. rewrite Htr, <- app_assoc. split; [done|].
    apply told_app; [done|]. apply told_quiet. by constructor.
Qed.

Lemma told_run (c : nat) (tr0 : list Event) (ls : list Label) (sys sys' : System) :
  length (List.filter (Nat.eqb l) (statusChangeListeners (world sys))) = c →
  (∃ evs, trace (world sys) = app tr0 evs ∧ told c evs) →
  run behaviour ls sys = Some sys' →
  ∃ evs, trace (world sys') = app tr0 evs ∧ told c evs.
Proof.
  revert sys. induction ls as [|lbl ls IH]; intros sys Hc Htold Hrun; simpl in Hrun.
  - by injection Hrun as <-.
  - destruct (step behaviour lbl sys) as [sys1|] eqn:Hstep; [|done].
    destruct (told_step c tr0 lbl sys sys1 Hc Htold Hstep) as [Hc1 Htold1].
    by apply (IH sys1).
Qed.

Lemma told_launch (entries : Servers) (ls : list Listener) :
  told (length (List.filter (Nat.eqb l) ls))
       (concat (map (λ nc, published nc.1 CONNECTING ls) entries)).
Proof.
  induction entries as [|[n c] entries IH]; [done|].
  cbn [map concat fst]. apply told_app; [apply told_published | done].
Qed.

(** With listeners that only observe: in every run of [discoverMcpTools],
    whatever world it starts in,
    a status listener is told of every status the run publishes, for every
    server, in the order of publication and once for each subscription it
    held when the call started, and of nothing else: a listener subscribed
    once sees the complete status history of the run, a listener that is not
    subscribed sees nothing.  Console output, requests, registrations and
    the discovery state reach no listener. *)
Lemma told_discovery (servers : Servers) (cmd : option string)
    (w : World) (ls : list Label) (sys : System) :
  run behaviour ls (discoverMcpTools parse new_URL process_env servers cmd w) = Some sys →
  ∃ evs,
    trace (world sys) = app (trace w) evs
    ∧ delivered l evs
      = concat (map (replicate (subscriptions l w)) (publications evs)).
Proof.
  intros Hrun. unfold subscriptions.
  apply (told_run _ (trace w) ls
           (discoverMcpTools parse new_URL process_env servers cmd w)); [| |done].
  - by destruct (evolved_start parse new_URL process_env servers cmd w)
      as (_ & _ & _ & _ & ->).
  - unfold discoverMcpTools.
    destruct (populateMcpServerCommand _ _ _ _) as [e | servers']; cbv zeta.
    + exists [EvDiscoveryState IN_PROGRESS; EvDiscoveryState COMPLETED]. simpl.
      by rewrite <- app_assoc.
    + destruct (launch_world new_URL process_env servers'
                  (set_mcpDiscoveryState IN_PROGRESS w)) as (H1 & _).
      eexists. cbn [world]. rewrite H1. simpl. rewrite <- app_assoc.
      split; [done|].
      apply (told_app _ [EvDiscoveryState IN_PROGRESS]); [done|].
      apply told_launch.
Qed.

End Observers.

(** * Listeners that act *)

(** ** The loop over the live listener array *)

(** Unsubscribing a list of listeners only touches the listener array. *)
Lemma remove_all_eq (rs : list Listener) (w : World) :
  fold_left (λ w' l', removeMCPStatusChangeListener l' w') rs w =
    {| mcpServerStatusesInternal := mcpServerStatusesInternal w;
       mcpDiscoveryState := mcpDiscoveryState w;
       statusChangeListeners :=
         fold_left (λ a l', remove_first l' a) rs (statusChangeListeners w);
       toolRegistry_tools := toolRegistry_tools w;
       onerror_installed := onerror_installed w;
       trace := trace w |}.
Proof.
  revert w. induction rs as [|r rs IH]; intros w; simpl; [by destruct w|].
  by rewrite IH.
Qed.

Lemma unobserved_emit (e : Event) (w : World) :
  unobserved (emit e w) = if is_notify e then unobserved w else emit e (unobserved w).
Proof.
  unfold unobserved, emit. simpl. rewrite List.filter_app. simpl.
  destruct (is_notify e); simpl; [by rewrite app_nil_r | done].
Qed.

Lemma unobserved_listeners (w : World) (ls : list Listener) :
  unobserved {| mcpServerStatusesInternal := mcpServerStatusesInternal w;
                mcpDiscoveryState := mcpDiscoveryState w;
                statusChangeListeners := ls;
                toolRegistry_tools := toolRegistry_tools w;
                onerror_installed := onerror_installed w;
                trace := trace w |} = unobserved w.
Proof. done. Qed.

Section NotifyFacts.

Variable conduct : Conduct.

Lemma notify_returns (fuel i : nat) (n : string) (s : MCPServerStatus) (w : World) :
  never_throws conduct →
  (Live.notify conduct fuel i n s w).2 = inr tt
  ∧ unobserved (Live.notify conduct fuel i n s w).1 = unobserved w.
Proof.
  intros Hnt. revert i w. induction fuel as [|fuel IH]; intros i w; simpl; [done|].
  destruct (statusChangeListeners w !! i) as [l|]; [|done].
  rewrite Hnt. destruct (IH (S i) (fold_left (λ w' l', removeMCPStatusChangeListener l' w')
                                     (removes (conduct l n s))
                                     (emit (EvNotify l n s) w))) as [H1 H2].
  split; [done|]. rewrite H2, remove_all_eq. simpl.
  unfold unobserved. simpl. rewrite List.filter_app. simpl. by rewrite app_nil_r.
Qed.

Lemma update_returns (n : string) (s : MCPServerStatus) (w : World) :
  never_throws conduct →
  (Live.updateMCPServerStatus conduct n s w).2 = inr tt
  ∧ unobserved (Live.updateMCPServerStatus conduct n s w).1
    = updateMCPServerStatus n s (unobserved w).
Proof.
  intros Hnt. unfold Live.updateMCPServerStatus.
  match goal with
  | |- context [Live.notify conduct ?f ?i n s ?w1] =>
      destruct (notify_returns f i n s w1 Hnt) as [H1 H2]
  end.
  split; [done|]. rewrite H2, updateMCPServerStatus_eq.
  unfold unobserved, emit. simpl. by rewrite List.filter_app.
Qed.

Lemma notify_quiet (fuel i : nat) (n : string) (s : MCPServerStatus) (w : World) :
  quiet conduct (statusChangeListeners w) →
  (length (statusChangeListeners w) ≤ fuel + i)%nat →
  Live.notify conduct fuel i n s w
  = (fold_left (λ w' l, emit (EvNotify l n s) w') (drop i (statusChangeListeners w)) w,
     inr tt).
Proof.
  revert i w. induction fuel as [|fuel IH]; intros i w Hq Hlen; simpl.
  - rewrite drop_ge by lia. done.
  - destruct (statusChangeListeners w !! i) as [l|] eqn:Hi.
    + rewrite (Hq l n s) by by eapply list_elem_of_lookup_2.
      simpl. rewrite IH; [|done | simpl; lia].
      simpl. by rewrite (drop_S _ _ _ Hi).
    + apply lookup_ge_None in Hi. by rewrite drop_ge.
Qed.

Lemma update_quiet (n : string) (s : MCPServerStatus) (w : World) :
  quiet conduct (statusChangeListeners w) →
  Live.updateMCPServerStatus conduct n s w = (updateMCPServerStatus n s w, inr tt).
Proof.
  intros Hq. unfold Live.updateMCPServerStatus, updateMCPServerStatus.
  rewrite notify_quiet; [done | done | simpl; lia].
Qed.

End NotifyFacts.

(** ** Listeners that do not throw: the run seen without its listeners *)

(** Events that are no notification stay in the unobserved trace. *)
Lemma filter_quiet_events {A} (f : A → Event) (l : list A) :
  (∀ x, is_notify (f x) = false) →
  List.filter (λ e, negb (is_notify e)) (map f l) = map f l.
Proof.
  intros Hf. induction l as [|x l IH]; [done|]. simpl. by rewrite Hf, IH.
Qed.

Lemma unobserved_log_lines (out : list ConsoleLine) (w : World) :
  unobserved (log_lines out w) = log_lines out (unobserved w).
Proof.
  rewrite !log_lines_eq. unfold unobserved. simpl.
  by rewrite List.filter_app, filter_quiet_events.
Qed.

Lemma unobserved_register_all (tools : list DiscoveredMCPTool) (w : World) :
  unobserved (register_all tools w) = register_all tools (unobserved w).
Proof.
  rewrite !register_all_eq. unfold unobserved. simpl.
  by rewrite List.filter_app, filter_quiet_events.
Qed.

Section Simulation.

Variable conduct : Conduct.
Variable parse : string → gmap string string → list ParseEntry.
Variable new_URL : string → option URL.
Variable process_env : gmap string string.
Variable behaviour : string → ServerBehaviour.

Hypothesis no_throw : never_throws conduct.

Lemma live_update (n : string) (s : MCPServerStatus) (w : World) :
  ∃ w', Live.updateMCPServerStatus conduct n s w = (w', inr tt)
        ∧ unobserved w' = updateMCPServerStatus n s (unobserved w).
Proof.
  destruct (update_returns conduct n s w no_throw) as [H1 H2].
  destruct (Live.updateMCPServerStatus conduct n s w) as [w' r]. simpl in *.
  exists w'. by subst r.
Qed.

Lemma live_catch (name : string) (body : M Control) (w : World) :
  match body w with
  | (w1, inl e) =>
      ∃ w', Live.try_connectAndDiscover conduct name body w = (w', inr Return)
            ∧ unobserved w' = caught name e (unobserved w1)
  | (w1, inr c) => Live.try_connectAndDiscover conduct name body w = (w1, inr c)
  end.
Proof.
  unfold Live.try_connectAndDiscover, try_catch.
  destruct (body w) as [w1 [e | c]]; [|done].
  unfold bind at 1, act at 1.
  destruct (live_update name DISCONNECTED
              (emit (EvConsole (ConsoleError
                 ("Error connecting to MCP server '" +:+ name +:+ "': "
                  +:+ message_or_string e))) w1)) as (w' & Hu & Hw').
  unfold bind. rewrite Hu. exists w'. split; [done|].
  rewrite Hw', unobserved_emit. done.
Qed.

Lemma live_resume (name : string) (cfg : MCPServerConfig) (point : Suspended)
    (w : World) :
  (Live.resume_segment conduct behaviour name cfg point w).2
  = (resume_segment behaviour name cfg point (unobserved w)).2
  ∧ unobserved (Live.resume_segment conduct behaviour name cfg point w).1
    = (resume_segment behaviour name cfg point (unobserved w)).1.
Proof.
  destruct point as [r | t | e |]; unfold Live.resume_segment;
    match goal with
    | |- context [Live.try_connectAndDiscover conduct name ?b w] =>
        set (body := b); pose proof (live_catch name body w) as H
    end.
  - rewrite resume_AwaitTransport. destruct r as [e | t].
    + change (body w) with (w, @inl JsError Control (connection_error name e)) in H.
      destruct H as (w' & -> & Hw'). done.
    + change (body w)
        with (emit (EvConnect name t (default MCP_DEFAULT_TIMEOUT_MSEC (timeout cfg))) w,
              @inr JsError Control (Suspend (AwaitConnect t))) in H.
      cbv beta iota in H. rewrite H. cbn [fst snd]. by rewrite unobserved_emit.
  - rewrite resume_AwaitConnect. subst body.
    destruct (connect_result (behaviour name)) as [e | u].
    + match type of H with
      | context [match ?b w with _ => _ end] =>
          change (b w) with (emit (EvTransportClose name) w,
                             @inr JsError Control (Suspend (AwaitTransportClose e))) in H
      end.
      cbv beta iota in H. rewrite H. cbn [fst snd]. by rewrite unobserved_emit.
    + destruct (live_update name CONNECTED w) as (w' & Hu & Hw').
      match type of H with
      | context [match ?b w with _ => _ end] =>
          assert (b w = (emit (EvRequest name
                                 {| req_method := "tools/list"; req_name := None;
                                    req_arguments := None |} None)
                           (install_onerror name w'),
                         inr (Suspend AwaitList))) as Hb
      end.
      { unfold try_discover, try_catch. unfold bind at 1. by rewrite Hu. }
      rewrite Hb in H. rewrite H. cbn [fst snd]. split; [done|].
      rewrite unobserved_emit. cbn [is_notify].
      change (unobserved (install_onerror name w'))
        with (install_onerror name (unobserved w')).
      by rewrite Hw'.
  - rewrite resume_AwaitTransportClose.
    assert (body w = (w, inl (connection_error name
                                match transport_close_result (behaviour name) with
                                | inl e' => e'
                                | inr _ => e
                                end))) as Hb.
    { subst body. unfold try_connectToMcpServer, try_catch, bind, settled, throw.
      by destruct (transport_close_result (behaviour name)). }
    rewrite Hb in H. destruct H as (w' & -> & Hw'). done.
  - rewrite resume_AwaitList. cbv zeta.
    assert (body w
            = match (discoverTools name cfg (list_result (behaviour name))).2 with
              | inl e =>
                  (emit (EvClientClose name)
                     (log_lines (discoverTools name cfg
                                   (list_result (behaviour name))).1 w), inl e)
              | inr tools =>
                  (register_all tools
                     (log_lines (discoverTools name cfg
                                   (list_result (behaviour name))).1 w), inr Return)
              end) as Hb.
    { subst body. unfold try_discover, try_catch, discoverTools_m.
      unfold bind at 1 2 3. rewrite for_of_act.
      fold (log_lines (discoverTools name cfg (list_result (behaviour name))).1 w).
      unfold settled at 1.
      destruct (discoverTools name cfg (list_result (behaviour name))).2 as [e | tools].
      - reflexivity.
      - unfold bind. rewrite for_of_act. reflexivity. }
    rewrite Hb in H.
    destruct (discoverTools name cfg (list_result (behaviour name))).2 as [e | tools].
    + destruct H as (w' & -> & Hw'). cbn [fst snd]. split; [done|].
      by rewrite Hw', unobserved_emit, unobserved_log_lines.
    + rewrite H. cbn [fst snd].
      by rewrite unobserved_register_all, unobserved_log_lines.
Qed.

Lemma unobserved_set_mcpDiscoveryState (s : MCPDiscoveryState) (w : World) :
  unobserved (set_mcpDiscoveryState s w) = set_mcpDiscoveryState s (unobserved w).
Proof.
  unfold set_mcpDiscoveryState, unobserved, emit. simpl. by rewrite List.filter_app.
Qed.

Lemma live_launch (entries : Servers) (w : World) :
  (Live.launch conduct new_URL process_env entries w).2
  = (launch new_URL process_env entries (unobserved w)).2
  ∧ unobserved (Live.launch conduct new_URL process_env entries w).1
    = (launch new_URL process_env entries (unobserved w)).1.
Proof.
  revert w. induction entries as [|[n c] entries IH]; intros w; [done|].
  cbn [Live.launch launch]. cbv zeta.
  unfold Live.connectAndDiscover, connectAndDiscover.
  rewrite connectAndDiscover_start_eq. cbn [fst snd].
  destruct (live_update n CONNECTING w) as (w' & Hu & Hw').
  assert (Live.connectAndDiscover_start conduct new_URL process_env n c w
          = (w', inr (Suspend (AwaitTransport
                                 (createTransport new_URL process_env n c))))) as Hs.
  { unfold Live.connectAndDiscover_start. unfold bind at 1. by rewrite Hu. }
  rewrite Hs. cbn [fst snd]. destruct (IH w') as [H1 H2].
  rewrite Hw' in H1, H2. by rewrite H1, H2.
Qed.

Lemma live_start (servers : Servers) (cmd : option string) (w : World) :
  unobserved_system
    (Live.discoverMcpTools conduct parse new_URL process_env servers cmd w)
  = discoverMcpTools parse new_URL process_env servers cmd (unobserved w).
Proof.
  unfold Live.discoverMcpTools, discoverMcpTools, unobserved_system.
  destruct (populateMcpServerCommand _ _ _ _) as [e | servers']; cbv zeta; cbn [world
    discoveryPromises call].
  - by rewrite !unobserved_set_mcpDiscoveryState.
  - destruct (live_launch servers' (set_mcpDiscoveryState IN_PROGRESS w)) as [H1 H2].
    rewrite unobserved_set_mcpDiscoveryState in H1, H2. by rewrite H1, H2.
Qed.

Lemma live_step (l : Label) (sys : System) :
  unobserved_system <$> Live.step conduct behaviour l sys
  = step behaviour l (unobserved_system sys).
Proof.
  destruct l as [i | m e |]; simpl.
  - destruct (discoveryPromises sys !! i) as [p|]; [|done].
    destruct (p_state p) as [point | |]; [|done|done]. simpl.
    destruct (live_resume (p_name p) (p_config p) point (world sys)) as [H1 H2].
    unfold unobserved_system at 1. simpl. by rewrite H1, H2.
  - destruct (decide _); [|done]. simpl. unfold unobserved_system at 1. simpl.
    do 2 f_equal. unfold Live.onerror_handler, onerror_handler. unfold bind, act.
    destruct (live_update m DISCONNECTED
                (emit (EvConsole (ConsoleError
                   ("MCP ERROR (" +:+ m +:+ "): " +:+ Error_toString e))) (world sys)))
      as (w' & Hu & Hw').
    rewrite Hu. cbn [fst]. by rewrite Hw', unobserved_emit.
  - destruct (call sys); [|done|done].
    destruct (promise_all (discoveryPromises sys)); [|done]. simpl.
    unfold unobserved_system at 1. simpl. by rewrite unobserved_set_mcpDiscoveryState.
Qed.

Lemma live_run (ls : list Label) (sys : System) :
  unobserved_system <$> Live.run conduct behaviour ls sys
  = run behaviour ls (unobserved_system sys).
Proof.
  revert sys. induction ls as [|l ls IH]; intros sys; [done|].
  cbn [Live.run run]. rewrite <- live_step.
  destruct (Live.step conduct behaviour l sys) as [sys1|]; [|done]. apply IH.
Qed.

End Simulation.

(** ** Listeners that return quietly *)

(** Listeners that neither throw nor unsubscribe: the two models agree. *)
Section Refinement.

Variable conduct : Conduct.
Variable parse : string → gmap string string → list ParseEntry.
Variable new_URL : string → option URL.
Variable process_env : gmap string string.
Variable behaviour : string → ServerBehaviour.

Lemma quiet_catch (name : string) (bodyL body0 : M Control) (w : World) :
  bodyL w = body0 w →
  quiet conduct (statusChangeListeners (body0 w).1) →
  Live.try_connectAndDiscover conduct name bodyL w
  = try_connectAndDiscover name body0 w.
Proof.
  intros Hb Hq. unfold Live.try_connectAndDiscover, try_connectAndDiscover, try_catch.
  rewrite Hb. destruct (body0 w) as [w1 [e | c]]; [|done].
  unfold bind, act. by rewrite update_quiet.
Qed.

Lemma quiet_resume (name : string) (cfg : MCPServerConfig) (point : Suspended)
    (w : World) :
  quiet conduct (statusChangeListeners w) →
  Live.resume_segment conduct behaviour name cfg point w
  = resume_segment behaviour name cfg point w.
Proof.
  intros Hq. destruct point as [r | t | e |]; unfold Live.resume_segment, resume_segment.
  - apply quiet_catch; [done|]. by destruct r.
  - destruct (connect_result (behaviour name)) as [e | u].
    + by apply quiet_catch.
    + assert (try_discover name
                (exec Live.updateMCPServerStatus conduct name CONNECTED;
                 exec act (install_onerror name);
                 exec act (emit (EvRequest name
                              {| req_method := "tools/list";
                                 req_name := None; req_arguments := None |} None));
                 ret (Suspend AwaitList))%js w
              = try_discover name
                  (exec act (updateMCPServerStatus name CONNECTED);
                   exec act (install_onerror name);
                   exec act (emit (EvRequest name
                                {| req_method := "tools/list";
                                   req_name := None; req_arguments := None |} None));
                   ret (Suspend AwaitList))%js w) as Hb.
      { unfold try_discover, try_catch. unfold bind at 1 5. unfold act at 3.
        by rewrite update_quiet. }
      apply quiet_catch; [done|].
      unfold try_discover, try_catch, bind, act, ret. simpl.
      by rewrite updateMCPServerStatus_eq.
  - apply quiet_catch; [done|].
    unfold try_connectToMcpServer, try_catch, bind, settled, throw.
    by destruct (transport_close_result (behaviour name)).
  - apply quiet_catch; [done|].
    unfold try_discover, try_catch, discoverTools_m.
    unfold bind at 1 2 3. rewrite for_of_act.
    fold (log_lines (discoverTools name cfg (list_result (behaviour name))).1 w).
    unfold settled at 1.
    destruct (discoverTools name cfg (list_result (behaviour name))).2 as [e | tools].
    + unfold bind, act, throw. simpl. by rewrite log_lines_eq.
    + unfold bind. rewrite for_of_act. unfold ret. simpl.
      fold (register_all tools
              (log_lines (discoverTools name cfg (list_result (behaviour name))).1 w)).
      by rewrite register_all_eq, log_lines_eq.
Qed.

Lemma quiet_launch (entries : Servers) (w : World) :
  quiet conduct (statusChangeListeners w) →
  Live.launch conduct new_URL process_env entries w
  = launch new_URL process_env entries w.
Proof.
  revert w. induction entries as [|[n c] entries IH]; intros w Hq; [done|].
  cbn [Live.launch launch]. cbv zeta.
  unfold Live.connectAndDiscover, connectAndDiscover.
  assert (Live.connectAndDiscover_start conduct new_URL process_env n c w
          = connectAndDiscover_start new_URL process_env n c w) as ->.
  { unfold Live.connectAndDiscover_start, connectAndDiscover_start.
    unfold bind at 1 2. unfold act. rewrite update_quiet by done.
    apply quiet_catch; [done|]. simpl. by rewrite updateMCPServerStatus_eq. }
  rewrite connectAndDiscover_start_eq. cbn [fst snd].
  rewrite IH; [done|]. by rewrite updateMCPServerStatus_eq.
Qed.

Lemma quiet_start (servers : Servers) (cmd : option string) (w : World) :
  quiet conduct (statusChangeListeners w) →
  Live.discoverMcpTools conduct parse new_URL process_env servers cmd w
  = discoverMcpTools parse new_URL process_env servers cmd w.
Proof.
  intros Hq. unfold Live.discoverMcpTools, discoverMcpTools.
  destruct (populateMcpServerCommand _ _ _ _); [done|]. cbv zeta.
  by rewrite quiet_launch.
Qed.

Lemma quiet_step (l : Label) (sys : System) :
  quiet conduct (statusChangeListeners (world sys)) →
  Live.step conduct behaviour l sys = step behaviour l sys.
Proof.
  intros Hq. destruct l as [i | m e |]; simpl; [| |done].
  - destruct (discoveryPromises sys !! i) as [p|]; [|done].
    destruct (p_state p) as [point | |]; [|done|done].
    by rewrite quiet_resume.
  - destruct (decide _); [|done]. do 2 f_equal.
    unfold Live.onerror_handler, onerror_handler, bind, act.
    by rewrite update_quiet.
Qed.

Lemma quiet_run (ls : list Label) (sys : System) :
  quiet conduct (statusChangeListeners (world sys)) →
  Live.run conduct behaviour ls sys = run behaviour ls sys.
Proof.
  revert sys. induction ls as [|l ls IH]; intros sys Hq; [done|].
  cbn [Live.run run]. rewrite quiet_step by done.
  destruct (step behaviour l sys) as [sys1|] eqn:Hstep; [|done].
  apply IH.
  by destruct (evolved_step behaviour l sys sys1 Hstep) as (_ & _ & _ & _ & ->).
Qed.

End Refinement.

(** ** The orchestrator with listeners that act *)

(** An event of the unobserved trace is an event of the trace. *)
Lemma unobserved_trace (e : Event) (w : World) :
  e ∈ trace (unobserved w) → e ∈ trace w.
Proof. simpl. intros H. by apply list_elem_of_In, filter_In in H as [H%list_elem_of_In _]. Qed.

Section Isolation.

Variable conduct : Conduct.
Variable parse : string → gmap string string → list ParseEntry.
Variable new_URL : string → option URL.
Variable process_env : gmap string string.
Variable behaviour : string → ServerBehaviour.


End Isolation.

(** ** The status registry with listeners that act *)

(** What is left of the array from an index on is left in order. *)
Lemma remove_first_drop (l : Listener) (a : list Listener) (k : nat) :
  drop k (remove_first l a) `sublist_of` drop k a.
Proof.
  revert k. induction a as [|x a IH]; intros k; [done|]. simpl.
  destruct (Nat.eqb x l).
  - destruct k as [|k]; simpl.
    + by apply sublist_cons.
    + replace (drop (S k) a) with (drop 1 (drop k a)) by by rewrite drop_drop, Nat.add_1_r.
      apply sublist_drop.
  - destruct k as [|k]; simpl.
    + apply sublist_skip. apply (IH 0%nat).
    + apply IH.
Qed.

Lemma remove_all_drop (rs : list Listener) (a : list Listener) (k : nat) :
  drop k (fold_left (λ a l', remove_first l' a) rs a) `sublist_of` drop k a.
Proof.
  revert a. induction rs as [|r rs IH]; intros a; [done|]. simpl.
  etransitivity; [apply IH | apply remove_first_drop].
Qed.

Section Calls.

Variable conduct : Conduct.

Lemma notify_calls (fuel i : nat) (n : string) (s : MCPServerStatus) (w : World) :
  ∃ called,
    trace (Live.notify conduct fuel i n s w).1
    = app (trace w) (map (λ l, EvNotify l n s) called)
    ∧ called `sublist_of` drop i (statusChangeListeners w)
    ∧ mcpServerStatusesInternal (Live.notify conduct fuel i n s w).1
      = mcpServerStatusesInternal w.
Proof.
  revert i w. induction fuel as [|fuel IH]; intros i w; simpl.
  { exists []. simpl. rewrite app_nil_r. split; [done|]. split; [apply sublist_nil_l | done]. }
  destruct (statusChangeListeners w !! i) as [l|] eqn:Hi.
  2: { exists []. simpl. rewrite app_nil_r. split; [done|].
       split; [apply sublist_nil_l | done]. }
  set (w1 := fold_left (λ w' l', removeMCPStatusChangeListener l' w')
               (removes (conduct l n s)) (emit (EvNotify l n s) w)).
  assert (trace w1 = app (trace w) [EvNotify l n s]
          ∧ mcpServerStatusesInternal w1 = mcpServerStatusesInternal w
          ∧ drop (S i) (statusChangeListeners w1)
            `sublist_of` drop (S i) (statusChangeListeners w)) as (Ht1 & Hm1 & Hs1).
  { subst w1. rewrite remove_all_eq. simpl. split; [done|]. split; [done|].
    apply remove_all_drop. }
  rewrite (drop_S _ _ _ Hi).
  destruct (thrown (conduct l n s)) as [e|].
  - exists [l]. simpl. split; [done|]. split; [|done].
    apply sublist_skip, sublist_nil_l.
  - destruct (IH (S i) w1) as (called & Ht & Hs & Hm).
    exists (l :: called). rewrite Ht, Ht1, Hm, Hm1. simpl.
    rewrite <- app_assoc. split; [done|]. split; [|done].
    apply sublist_skip. by etransitivity.
Qed.

Lemma update_calls (n : string) (s : MCPServerStatus) (w : World) :
  ∃ called,
    trace (Live.updateMCPServerStatus conduct n s w).1
    = app (trace w) (EvStatus n s :: map (λ l, EvNotify l n s) called)
    ∧ called `sublist_of` statusChangeListeners w
    ∧ mcpServerStatusesInternal (Live.updateMCPServerStatus conduct n s w).1
      = <[n := s]> (mcpServerStatusesInternal w).
Proof.
  unfold Live.updateMCPServerStatus.
  match goal with
  | |- context [Live.notify conduct ?f ?i n s ?w1] =>
      destruct (notify_calls f i n s w1) as (called & Ht & Hs & Hm)
  end.
  exists called. rewrite Ht, Hm. simpl. by rewrite <- app_assoc.
Qed.

Lemma live_apply_ops_untouched (ops : list RegistryOp) (x : string) (w : World) :
  (∀ s, OpSet x s ∉ ops) →
  mcpServerStatusesInternal (Live.apply_ops conduct ops w) !! x
  = mcpServerStatusesInternal w !! x.
Proof.
  revert w. induction ops as [|op ops IH]; intros w Hno; [done|].
  change (Live.apply_ops conduct (op :: ops) w)
    with (Live.apply_ops conduct ops (Live.apply_op conduct w op)).
  rewrite IH by (intros s Hin; apply (Hno s); by right).
  destruct op as [l | l | n s]; simpl; [done | done |].
  destruct (update_calls n s w) as (called & _ & _ & ->).
  apply lookup_insert_ne. intros ->. apply (Hno s). by left.
Qed.

End Calls.

Lemma delivered_calls (l : Listener) (n : string) (s : MCPServerStatus)
    (called : list Listener) :
  delivered l (map (λ l', EvNotify l' n s) called)
  = replicate (length (List.filter (Nat.eqb l) called)) (n, s).
Proof. apply delivered_notifications. Qed.


Lemma selfish_never_throws : never_throws selfish.
Proof. intros l n s. unfold selfish. by destruct (Nat.eqb l 1). Qed.





(** ** Counting subscriptions *)

(** [indexOf] finds the earliest occurrence. *)
Lemma remove_first_earliest (l : Listener) (before after : list Listener) :
  l ∉ before → remove_first l (app before (l :: after)) = app before after.
Proof.
  induction before as [|x before IH]; intros Hl; simpl.
  - by rewrite Nat.eqb_refl.
  - apply not_elem_of_cons in Hl as [Hne Hl].
    destruct (Nat.eqb_spec x l) as [-> | _]; [done|]. by rewrite IH.
Qed.

Lemma sublist_count (l : Listener) (a b : list Listener) :
  a `sublist_of` b →
  (length (List.filter (Nat.eqb l) a) ≤ length (List.filter (Nat.eqb l) b))%nat.
Proof.
  induction 1 as [|x a b _ IH|x a b _ IH]; simpl; [done | |];
    destruct (Nat.eqb l x); simpl; lia.
Qed.

Lemma notified_inj (n : string) (s : MCPServerStatus) (a b : list Listener) :
  map (λ l, EvNotify l n s) a = map (λ l, EvNotify l n s) b → a = b.
Proof.
  revert b. induction a as [|x a IH]; intros [|y b] H; try done.
  simpl in H. injection H as -> H. f_equal. by apply IH.
Qed.



(** ** What a listener sees of a run *)
Section LiveObservers.

Variable conduct : Conduct.
Variable parse : string → gmap string string → list ParseEntry.
Variable new_URL : string → option URL.
Variable process_env : gmap string string.
Variable behaviour : string → ServerBehaviour.
Variable l : Listener.


End LiveObservers.

